(** * DripSwap_Contract: tools/make-standard-json.py, tools/print_ctor.py

    A shallow embedding of the standard-JSON reconstruction script and the
    properties its specification states about it, and of the script that
    prints the constructor arguments of a deployed pool.

    Conventions.
    - A Python [str] is a [string]; each [ascii] stands for one character
      (code points 0..255; higher code points are outside the model).
    - JSON texts hold no number with a fraction or an exponent.
    - A Python [dict] with [str] keys is an association list in insertion
      order ([PyDict.dict]); a well-formed dict has no repeated key.
    - A raised exception is the [Err] branch of [result]. *)

From Stdlib Require Import String Ascii List Bool Arith ZArith Lia.
Import ListNotations.
Open Scope list_scope.
Open Scope string_scope.

(** ** Python strings *)

Module PyStr.

(** [s.startswith(prefix)] *)
Fixpoint startswith (s prefix : string) {struct prefix} : bool :=
  match prefix, s with
  | EmptyString, _ => true
  | String _ _, EmptyString => false
  | String a p, String b s' => Ascii.eqb a b && startswith s' p
  end.

(** [s[n:]] *)
Fixpoint slice_from (n : nat) (s : string) : string :=
  match n, s with
  | O, _ => s
  | S _, EmptyString => EmptyString
  | S n', String _ s' => slice_from n' s'
  end.

(** [s[:-1]] *)
Fixpoint drop_last (s : string) : string :=
  match s with
  | EmptyString => EmptyString
  | String _ EmptyString => EmptyString
  | String c s' => String c (drop_last s')
  end.

(** [s.endswith(suffix)] *)
Definition endswith (s suffix : string) : bool :=
  (String.length suffix <=? String.length s)%nat &&
  String.eqb (slice_from (String.length s - String.length suffix) s) suffix.

(** [c.isspace()] for the code points of the model: U+0009..U+000D,
    U+001C..U+001F, U+0020, U+0085 and U+00A0. *)
Definition isspace (c : ascii) : bool :=
  let n := nat_of_ascii c in
  (((9 <=? n) && (n <=? 13)) || ((28 <=? n) && (n <=? 31)) ||
   (n =? 32) || (n =? 133) || (n =? 160))%nat.

(** The line boundaries of [str.splitlines] for the code points of the
    model: LF, VT, FF, CR, FS, GS, RS and NEL. *)
Definition is_linebreak (c : ascii) : bool :=
  let n := nat_of_ascii c in
  (((10 <=? n) && (n <=? 13)) || ((28 <=? n) && (n <=? 30)) ||
   (n =? 133))%nat.

(** [s.lstrip()] *)
Fixpoint lstrip (s : string) : string :=
  match s with
  | EmptyString => EmptyString
  | String c s' => if isspace c then lstrip s' else s
  end.

(** [s.rstrip()] *)
Fixpoint rstrip (s : string) : string :=
  match s with
  | EmptyString => EmptyString
  | String c s' =>
      match rstrip s' with
      | EmptyString => if isspace c then EmptyString else String c EmptyString
      | r => String c r
      end
  end.

(** [s.strip()] *)
Definition strip (s : string) : string := rstrip (lstrip s).

(** [s.splitlines()]: a CR LF pair is one boundary, and a boundary at the
    very end opens no further line. *)
Fixpoint splitlines (s : string) : list string :=
  match s with
  | EmptyString => []
  | String c s' =>
      if is_linebreak c then
        match s' with
        | String c' s'' =>
            if Ascii.eqb c "013" && Ascii.eqb c' "010"
            then EmptyString :: splitlines s''
            else EmptyString :: splitlines s'
        | EmptyString => [EmptyString]
        end
      else
        match splitlines s' with
        | [] => [String c EmptyString]
        | line :: lines => String c line :: lines
        end
  end.

(** [s.split(sep, 1)] for a one-character [sep]: [None] when [sep] does not
    occur (the list has one element), the two parts otherwise. *)
Fixpoint split_once (sep : ascii) (s : string) : option (string * string) :=
  match s with
  | EmptyString => None
  | String c s' =>
      if Ascii.eqb c sep then Some (EmptyString, s')
      else match split_once sep s' with
           | Some (a, b) => Some (String c a, b)
           | None => None
           end
  end.

(** [s.split(sep, 1)[0]] *)
Definition before_first (sep : ascii) (s : string) : string :=
  match split_once sep s with
  | Some (a, _) => a
  | None => s
  end.

End PyStr.

(** ** Python dictionaries keyed by strings *)

Module PyDict.
Section Dict.
Context {V : Type}.

Definition dict := list (string * V).

(** [d.get(k)] *)
Fixpoint get (k : string) (d : dict) : option V :=
  match d with
  | [] => None
  | (k', v) :: d' => if String.eqb k k' then Some v else get k d'
  end.

(** [k in d] *)
Definition contains (k : string) (d : dict) : bool :=
  match get k d with Some _ => true | None => false end.

(** [d[k] = v]: rebinding keeps the key's position, a new key goes last. *)
Fixpoint set (k : string) (v : V) (d : dict) : dict :=
  match d with
  | [] => [(k, v)]
  | (k', v') :: d' =>
      if String.eqb k k' then (k', v) :: d' else (k', v') :: set k v d'
  end.

(** [d.pop(k, None)], the popped value dropped. *)
Fixpoint pop (k : string) (d : dict) : dict :=
  match d with
  | [] => []
  | (k', v) :: d' => if String.eqb k k' then d' else (k', v) :: pop k d'
  end.

Definition keys (d : dict) : list string := map fst d.

Definition wf (d : dict) : Prop := NoDup (keys d).

End Dict.
Arguments dict V : clear implicits.
End PyDict.

Import PyStr.
Import PyDict.

(** ** Alias Expander (lines 71-79) *)

(** Body of the inner loop for one [(path, content)] of [sources.items()]. *)
Definition expand_item (alias target : string)
    (expanded : dict string) (item : string * string) : dict string :=
  let '(path, content) := item in
  if startswith path target then
    let candidate := alias ++ slice_from (String.length target) path in
    if negb (contains candidate expanded)
    then set candidate content expanded
    else expanded
  else expanded.

(** Body of the outer loop for one [(alias, target)] of [remaps]: the inner
    loop runs over the items of [sources], never over [expanded]. *)
Definition expand_rule (sources : dict string)
    (expanded : dict string) (rule : string * string) : dict string :=
  let '(alias, target) := rule in
  fold_left (expand_item alias target) sources expanded.

Definition expand_alias_sources (sources : dict string)
    (remaps : list (string * string)) : dict string :=
  let expanded := sources in
  fold_left (expand_rule sources) remaps expanded.

(** ** Exceptions *)

Inductive exn : Type :=
| FileNotFoundError (message : string)
| IsADirectoryError (message : string)
| NotADirectoryError (message : string)
| FileExistsError (message : string)
| JSONDecodeError
| KeyError (key : string)
| TypeError
| AttributeError
| ValueError
| SyntaxError.

Inductive result (A : Type) : Type :=
| Ok (a : A)
| Err (e : exn).
Arguments Ok {A} a.
Arguments Err {A} e.

(** ** Remapping Parser (lines 41-68) *)

(** The tail [(.*?)\]] of the pattern, with DOTALL: group 1 is the text up
    to the first closing bracket; no bracket, no match. *)
Fixpoint until_rbracket (s : string) : option string :=
  match s with
  | EmptyString => None
  | String c s' =>
      if Ascii.eqb c "]" then Some EmptyString
      else option_map (String c) (until_rbracket s')
  end.

(** The pattern [remappings\s*=\s*\[(.*?)\]] matched at the start of [s];
    the value is group 1.  [\s] is [isspace]; as neither [=] nor [[] is a
    space, the greedy [\s*] never has to give a character back. *)
Definition match_remappings (s : string) : option string :=
  if startswith s "remappings" then
    match lstrip (slice_from 10 s) with
    | String c r =>
        if Ascii.eqb c "=" then
          match lstrip r with
          | String c' r' =>
              if Ascii.eqb c' "[" then until_rbracket r' else None
          | EmptyString => None
          end
        else None
    | EmptyString => None
    end
  else None.

(** [re.search(pattern, text, re.S)]: the match at the leftmost position
    that has one. *)
Fixpoint re_search (text : string) : option string :=
  match match_remappings text with
  | Some group1 => Some group1
  | None =>
      match text with
      | EmptyString => None
      | String _ text' => re_search text'
      end
  end.

(** Lines 50-56 for one line: [None] when the line is skipped. *)
Definition clean_line (line : string) : option string :=
  let line := strip (before_first "#" line) in
  if String.eqb line EmptyString then None
  else Some (if endswith line "," then drop_last line else line).

(** Lines 48-56: the list [entries]. *)
Fixpoint clean_lines (lines : list string) : list string :=
  match lines with
  | [] => []
  | line :: lines' =>
      match clean_line line with
      | Some entry => entry :: clean_lines lines'
      | None => clean_lines lines'
      end
  end.

(** Lines 64-67: [alias, target = item.split("=", 1)]; an item without
    [=] cannot be unpacked. *)
Fixpoint split_rules (items : list string) : result (list (string * string)) :=
  match items with
  | [] => Ok []
  | item :: items' =>
      match split_once "=" item with
      | None => Err ValueError
      | Some rule =>
          match split_rules items' with
          | Ok rules => Ok (rule :: rules)
          | Err e => Err e
          end
      end
  end.

Section RemappingParser.

(** [ast.literal_eval] on a list literal.  [Err] stands for every way the
    call or the loop after it raises: a syntax error, a malformed node, an
    element that is not a [str]. *)
Variable literal_eval : string -> result (list string).

(** Lines 47-68, from [raw_block] on. *)
Definition parse_block (raw_block : string) : result (list (string * string)) :=
  let entries := clean_lines (splitlines raw_block) in
  match entries with
  | [] => Ok []
  | _ :: _ =>
      let literal := "[" ++ String.concat "," entries ++ "]" in
      match literal_eval literal with
      | Ok remappings => split_rules remappings
      | Err e => Err e
      end
  end.

(** Lines 43-68, on the text of the configuration file. *)
Definition parse_remappings_text (text : string) : result (list (string * string)) :=
  match re_search text with
  | None => Ok []
  | Some raw_block => parse_block raw_block
  end.

End RemappingParser.

(** *** Remappings blocks as they are written *)

Fixpoint all_chars (p : ascii -> bool) (s : string) : bool :=
  match s with
  | EmptyString => true
  | String c s' => p c && all_chars p s'
  end.

Definition first_char (s : string) : option ascii :=
  match s with
  | EmptyString => None
  | String c _ => Some c
  end.

Fixpoint last_char (s : string) : option ascii :=
  match s with
  | EmptyString => None
  | String c EmptyString => Some c
  | String _ s' => last_char s'
  end.

(** One line of a block: indentation, the entry, a comma right after it,
    blanks, and a comment running to the end of the line.  A line without
    entry has [item = EmptyString]. *)
Record block_line : Type := {
  lead : string;
  item : string;
  comma : bool;
  gap : string;
  comment : option string
}.

Definition comma_text (l : block_line) : string :=
  if comma l then "," else EmptyString.

Definition render_line (l : block_line) : string :=
  lead l ++ item l ++ comma_text l ++ gap l ++
  match comment l with
  | Some text => String "#" text
  | None => EmptyString
  end.

Definition newline : string := String "010" EmptyString.

Definition render_block (ls : list block_line) : string :=
  String.concat newline (map render_line ls).

(** The same block with every line cut at its first [#]. *)
Definition without_comments (raw_block : string) : string :=
  String.concat newline (map (before_first "#") (splitlines raw_block)).

Definition has_item (l : block_line) : bool :=
  negb (String.eqb (item l) EmptyString).

Definition without_comment (l : block_line) : block_line :=
  {| lead := lead l; item := item l; comma := comma l; gap := gap l;
     comment := None |}.

Definition without_comma (l : block_line) : block_line :=
  {| lead := lead l; item := item l; comma := false; gap := gap l;
     comment := comment l |}.

(** The comma after the last entry of the block is removed. *)
Fixpoint without_trailing_comma (ls : list block_line) : list block_line :=
  match ls with
  | [] => []
  | l :: ls' =>
      if existsb has_item ls' then l :: without_trailing_comma ls'
      else without_comma l :: ls'
  end.

(** The same block with neither comments nor trailing comma. *)
Definition plain_block (ls : list block_line) : list block_line :=
  without_trailing_comma (map without_comment ls).

Definition is_inline_blank (c : ascii) : bool :=
  isspace c && negb (is_linebreak c).

(** The parts of a line are what they are called: blanks are blanks, the
    entry holds no [#] and no line break, starts and ends with a character
    that is neither a space nor (at the end) a comma, a comma needs an
    entry, and a comment stays on its line. *)
Definition line_ok (l : block_line) : bool :=
  all_chars is_inline_blank (lead l) &&
  all_chars is_inline_blank (gap l) &&
  all_chars (fun c => negb (is_linebreak c) && negb (Ascii.eqb c "#")) (item l) &&
  match first_char (item l), last_char (item l) with
  | Some a, Some b => negb (isspace a) && negb (isspace b) && negb (Ascii.eqb b ",")
  | _, _ => true
  end &&
  (has_item l || negb (comma l)) &&
  match comment l with
  | Some text => all_chars (fun c => negb (is_linebreak c)) text
  | None => true
  end.

(** No closing bracket in [s]. *)
Definition no_rbracket (s : string) : bool :=
  all_chars (fun c => negb (Ascii.eqb c "]")) s.

(** The comment of a line, if it has one, holds no closing bracket. *)
Definition comment_ok (l : block_line) : bool :=
  match comment l with
  | Some text => no_rbracket text
  | None => true
  end.

(** [word in s] *)
Fixpoint occurs (word s : string) : bool :=
  startswith s word ||
  match s with
  | EmptyString => false
  | String _ s' => occurs word s'
  end.

(** A configuration file around a remappings block: any text, the key,
    [=] with white space around it, the block between brackets, and any
    text. *)
Definition remappings_config (pre ws1 ws2 block rest : string) : string :=
  pre ++ "remappings" ++ ws1 ++
  String "=" (ws2 ++ String "[" (block ++ String "]" rest)).

(** What the specification says of comments and of the trailing comma,
    as it says it, of every block: the block and its plain form give the
    same rules. *)
Definition comments_never_matter
    (literal_eval : string -> result (list string)) : Prop :=
  forall ls,
    Forall (fun l => line_ok l = true) ls ->
    parse_remappings_text literal_eval
      (remappings_config EmptyString " " " " (render_block ls) EmptyString) =
    parse_remappings_text literal_eval
      (remappings_config EmptyString " " " " (render_block (plain_block ls))
         EmptyString).

(** *** The list literals of configuration files *)

Definition dquote : ascii := "034".
Definition squote : ascii := "039".
Definition backslash : ascii := "092".

(** [s] between double quotes. *)
Definition quoted (s : string) : string :=
  String dquote (s ++ String dquote EmptyString).

(** Blanks between the tokens of a Python expression. *)
Definition is_py_blank (c : ascii) : bool :=
  Ascii.eqb c " " || Ascii.eqb c "009" || Ascii.eqb c "012".

Fixpoint skip_py_blanks (s : string) : string :=
  match s with
  | String c s' => if is_py_blank c then skip_py_blanks s' else s
  | EmptyString => EmptyString
  end.

(** The body of a string literal opened by [quote], up to the closing
    quote: the text denoted and the rest of the input.  The escapes are
    backslash followed by a backslash, a quote, [n], [r] or [t]; a line
    break or the end of input before the closing quote is a syntax
    error, and so is a NUL, which no Python source may hold. *)
Fixpoint py_string_body (quote : ascii) (s : string) : option (string * string) :=
  match s with
  | EmptyString => None
  | String c s' =>
      if Ascii.eqb c quote then Some (EmptyString, s')
      else if Ascii.eqb c "010" || Ascii.eqb c "013" || Ascii.eqb c "000"
      then None
      else if Ascii.eqb c backslash then
        match s' with
        | String e s'' =>
            let unescaped :=
              if Ascii.eqb e backslash then Some backslash
              else if Ascii.eqb e dquote then Some dquote
              else if Ascii.eqb e squote then Some squote
              else if Ascii.eqb e "n" then Some "010"%char
              else if Ascii.eqb e "r" then Some "013"%char
              else if Ascii.eqb e "t" then Some "009"%char
              else None in
            match unescaped, py_string_body quote s'' with
            | Some u, Some (body, rest) => Some (String u body, rest)
            | _, _ => None
            end
        | EmptyString => None
        end
      else
        match py_string_body quote s' with
        | Some (body, rest) => Some (String c body, rest)
        | None => None
        end
  end.

(** A string literal at the start of [s]. *)
Definition py_string (s : string) : option (string * string) :=
  match s with
  | String c s' =>
      if Ascii.eqb c dquote || Ascii.eqb c squote
      then py_string_body c s' else None
  | EmptyString => None
  end.

(** The elements of a list display after the opening bracket; [fuel]
    bounds the number of elements. *)
Fixpoint py_elements (fuel : nat) (s : string) : option (list string) :=
  match fuel with
  | O => None
  | S fuel' =>
      match skip_py_blanks s with
      | String c s' =>
          if Ascii.eqb c "]" then
            match skip_py_blanks s' with
            | EmptyString => Some []
            | String _ _ => None
            end
          else
            match py_string (String c s') with
            | Some (item, rest) =>
                match skip_py_blanks rest with
                | String d rest' =>
                    if Ascii.eqb d "," then
                      option_map (cons item) (py_elements fuel' rest')
                    else if Ascii.eqb d "]" then
                      match skip_py_blanks rest' with
                      | EmptyString => Some [item]
                      | String _ _ => None
                      end
                    else None
                | EmptyString => None
                end
            | None => None
            end
      | EmptyString => None
      end
  end.

(** [ast.literal_eval] on the literals a remappings array is written with:
    a bracketed, comma-separated list (a trailing comma allowed) of plain,
    single-line string literals in double or single quotes, with the
    escapes above.  On these the value is Python's.  Every other text is
    answered with [SyntaxError]: that is Python's answer for a text that
    is no expression, an unterminated string in particular; the literals
    of Python that are not of this form (prefixed, adjacent or
    triple-quoted strings, other escapes, elements that are not strings)
    are outside what the function models, and nothing below evaluates it
    on one. *)
Definition py_literal_eval (literal : string) : result (list string) :=
  match skip_py_blanks literal with
  | String c s =>
      if Ascii.eqb c "[" then
        match py_elements (S (String.length s)) s with
        | Some items => Ok items
        | None => Err SyntaxError
        end
      else Err SyntaxError
  | EmptyString => Err SyntaxError
  end.

(** *** Rules as they are written *)

(** A character that stands for itself inside a single-line string
    literal in double quotes. *)
Definition py_plain (c : ascii) : bool :=
  negb (Ascii.eqb c dquote) && negb (Ascii.eqb c backslash) &&
  negb (Ascii.eqb c "010") && negb (Ascii.eqb c "013") &&
  negb (Ascii.eqb c "000").

(** A character that an entry of a remappings block can hold and keep:
    one that stands for itself in the literal, does not end the line,
    does not start a comment and does not close the block. *)
Definition rule_char (c : ascii) : bool :=
  py_plain c && negb (is_linebreak c) &&
  negb (Ascii.eqb c "#") && negb (Ascii.eqb c "]").

(** [alias=target] *)
Definition rule_text (rule : string * string) : string :=
  fst rule ++ "=" ++ snd rule.

(** The entry of a rule in a remappings array: [alias=target] between
    double quotes. *)
Definition rule_entry (rule : string * string) : string :=
  quoted (rule_text rule).

(** A rule that can be written so and read back: no [=] in the alias,
    and in alias and target no double quote, backslash, NUL, line
    boundary, [#] or closing bracket. *)
Definition rule_ok (rule : string * string) : bool :=
  all_chars (fun c => negb (Ascii.eqb c "=")) (fst rule) &&
  all_chars rule_char (fst rule) && all_chars rule_char (snd rule).

(** ** JSON values and the [json] module *)

(** The values [json.loads] builds, without floats: a number literal with
    a fraction or an exponent is outside the model. *)
Unset Elimination Schemes.
Inductive json : Type :=
| JNull
| JBool (b : bool)
| JInt (n : Z)
| JStr (s : string)
| JList (items : list json)
| JObject (members : dict json).
Set Elimination Schemes.

Module Json.

(** *** Integers in decimal *)

Definition digit_char (d : nat) : ascii := ascii_of_nat (48 + d).

Definition digit_value (c : ascii) : nat := nat_of_ascii c - 48.

Definition is_digit (c : ascii) : bool :=
  ((48 <=? nat_of_ascii c) && (nat_of_ascii c <=? 57))%nat.

(** The decimal digits of [n], most significant first. *)
Fixpoint nat_digits (fuel n : nat) : string :=
  match fuel with
  | O => EmptyString
  | S fuel' =>
      (if (n <? 10)%nat then EmptyString else nat_digits fuel' (n / 10)) ++
      String (digit_char (n mod 10)) EmptyString
  end.

(** [str(n)] *)
Definition int_to_string (n : Z) : string :=
  (if (n <? 0)%Z then "-" else EmptyString) ++
  nat_digits (S (Z.abs_nat n)) (Z.abs_nat n).

(** The number a digit string denotes, continuing from [acc]. *)
Fixpoint digits_value (acc : nat) (s : string) : nat :=
  match s with
  | EmptyString => acc
  | String c s' => digits_value (10 * acc + digit_value c) s'
  end.

(** The longest prefix of digits, and what follows it. *)
Fixpoint span_digits (s : string) : string * string :=
  match s with
  | String c s' =>
      if is_digit c
      then let '(ds, rest) := span_digits s' in (String c ds, rest)
      else (EmptyString, s)
  | EmptyString => (EmptyString, EmptyString)
  end.

(** What may follow an integer literal: anything but a digit, a fraction
    or an exponent. *)
Definition int_follow_ok (rest : string) : bool :=
  match rest with
  | EmptyString => true
  | String c _ =>
      negb (is_digit c || Ascii.eqb c "." || Ascii.eqb c "e" || Ascii.eqb c "E")
  end.

(** An integer literal at the start of [s]: an optional minus sign, then
    a zero or a non-zero digit followed by digits.  After a leading zero a
    further digit, like a fraction or an exponent anywhere, never lets the
    whole text decode to a value of the model. *)
Definition parse_int (s : string) : option (Z * string) :=
  let '(negative, s1) :=
    match s with
    | String c s' => if Ascii.eqb c "-" then (true, s') else (false, s)
    | EmptyString => (false, s)
    end in
  let '(ds, rest) := span_digits s1 in
  match ds with
  | EmptyString => None
  | String c ds' =>
      if Ascii.eqb c "0" && negb (String.eqb ds' EmptyString) then None
      else if int_follow_ok rest then
        let n := Z.of_nat (digits_value 0 ds) in
        Some (if negative then Z.opp n else n, rest)
      else None
  end.

(** *** Strings *)

Definition hex_char (d : nat) : ascii :=
  match String.get d "0123456789abcdef" with
  | Some c => c
  | None => "0"
  end.

Definition hex_value (c : ascii) : option nat :=
  let n := nat_of_ascii c in
  if is_digit c then Some (n - 48)
  else if ((97 <=? n) && (n <=? 102))%nat then Some (n - 87)
  else if ((65 <=? n) && (n <=? 70))%nat then Some (n - 55)
  else None.

(** The escape [\u00XX] of a character. *)
Definition u_escape (c : ascii) : string :=
  String backslash
    (String "u" (String "0" (String "0"
      (String (hex_char (nat_of_ascii c / 16))
        (String (hex_char (nat_of_ascii c mod 16)) EmptyString))))).

(** How the encoder writes one character of a string. *)
Definition escape_char (ensure_ascii : bool) (c : ascii) : string :=
  if Ascii.eqb c dquote then String backslash (String dquote EmptyString)
  else if Ascii.eqb c backslash then String backslash (String backslash EmptyString)
  else if Ascii.eqb c "010" then String backslash "n"
  else if Ascii.eqb c "013" then String backslash "r"
  else if Ascii.eqb c "009" then String backslash "t"
  else if Ascii.eqb c "008" then String backslash "b"
  else if Ascii.eqb c "012" then String backslash "f"
  else if ((nat_of_ascii c <? 32) ||
           (ensure_ascii && (126 <? nat_of_ascii c)))%nat then u_escape c
  else String c EmptyString.

Fixpoint escape_string (ensure_ascii : bool) (s : string) : string :=
  match s with
  | EmptyString => EmptyString
  | String c s' => escape_char ensure_ascii c ++ escape_string ensure_ascii s'
  end.

Definition encode_string (ensure_ascii : bool) (s : string) : string :=
  String dquote (escape_string ensure_ascii s ++ String dquote EmptyString).

(** The character a one-letter escape stands for. *)
Definition unescape (e : ascii) : option ascii :=
  if Ascii.eqb e dquote then Some dquote
  else if Ascii.eqb e backslash then Some backslash
  else if Ascii.eqb e "/" then Some "/"%char
  else if Ascii.eqb e "b" then Some "008"%char
  else if Ascii.eqb e "f" then Some "012"%char
  else if Ascii.eqb e "n" then Some "010"%char
  else if Ascii.eqb e "r" then Some "013"%char
  else if Ascii.eqb e "t" then Some "009"%char
  else None.

(** The character of [\uXXXX], when it is one of the model. *)
Definition unescape_u (h1 h2 h3 h4 : ascii) : option ascii :=
  match hex_value h1, hex_value h2, hex_value h3, hex_value h4 with
  | Some a, Some b, Some c, Some d =>
      let n := ((a * 16 + b) * 16 + c) * 16 + d in
      if (n <? 256)%nat then Some (ascii_of_nat n) else None
  | _, _, _, _ => None
  end.

(** The decoder's [scanstring] after the opening quote, strict: the text
    up to the closing quote, and the rest of the input.  A control
    character, an unknown escape or the end of input is an error. *)
Fixpoint scanstring (s : string) : option (string * string) :=
  match s with
  | EmptyString => None
  | String c s' =>
      if Ascii.eqb c dquote then Some (EmptyString, s')
      else if Ascii.eqb c backslash then
        match s' with
        | String e s'' =>
            if Ascii.eqb e "u" then
              match s'' with
              | String h1 (String h2 (String h3 (String h4 r))) =>
                  match unescape_u h1 h2 h3 h4, scanstring r with
                  | Some u, Some (text, rest) => Some (String u text, rest)
                  | _, _ => None
                  end
              | _ => None
              end
            else
              match unescape e, scanstring s'' with
              | Some u, Some (text, rest) => Some (String u text, rest)
              | _, _ => None
              end
        | EmptyString => None
        end
      else if (nat_of_ascii c <? 32)%nat then None
      else
        match scanstring s' with
        | Some (text, rest) => Some (String c text, rest)
        | None => None
        end
  end.

(** *** Encoder *)

Fixpoint spaces (n : nat) : string :=
  match n with
  | O => EmptyString
  | S n' => String " " (spaces n')
  end.

Section Encoder.

(** [json.dumps(v, ensure_ascii=..., indent=...)]; [indent = None] is the
    compact form with separators [", "] and [": "]. *)
Variable ensure_ascii : bool.
Variable indent : option nat.

Definition newline_indent (level : nat) : string :=
  match indent with
  | None => EmptyString
  | Some width => String "010" (spaces (width * level))
  end.

Definition item_separator (level : nat) : string :=
  match indent with
  | None => ", "
  | Some _ => String "," (newline_indent level)
  end.

Definition key_separator : string := ": ".

Fixpoint dumps_at (level : nat) (v : json) : string :=
  match v with
  | JNull => "null"
  | JBool true => "true"
  | JBool false => "false"
  | JInt n => int_to_string n
  | JStr s => encode_string ensure_ascii s
  | JList [] => "[]"
  | JList (x :: xs) =>
      "[" ++ newline_indent (S level) ++ dumps_at (S level) x ++
      fold_right
        (fun y more => item_separator (S level) ++ dumps_at (S level) y ++ more)
        (newline_indent level ++ "]") xs
  | JObject [] => "{}"
  | JObject (kx :: ms) =>
      "{" ++ newline_indent (S level) ++
      encode_string ensure_ascii (fst kx) ++ key_separator ++
      dumps_at (S level) (snd kx) ++
      fold_right
        (fun ky more =>
           item_separator (S level) ++
           encode_string ensure_ascii (fst ky) ++ key_separator ++
           dumps_at (S level) (snd ky) ++ more)
        (newline_indent level ++ "}") ms
  end.

Definition dumps (v : json) : string := dumps_at 0 v.

End Encoder.

(** *** Decoder *)

Definition is_json_ws (c : ascii) : bool :=
  Ascii.eqb c " " || Ascii.eqb c "009" || Ascii.eqb c "010" || Ascii.eqb c "013".

Fixpoint skip_ws (s : string) : string :=
  match s with
  | String c s' => if is_json_ws c then skip_ws s' else s
  | EmptyString => EmptyString
  end.

(** The characters that [parse_value] does not take for the start of a
    number. *)
Definition is_special (c : ascii) : bool :=
  is_json_ws c || Ascii.eqb c dquote || Ascii.eqb c "{" || Ascii.eqb c "[" ||
  Ascii.eqb c "]" || Ascii.eqb c "n" || Ascii.eqb c "t" || Ascii.eqb c "f".

(** The constant [word] at the start of [s]. *)
Definition expect (word : string) (v : json) (s : string) : option (json * string) :=
  if startswith s word
  then Some (v, slice_from (String.length word) s)
  else None.

(** [dict(pairs)]: a repeated key keeps its first position and takes its
    last value. *)
Definition dict_of_pairs (pairs : list (string * json)) : dict json :=
  fold_left (fun d kv => set (fst kv) (snd kv) d) pairs [].

(** The decoder's [scan_once], [JSONArray] and [JSONObject].
    [parse_items] and [parse_members] start at the first character of an
    element, resp. of a key, and read up to the closing bracket. *)
Fixpoint parse_value (fuel : nat) (s : string) : option (json * string) :=
  match fuel with
  | O => None
  | S fuel' =>
      match s with
      | EmptyString => None
      | String c s' =>
          if Ascii.eqb c dquote then
            match scanstring s' with
            | Some (text, rest) => Some (JStr text, rest)
            | None => None
            end
          else if Ascii.eqb c "{" then
            match skip_ws s' with
            | EmptyString => None
            | String c' body' =>
                if Ascii.eqb c' "}" then Some (JObject [], body')
                else
                  match parse_members fuel' (String c' body') with
                  | Some (pairs, rest) => Some (JObject (dict_of_pairs pairs), rest)
                  | None => None
                  end
            end
          else if Ascii.eqb c "[" then
            match skip_ws s' with
            | EmptyString => None
            | String c' body' =>
                if Ascii.eqb c' "]" then Some (JList [], body')
                else
                  match parse_items fuel' (String c' body') with
                  | Some (items, rest) => Some (JList items, rest)
                  | None => None
                  end
            end
          else if Ascii.eqb c "n" then expect "ull" JNull s'
          else if Ascii.eqb c "t" then expect "rue" (JBool true) s'
          else if Ascii.eqb c "f" then expect "alse" (JBool false) s'
          else
            match parse_int s with
            | Some (n, rest) => Some (JInt n, rest)
            | None => None
            end
      end
  end
with parse_items (fuel : nat) (s : string) : option (list json * string) :=
  match fuel with
  | O => None
  | S fuel' =>
      match parse_value fuel' s with
      | Some (v, rest) =>
          match skip_ws rest with
          | String c rest' =>
              if Ascii.eqb c "," then
                match parse_items fuel' (skip_ws rest') with
                | Some (vs, rest'') => Some (v :: vs, rest'')
                | None => None
                end
              else if Ascii.eqb c "]" then Some ([v], rest')
              else None
          | EmptyString => None
          end
      | None => None
      end
  end
with parse_members (fuel : nat) (s : string) : option (list (string * json) * string) :=
  match fuel with
  | O => None
  | S fuel' =>
      match s with
      | String q s' =>
          if Ascii.eqb q dquote then
            match scanstring s' with
            | Some (key, rest) =>
                match skip_ws rest with
                | String c rest' =>
                    if Ascii.eqb c ":" then
                      match parse_value fuel' (skip_ws rest') with
                      | Some (v, rest'') =>
                          match skip_ws rest'' with
                          | String d rest3 =>
                              if Ascii.eqb d "," then
                                match parse_members fuel' (skip_ws rest3) with
                                | Some (ms, rest4) => Some ((key, v) :: ms, rest4)
                                | None => None
                                end
                              else if Ascii.eqb d "}" then Some ([(key, v)], rest3)
                              else None
                          | EmptyString => None
                          end
                      | None => None
                      end
                    else None
                | EmptyString => None
                end
            | None => None
            end
          else None
      | EmptyString => None
      end
  end.

(** [json.loads(s)]: one value between optional white space, and nothing
    after it.  [None] is a [JSONDecodeError]. *)
Definition loads (s : string) : option json :=
  match parse_value (2 * String.length s) (skip_ws s) with
  | Some (v, rest) =>
      match skip_ws rest with
      | EmptyString => Some v
      | String _ _ => None
      end
  | None => None
  end.

(** The fuel that decoding the encoding of [v] takes. *)
Fixpoint size (v : json) : nat :=
  match v with
  | JList xs => S (fold_right (fun x need => S (size x + need)) 0 xs)
  | JObject ms => S (fold_right (fun kx need => S (size (snd kx) + need)) 0 ms)
  | _ => 1
  end.

End Json.

(** A value as [json.loads] builds it: no object has a key twice. *)
Fixpoint wf_json (v : json) : Prop :=
  match v with
  | JList xs => fold_right (fun x rest => wf_json x /\ rest) True xs
  | JObject ms =>
      wf ms /\ fold_right (fun kx rest => wf_json (snd kx) /\ rest) True ms
  | _ => True
  end.

(** ** The format of the output document *)

(** The format the specification describes for the output file, written
    down from its words and independently of the encoder above:
    pretty-printed with 2-space indentation, one member or element per
    line, the members in the order of the object, and the characters of a
    string left as they are, those above U+007F in particular.  The
    written file is compared with it. *)
Module Layout.

(** A character that a string of the document holds as it is: every
    character from U+0020 on, the double quote and the backslash apart. *)
Definition verbatim (c : ascii) : bool :=
  (32 <=? nat_of_ascii c)%nat &&
  negb (Ascii.eqb c dquote) && negb (Ascii.eqb c backslash).

(** The text of a string between its quotes: the double quote, the
    backslash and the control characters are escaped as JSON demands, and
    nothing else is. *)
Fixpoint written (s : string) : string :=
  match s with
  | EmptyString => EmptyString
  | String c s' =>
      (if verbatim c then String c EmptyString else Json.escape_char false c)
      ++ written s'
  end.

(** Two spaces for each level of nesting. *)
Fixpoint indentation (depth : nat) : string :=
  match depth with
  | O => EmptyString
  | S depth' => String " " (String " " (indentation depth'))
  end.

(** The lines of a non-empty list or object: one per element, each
    indented, a comma after all but the last. *)
Definition block (open close : string) (depth : nat) (lines : list string)
  : string :=
  open ++ newline ++
  String.concat ("," ++ newline)
    (map (fun line => indentation (S depth) ++ line) lines) ++
  newline ++ indentation depth ++ close.

(** A value that starts at nesting level [depth]. *)
Fixpoint pretty (depth : nat) (v : json) : string :=
  match v with
  | JNull => "null"
  | JBool true => "true"
  | JBool false => "false"
  | JInt n => Json.int_to_string n
  | JStr s => quoted (written s)
  | JList [] => "[]"
  | JList xs => block "[" "]" depth (map (pretty (S depth)) xs)
  | JObject [] => "{}"
  | JObject ms =>
      block "{" "}" depth
        (map (fun kx => quoted (written (fst kx)) ++ ": " ++
                        pretty (S depth) (snd kx)) ms)
  end.

End Layout.

(** ** The script's steps on the file system *)

(** The world a run acts on: the regular text files, by path, and what has
    been printed.  Paths are compared as strings, written as [pathlib]
    prints them.  A directory is a path that has a file below it: the
    directories are read off the paths of the files, and a directory
    without any file below it is not part of the world. *)
Record world : Type := {
  files : dict string;
  stdout : list string
}.

(** [k] names something below the directory [path]. *)
Definition below (path k : string) : bool :=
  startswith k (if endswith path "/" then path else path ++ "/") &&
  negb (String.eqb k path).

(** [path.is_dir()] *)
Definition is_dir (path : string) (w : world) : bool :=
  existsb (below path) (keys (files w)).

(** A regular file stands where [path] needs a directory above it. *)
Definition under_file (path : string) (w : world) : bool :=
  existsb (fun k => below k path) (keys (files w)).

(** A step reads and changes the world and returns or raises; the world
    is kept when it raises. *)
Definition M (A : Type) : Type := world -> result A * world.

Definition ret {A} (a : A) : M A := fun w => (Ok a, w).

Definition raise {A} (e : exn) : M A := fun w => (Err e, w).

Definition bind {A B} (m : M A) (k : A -> M B) : M B :=
  fun w =>
    match m w with
    | (Ok a, w') => k a w'
    | (Err e, w') => (Err e, w')
    end.

Definition lift {A} (r : result A) : M A := fun w => (r, w).

Notation "x <- m ;; k" := (bind m (fun x => k))
  (at level 61, m at next level, right associativity).
Notation "m ;; k" := (bind m (fun _ => k))
  (at level 61, right associativity).

(** The message of an [OSError] about [path]. *)
Definition os_error (what path : string) : string :=
  what ++ ": '" ++ path ++ "'".

(** [path.exists()]: a regular file or a directory is there. *)
Definition path_exists (path : string) : M bool :=
  fun w => (Ok (contains path (files w) || is_dir path w), w).

(** [path.read_text()]: the text of a regular file; a directory cannot be
    read, and neither can a path through a regular file. *)
Definition read_text (path : string) : M string :=
  fun w =>
    match get path (files w) with
    | Some text => (Ok text, w)
    | None =>
        if is_dir path w then
          (Err (IsADirectoryError (os_error "[Errno 21] Is a directory" path)), w)
        else if under_file path w then
          (Err (NotADirectoryError (os_error "[Errno 20] Not a directory" path)), w)
        else
          (Err (FileNotFoundError
                  (os_error "[Errno 2] No such file or directory" path)), w)
    end.

(** [path.write_text(text)], the directory of [path] being there (the
    script makes it on the line before): a regular file is created or
    replaced; a directory at [path], or a regular file above it, is in the
    way. *)
Definition write_text (path text : string) : M unit :=
  fun w =>
    if is_dir path w then
      (Err (IsADirectoryError (os_error "[Errno 21] Is a directory" path)), w)
    else if under_file path w then
      (Err (NotADirectoryError (os_error "[Errno 20] Not a directory" path)), w)
    else
      (Ok tt, {| files := set path text (files w); stdout := stdout w |}).

(** [path.mkdir(parents=True, exist_ok=True)]: a directory that is there
    is left alone; a regular file at [path], or above it, is in the way;
    otherwise the directory and the missing ones above it are made, which
    shows in the world once a file is written below them. *)
Definition mkdir_parents (path : string) : M unit :=
  fun w =>
    if contains path (files w) then
      (Err (FileExistsError (os_error "[Errno 17] File exists" path)), w)
    else if under_file path w then
      (Err (NotADirectoryError (os_error "[Errno 20] Not a directory" path)), w)
    else (Ok tt, w).

(** [print(line)] *)
Definition print (line : string) : M unit :=
  fun w => (Ok tt, {| files := files w; stdout := (stdout w ++ [line])%list |}).

(** [a / b] on paths: an absolute [b] replaces [a].  The paths are
    written as [pathlib] prints them (no empty or [.] component, no
    doubled or trailing separator), so that joining is concatenation and
    a path is known by its string. *)
Definition joinpath (a b : string) : string :=
  if startswith b "/" then b else a ++ "/" ++ b.

(** [v[key]] *)
Definition getitem (v : json) (key : string) : result json :=
  match v with
  | JObject d =>
      match get key d with
      | Some x => Ok x
      | None => Err (KeyError key)
      end
  | _ => Err TypeError
  end.

(** [list(v.keys())] *)
Definition json_keys (v : json) : result (list string) :=
  match v with
  | JObject d => Ok (keys d)
  | _ => Err AttributeError
  end.

(** [json.loads(text)] as a step. *)
Definition json_loads (text : string) : result json :=
  match Json.loads text with
  | Some v => Ok v
  | None => Err JSONDecodeError
  end.

(** Settings Sanitizer (lines 82-85), on values: the copy is what decoding
    the encoded settings gives; [pop] with a default needs a dict. *)
Definition sanitize_settings (settings : json) : result json :=
  match json_loads (Json.dumps true None settings) with
  | Ok (JObject d) => Ok (JObject (pop "compilationTarget" d))
  | Ok (JList _) => Err TypeError
  | Ok _ => Err AttributeError
  | Err e => Err e
  end.

Section Script.

(** The project root, [Path(__file__).resolve().parents[1]]. *)
Variable ROOT : string.

Variable literal_eval : string -> result (list string).

Definition ARTIFACT : string :=
  joinpath (joinpath (joinpath ROOT "out") "BurnMintTokenPool.sol")
           "BurnMintTokenPool.json".

Definition FOUNDRY_TOML : string := joinpath ROOT "foundry.toml".

Definition OUTPUT_DIR : string := joinpath ROOT "tmp".

Definition OUTPUT : string :=
  joinpath OUTPUT_DIR "BurnMintTokenPool.standard.cleaned.json".

(** Artifact Loader (lines 23-28), on a parsed artifact. *)
Definition metadata_of (data : json) : result json :=
  match getitem data "metadata" with
  | Ok (JStr text) => json_loads text
  | Ok metadata => Ok metadata
  | Err e => Err e
  end.

(** Artifact Loader (lines 23-28). *)
Definition load_artifact : M json :=
  text <- read_text ARTIFACT ;;
  data <- lift (json_loads text) ;;
  lift (metadata_of data).

(** The loop of the Source Collector (lines 33-37). *)
Fixpoint read_sources_loop (paths : list string) (sources : dict string)
  : M (dict string) :=
  match paths with
  | [] => ret sources
  | path :: paths' =>
      let file_path := joinpath ROOT path in
      present <- path_exists file_path ;;
      if negb present then
        raise (FileNotFoundError ("Source file missing on disk: " ++ path))
      else
        content <- read_text file_path ;;
        read_sources_loop paths' (set path content sources)
  end.

(** Source Collector (lines 31-38). *)
Definition read_sources (metadata : json) : M (dict string) :=
  listed <- lift (getitem metadata "sources") ;;
  paths <- lift (json_keys listed) ;;
  read_sources_loop paths [].

(** Remapping Parser (lines 41-68). *)
Definition parse_remappings : M (list (string * string)) :=
  text <- read_text FOUNDRY_TOML ;;
  lift (parse_remappings_text literal_eval text).

(** The document of lines 95-99. *)
Definition standard_json (language : json) (all_sources : dict string)
    (settings : json) : json :=
  JObject
    [ ("language", language);
      ("sources",
       JObject (map (fun item => (fst item, JObject [("content", JStr (snd item))]))
                    all_sources));
      ("settings", settings) ].

(** [main] (lines 88-103). *)
Definition main : M unit :=
  metadata <- load_artifact ;;
  sources <- read_sources metadata ;;
  remaps <- parse_remappings ;;
  let all_sources := expand_alias_sources sources remaps in
  original <- lift (getitem metadata "settings") ;;
  settings <- lift (sanitize_settings original) ;;
  language <- lift (getitem metadata "language") ;;
  let standard := standard_json language all_sources settings in
  mkdir_parents OUTPUT_DIR ;;
  write_text OUTPUT (Json.dumps false (Some 2) standard) ;;
  print ("Standard JSON written to " ++ OUTPUT).

End Script.

(** A step that leaves the world as it found it. *)
Definition read_only {A} (m : M A) : Prop := forall w, snd (m w) = w.

(** ** Settings Sanitizer on the object store *)

(** Lists and dicts are objects of a store, held by reference, so that two
    values can share, and a mutation through one be seen through the
    other.  An address is an index of the store; allocation appends. *)
Module Heap.

Definition loc : Type := nat.

Inductive pyval : Type :=
| VNone
| VBool (b : bool)
| VInt (n : Z)
| VStr (s : string)
| VRef (l : loc).

Inductive pyobj : Type :=
| OList (items : list pyval)
| ODict (members : dict pyval).

Definition heap : Type := list pyobj.

(** All results, or none. *)
Fixpoint all_some {A B} (f : A -> option B) (xs : list A) : option (list B) :=
  match xs with
  | [] => Some []
  | x :: xs' =>
      match f x, all_some f xs' with
      | Some y, Some ys => Some (y :: ys)
      | _, _ => None
      end
  end.

(** The JSON value that [v] denotes in [h], read down to [fuel] levels of
    containers. *)
Fixpoint reify (fuel : nat) (h : heap) (v : pyval) : option json :=
  match v with
  | VNone => Some JNull
  | VBool b => Some (JBool b)
  | VInt n => Some (JInt n)
  | VStr s => Some (JStr s)
  | VRef l =>
      match fuel with
      | O => None
      | S fuel' =>
          match nth_error h l with
          | Some (OList items) =>
              option_map JList (all_some (reify fuel' h) items)
          | Some (ODict members) =>
              option_map JObject
                (all_some (fun kx => option_map (pair (fst kx))
                                                (reify fuel' h (snd kx)))
                          members)
          | None => None
          end
      end
  end.

(** What the encoder sees of [v]: it gives up on a container nested in
    itself, and a chain of more containers than the store has objects
    passes twice through one of them. *)
Definition value_of (h : heap) (v : pyval) : option json :=
  reify (S (List.length h)) h v.

(** [json.dumps(v)] *)
Definition py_dumps (ensure_ascii : bool) (indent : option nat)
    (h : heap) (v : pyval) : result string :=
  match value_of h v with
  | Some t => Ok (Json.dumps ensure_ascii indent t)
  | None => Err ValueError
  end.

(** The objects of a decoded value, allocated children first. *)
Fixpoint alloc (t : json) (h : heap) : heap * pyval :=
  match t with
  | JNull => (h, VNone)
  | JBool b => (h, VBool b)
  | JInt n => (h, VInt n)
  | JStr s => (h, VStr s)
  | JList xs =>
      let '(h', vs) :=
        fold_left (fun acc x =>
                     let '(h1, v) := alloc x (fst acc) in
                     (h1, (snd acc ++ [v])%list))
                  xs (h, []) in
      ((h' ++ [OList vs])%list, VRef (List.length h'))
  | JObject ms =>
      let '(h', vms) :=
        fold_left (fun acc kx =>
                     let '(h1, v) := alloc (snd kx) (fst acc) in
                     (h1, (snd acc ++ [(fst kx, v)])%list))
                  ms (h, []) in
      ((h' ++ [ODict vms])%list, VRef (List.length h'))
  end.

(** [json.loads(text)] *)
Definition py_loads (h : heap) (text : string) : result (heap * pyval) :=
  match Json.loads text with
  | Some t => Ok (alloc t h)
  | None => Err JSONDecodeError
  end.

(** [h[l] = o] *)
Fixpoint update (l : loc) (o : pyobj) (h : heap) : heap :=
  match h, l with
  | [], _ => []
  | _ :: h', O => o :: h'
  | o' :: h', S l' => o' :: update l' o h'
  end.

(** [v.pop(key, None)], the popped value dropped. *)
Definition py_pop (h : heap) (v : pyval) (key : string) : result heap :=
  match v with
  | VRef l =>
      match nth_error h l with
      | Some (ODict members) => Ok (update l (ODict (pop key members)) h)
      | Some (OList _) => Err TypeError
      | None => Err AttributeError
      end
  | _ => Err AttributeError
  end.

(** Settings Sanitizer (lines 82-85). *)
Definition sanitize_settings (h : heap) (settings : pyval)
  : result (heap * pyval) :=
  match py_dumps true None h settings with
  | Err e => Err e
  | Ok text =>
      match py_loads h text with
      | Err e => Err e
      | Ok (h1, copy) =>
          match py_pop h1 copy "compilationTarget" with
          | Err e => Err e
          | Ok h2 => Ok (h2, copy)
          end
      end
  end.

(** The objects that can be reached from a value. *)
Inductive reaches (h : heap) : pyval -> loc -> Prop :=
| reaches_here l : reaches h (VRef l) l
| reaches_item l items x l' :
    nth_error h l = Some (OList items) -> In x items ->
    reaches h x l' -> reaches h (VRef l) l'
| reaches_member l members k x l' :
    nth_error h l = Some (ODict members) -> In (k, x) members ->
    reaches h x l' -> reaches h (VRef l) l'.

(** Two stores that agree on the first [n] addresses. *)
Definition agree_below (n : nat) (h h' : heap) : Prop :=
  forall l, l < n -> nth_error h' l = nth_error h l.

(** The values an object holds. *)
Definition obj_vals (o : pyobj) : list pyval :=
  match o with
  | OList items => items
  | ODict members => map snd members
  end.

(** From address [n] on, an object refers only to objects between [n] and
    itself: the part of the store from [n] on holds trees, children before
    parents, that share nothing with the part below [n]. *)
Definition region_ok (n : nat) (h : heap) : Prop :=
  forall a o r,
    n <= a -> nth_error h a = Some o -> In (VRef r) (obj_vals o) ->
    n <= r < a.

(** The number of containers of a value. *)
Fixpoint containers (t : json) : nat :=
  match t with
  | JList xs => S (fold_right (fun x n => containers x + n) 0 xs)
  | JObject ms => S (fold_right (fun kx n => containers (snd kx) + n) 0 ms)
  | _ => 0
  end.

End Heap.

(** [key] is the alias of [path] under [rule]: [path = target + suffix] and
    [key = alias + suffix]. *)
Definition alias_of (rule : string * string) (path key : string) : Prop :=
  exists suffix, path = snd rule ++ suffix /\ key = fst rule ++ suffix.

(** Every key of the expanded map that is not an original path is the alias
    of exactly one (rule, original path) pair. *)
Definition unique_alias_origin (sources : dict string)
    (remaps : list (string * string)) : Prop :=
  forall key, In key (keys (expand_alias_sources sources remaps)) ->
    In key (keys sources) \/
    exists! rp : (string * string) * string,
      In (fst rp) remaps /\ In (snd rp) (keys sources) /\
      alias_of (fst rp) (snd rp) key.

(** ** tools/print_ctor.py *)

(** The script prints the constructor arguments of the pool deployed at
    [TARGET]: the last 896 characters of the creation input of the first
    transaction of the broadcast file whose contract address is [TARGET].
    The file is named relative to the working directory; the world holds
    it under this name. *)
Module PrintCtor.

(** [c.lower()] on a character of the model: the capital letters of ASCII
    and of Latin-1 (U+00C0 to U+00DE, without the multiplication sign
    U+00D7) are 32 below their small letters; nothing else changes. *)
Definition lower_char (c : ascii) : ascii :=
  let n := nat_of_ascii c in
  if ((65 <=? n)%nat && (n <=? 90)%nat) ||
     ((192 <=? n)%nat && (n <=? 222)%nat && negb (n =? 215)%nat)
  then ascii_of_nat (n + 32) else c.

(** [s.lower()] *)
Fixpoint lower (s : string) : string :=
  match s with
  | EmptyString => EmptyString
  | String c s' => String (lower_char c) (lower s')
  end.

(** [s[-n:]] for [n > 0]: the last [n] characters of [s], or all of it. *)
Definition last_chars (n : nat) (s : string) : string :=
  slice_from (String.length s - n) s.

Definition PATH : string :=
  "broadcast/DeployBurnMintPools.s.sol/11155111/run-latest.json".

Definition TARGET : string := "0xfe81dbc7ec3ae383a7535f5afae817621f2f0e34".

(** How a run ends: one line has been printed, nothing has been printed,
    or an exception has escaped (and nothing has been printed). *)
Inductive outcome : Type :=
| Printed (line : string)
| Silent
| Raised.

(** The values [for tx in v] goes through: the elements of a list, the
    keys of a dict, the characters of a string; [None] for a value that
    cannot be iterated. *)
Definition items (v : json) : option (list json) :=
  match v with
  | JList xs => Some xs
  | JObject d => Some (map JStr (keys d))
  | JStr s =>
      Some (map (fun c => JStr (String c EmptyString)) (list_ascii_of_string s))
  | _ => None
  end.

(** [tx.get("contractAddress", "").lower()] (line 7); [None] when it
    raises: [tx] is not a dict, or the address is there and is not a
    string. *)
Definition address (tx : json) : option string :=
  match tx with
  | JObject d =>
      match get "contractAddress" d with
      | None => Some (lower EmptyString)
      | Some (JStr a) => Some (lower a)
      | Some _ => None
      end
  | _ => None
  end.

(** Lines 8-10 up to the call of [print]: the line to print; [None] when
    they raise: a key is absent, [transaction] is not a dict, or [input]
    is not a string. *)
Definition ctor_line (tx : json) : option string :=
  match getitem tx "transaction" with
  | Ok transaction =>
      match getitem transaction "input" with
      | Ok (JStr input_data) =>
          Some ("0x" ++ lower (last_chars (2 * 448) input_data))
      | _ => None
      end
  | Err _ => None
  end.

(** The loop of lines 6-11. *)
Fixpoint scan (txs : list json) : outcome :=
  match txs with
  | [] => Silent
  | tx :: txs' =>
      match address tx with
      | None => Raised
      | Some a =>
          if String.eqb a TARGET then
            match ctor_line tx with
            | Some line => Printed line
            | None => Raised
            end
          else scan txs'
      end
  end.

(** The script on a world: the outcome, and the world it leaves.  The
    broadcast file is one that [Json.loads] reads: no number with a
    fraction or an exponent, no character above U+00FF; on other files
    the [Raised] of the second branch says nothing about Python. *)
Definition print_ctor (w : world) : outcome * world :=
  match get PATH (files w) with
  | None => (Raised, w)
  | Some text =>
      match Json.loads text with
      | None => (Raised, w)
      | Some data =>
          match getitem data "transactions" with
          | Ok transactions =>
              match items transactions with
              | Some txs =>
                  match scan txs with
                  | Printed line =>
                      (Printed line,
                       {| files := files w;
                          stdout := (stdout w ++ [line])%list |})
                  | other => (other, w)
                  end
              | None => (Raised, w)
              end
          | Err _ => (Raised, w)
          end
      end
  end.

(** A transaction the loop passes over: its address can be read and is
    not the target. *)
Definition passed (tx : json) : bool :=
  match address tx with
  | Some a => negb (String.eqb a TARGET)
  | None => false
  end.

End PrintCtor.

(** * Properties *)

(** ** Facts about strings and dictionaries *)

Module PyStrFacts.

Lemma startswith_split (s prefix : string) :
  startswith s prefix = true -> s = prefix ++ slice_from (String.length prefix) s.
Proof.
  revert s; induction prefix as [|a p IH]; intros s H; simpl in *.
  - reflexivity.
  - destruct s as [|b s']; [discriminate|].
    apply andb_prop in H as [Hab Hs].
    apply Ascii.eqb_eq in Hab; subst b.
    simpl. f_equal. now apply IH.
Qed.

Lemma startswith_append (prefix rest : string) :
  startswith (prefix ++ rest) prefix = true.
Proof.
  induction prefix as [|a p IH]; simpl; [reflexivity|].
  now rewrite Ascii.eqb_refl.
Qed.

Lemma slice_from_append (prefix rest : string) :
  slice_from (String.length prefix) (prefix ++ rest) = rest.
Proof. induction prefix as [|a p IH]; simpl; auto. Qed.

Lemma append_inj_l (a x y : string) : a ++ x = a ++ y -> x = y.
Proof.
  induction a as [|c a IH]; simpl; intros H; [exact H|].
  injection H as H. auto.
Qed.

End PyStrFacts.

Module PyDictFacts.
Section Dict.
Context {V : Type}.
Implicit Types (d : dict V) (k : string) (v : V).

Lemma get_set_same k v d : get k (set k v d) = Some v.
Proof.
  induction d as [|[k' v'] d IH]; simpl.
  - now rewrite String.eqb_refl.
  - destruct (String.eqb k k') eqn:E; simpl; rewrite E; auto.
Qed.

Lemma get_set_other k k' v d : k <> k' -> get k (set k' v d) = get k d.
Proof.
  intros Hne.
  induction d as [|[k0 v0] d IH]; simpl.
  - apply String.eqb_neq in Hne. now rewrite Hne.
  - destruct (String.eqb k' k0) eqn:E; simpl.
    + apply String.eqb_eq in E; subst k0.
      apply String.eqb_neq in Hne. now rewrite Hne.
    + now rewrite IH.
Qed.

Lemma get_In k v d : get k d = Some v -> In (k, v) d.
Proof.
  induction d as [|[k' v'] d IH]; simpl; [discriminate|].
  destruct (String.eqb k k') eqn:E.
  - apply String.eqb_eq in E; subst. intros [= ->]. now left.
  - intros H. right. auto.
Qed.

Lemma In_get k v d : wf d -> In (k, v) d -> get k d = Some v.
Proof.
  unfold wf, keys.
  induction d as [|[k' v'] d IH]; simpl; [tauto|].
  intros Hnd [Heq | Hin].
  - injection Heq as -> ->. now rewrite String.eqb_refl.
  - inversion Hnd as [|? ? Hnotin Hnd']; subst.
    destruct (String.eqb k k') eqn:E.
    + apply String.eqb_eq in E; subst k'.
      exfalso. apply Hnotin. change k with (fst (k, v)). now apply in_map.
    + auto.
Qed.

Lemma contains_keys k d : contains k d = true <-> In k (keys d).
Proof.
  unfold contains, keys.
  induction d as [|[k' v'] d IH]; simpl.
  - split; [discriminate | tauto].
  - destruct (String.eqb k k') eqn:E.
    + apply String.eqb_eq in E; subst. split; auto.
    + apply String.eqb_neq in E. rewrite IH. split; [auto|].
      intros [H | H]; [congruence | exact H].
Qed.

Lemma contains_false_keys k d : contains k d = false <-> ~ In k (keys d).
Proof.
  rewrite <- contains_keys. destruct (contains k d); split; congruence.
Qed.

Lemma keys_set_new k v d :
  contains k d = false -> set k v d = (d ++ [(k, v)])%list.
Proof.
  unfold contains.
  induction d as [|[k' v'] d IH]; simpl; [reflexivity|].
  destruct (String.eqb k k'); [discriminate|].
  intros H. now rewrite IH.
Qed.

Lemma pop_absent k d : get k d = None -> pop k d = d.
Proof.
  induction d as [|[k' v'] d IH]; simpl; [reflexivity|].
  destruct (String.eqb k k'); [discriminate|].
  intros H. now rewrite IH.
Qed.

Lemma get_pop_same k d : wf d -> get k (pop k d) = None.
Proof.
  unfold wf, keys.
  induction d as [|[k' v'] d IH]; simpl; [reflexivity|].
  intros Hnd. inversion Hnd as [|? ? Hnotin Hnd']; subst.
  destruct (String.eqb k k') eqn:E; simpl.
  - apply String.eqb_eq in E; subst k'.
    destruct (get k d) as [w|] eqn:G; [|reflexivity].
    exfalso. apply Hnotin. apply get_In in G.
    change k with (fst (k, w)). now apply in_map.
  - rewrite E. auto.
Qed.

Lemma get_pop_other k k' d : k <> k' -> get k (pop k' d) = get k d.
Proof.
  intros Hne.
  induction d as [|[k0 v0] d IH]; simpl; [reflexivity|].
  destruct (String.eqb k' k0) eqn:E; simpl.
  - apply String.eqb_eq in E; subst k0.
    apply String.eqb_neq in Hne. now rewrite Hne.
  - now rewrite IH.
Qed.

End Dict.
End PyDictFacts.

Import PyStrFacts.
Import PyDictFacts.

(** ** Alias Expander *)

Section ExpanderFacts.
Implicit Types (sources expanded : dict string) (item rule : string * string).
Implicit Types (remaps : list (string * string)).

(** A binding present before an iteration of the inner loop is still there,
    with the same value, after it. *)
Lemma expand_item_keeps alias target expanded item k v :
  get k expanded = Some v ->
  get k (expand_item alias target expanded item) = Some v.
Proof.
  intros Hget. destruct item as [path content]. unfold expand_item.
  destruct (startswith path target); [|exact Hget].
  destruct (contains _ expanded) eqn:Hc; simpl; [exact Hget|].
  rewrite get_set_other; [exact Hget|].
  intros ->. unfold contains in Hc. now rewrite Hget in Hc.
Qed.

Lemma expand_items_keep alias target items expanded k v :
  get k expanded = Some v ->
  get k (fold_left (expand_item alias target) items expanded) = Some v.
Proof.
  revert expanded; induction items as [|it items IH]; intros e H; simpl; auto.
  apply IH. now apply expand_item_keeps.
Qed.

Lemma expand_rule_keeps sources expanded rule k v :
  get k expanded = Some v ->
  get k (expand_rule sources expanded rule) = Some v.
Proof. destruct rule. apply expand_items_keep. Qed.

Lemma expand_rules_keep sources remaps expanded k v :
  get k expanded = Some v ->
  get k (fold_left (expand_rule sources) remaps expanded) = Some v.
Proof.
  revert expanded; induction remaps as [|r remaps IH]; intros e H; simpl; auto.
  apply IH. now apply expand_rule_keeps.
Qed.

(** A binding present after an iteration was there before, or is the
    candidate this iteration has just inserted. *)
Lemma expand_item_origin alias target expanded path content k v :
  get k (expand_item alias target expanded (path, content)) = Some v ->
  get k expanded = Some v \/
  (startswith path target = true /\
   k = alias ++ slice_from (String.length target) path /\
   v = content /\ contains k expanded = false).
Proof.
  unfold expand_item.
  destruct (startswith path target); [|now left].
  destruct (contains _ expanded) eqn:Hc; simpl; [now left|].
  destruct (String.eqb k (alias ++ slice_from (String.length target) path)) eqn:E.
  - apply String.eqb_eq in E; subst k. rewrite get_set_same.
    intros [= <-]. right. auto.
  - apply String.eqb_neq in E. rewrite get_set_other by exact E. now left.
Qed.

(** Two paths under the same target have the same candidate only when they
    are the same path. *)
Lemma candidate_inj alias target p q :
  startswith p target = true -> startswith q target = true ->
  alias ++ slice_from (String.length target) p =
  alias ++ slice_from (String.length target) q ->
  p = q.
Proof.
  intros Hp Hq Heq. apply append_inj_l in Heq.
  rewrite (startswith_split _ _ Hp), (startswith_split _ _ Hq).
  now rewrite Heq.
Qed.

(** Iterations for other paths leave the candidate of [path] absent. *)
Lemma expand_items_absent alias target path items expanded :
  startswith path target = true ->
  ~ In path (keys items) ->
  contains (alias ++ slice_from (String.length target) path) expanded = false ->
  contains (alias ++ slice_from (String.length target) path)
    (fold_left (expand_item alias target) items expanded) = false.
Proof.
  intros Hp. revert expanded.
  induction items as [|[q c] items IH]; intros e Hnot Habs;
    cbn [fold_left]; [exact Habs|].
  cbn [keys map fst In] in Hnot. apply IH; [tauto|].
  unfold contains in Habs |- *.
  destruct (get (alias ++ slice_from (String.length target) path)
              (expand_item alias target e (q, c))) as [v|] eqn:G;
    [|reflexivity].
  apply expand_item_origin in G as [G | (Hq & Heq & _ & _)].
  - now rewrite G in Habs.
  - exfalso. apply Hnot. left. symmetry. eapply candidate_inj; eauto.
Qed.

(** The inner loop of one rule binds the candidate of every matching path
    that was not a key when the rule started. *)
Lemma expand_rule_binds sources expanded alias target path content :
  wf sources ->
  In (path, content) sources ->
  startswith path target = true ->
  contains (alias ++ slice_from (String.length target) path) expanded = false ->
  get (alias ++ slice_from (String.length target) path)
    (expand_rule sources expanded (alias, target)) = Some content.
Proof.
  intros Hwf Hin Hp Habs. simpl.
  apply in_split in Hin as (l1 & l2 & ->).
  unfold wf, keys in Hwf. rewrite map_app in Hwf. simpl in Hwf.
  apply NoDup_remove_2 in Hwf.
  rewrite fold_left_app. simpl.
  apply expand_items_keep.
  assert (Hl1 : contains (alias ++ slice_from (String.length target) path)
            (fold_left (expand_item alias target) l1 expanded) = false).
  { apply expand_items_absent; auto.
    intros H. apply Hwf. apply in_or_app. now left. }
  rewrite Hp, Hl1. simpl. apply get_set_same.
Qed.

Lemma contains_get_some {V} k (d : dict V) :
  contains k d = true -> exists v, get k d = Some v.
Proof. unfold contains. destruct (get k d); [eauto | discriminate]. Qed.

(** The run over [before ++ rule :: after] is the run over [before], then
    [rule], then [after]. *)
Lemma expand_alias_sources_at sources before rule after :
  expand_alias_sources sources (before ++ rule :: after) =
  fold_left (expand_rule sources) after
    (expand_rule sources (expand_alias_sources sources before) rule).
Proof. unfold expand_alias_sources. now rewrite fold_left_app. Qed.

Lemma expand_alias_sources_binds sources before after alias target path content :
  wf sources ->
  In (path, content) sources ->
  startswith path target = true ->
  contains (alias ++ slice_from (String.length target) path)
    (expand_alias_sources sources before) = false ->
  get (alias ++ slice_from (String.length target) path)
    (expand_alias_sources sources (before ++ (alias, target) :: after))
  = Some content.
Proof.
  intros Hwf Hin Hp Habs. rewrite expand_alias_sources_at.
  apply expand_rules_keep. now apply expand_rule_binds.
Qed.

End ExpanderFacts.

(** C1: for a rule [(alias, target)] at any position of the rule list and an
    entry [(path, content)] of the source map whose path starts with
    [target], the key [candidate = alias + path[len(target):]] is in the
    expanded map; it maps to [content] when it was not a key at the moment
    the rule was applied, and keeps its earlier value otherwise; and every
    original entry is still present. *)
Theorem expand_alias_sources_adds_aliases
    (sources : dict string) (before after : list (string * string))
    (alias target path content : string) :
  wf sources ->
  In (path, content) sources ->
  startswith path target = true ->
  let candidate := alias ++ slice_from (String.length target) path in
  let at_rule := expand_alias_sources sources before in
  let result :=
    expand_alias_sources sources (before ++ (alias, target) :: after) in
  contains candidate result = true /\
  (contains candidate at_rule = false -> get candidate result = Some content) /\
  (forall old, get candidate at_rule = Some old ->
               get candidate result = Some old) /\
  (forall p c, In (p, c) sources -> get p result = Some c).
Proof.
  intros Hwf Hin Hp candidate at_rule result.
  assert (Hres : result =
    fold_left (expand_rule sources) after
      (expand_rule sources at_rule (alias, target)))
    by apply expand_alias_sources_at.
  assert (Hfresh : contains candidate at_rule = false ->
                   get candidate result = Some content)
    by (intros Habs; now apply expand_alias_sources_binds).
  assert (Hold : forall old, get candidate at_rule = Some old ->
                             get candidate result = Some old).
  { intros old Hget. rewrite Hres.
    apply expand_rules_keep, expand_rule_keeps, Hget. }
  repeat split; auto.
  - destruct (contains candidate at_rule) eqn:Hc.
    + apply contains_get_some in Hc as [old Hget].
      unfold contains. now rewrite (Hold _ Hget).
    + unfold contains. now rewrite Hfresh.
  - intros p c Hpc. unfold result, expand_alias_sources.
    apply expand_rules_keep. now apply In_get.
Qed.

(** Scenario B of the specification, through the theorem. *)
Lemma expand_alias_sources_adds_aliases_witness :
  let sources := [("lib/chainlink/contracts/Token.sol", "CONTENT")] in
  let result := expand_alias_sources sources [("@chainlink/", "lib/chainlink/")] in
  get "@chainlink/contracts/Token.sol" result = Some "CONTENT" /\
  get "lib/chainlink/contracts/Token.sol" result = Some "CONTENT".
Proof.
  destruct (expand_alias_sources_adds_aliases
    [("lib/chainlink/contracts/Token.sol", "CONTENT")] [] []
    "@chainlink/" "lib/chainlink/"
    "lib/chainlink/contracts/Token.sol" "CONTENT")
    as (_ & Hfresh & _ & Horig).
  - repeat constructor. simpl. tauto.
  - now left.
  - reflexivity.
  - split.
    + apply Hfresh. reflexivity.
    + apply Horig. now left.
Defined.

(** C2: first writer wins.  A key bound after any prefix of the rule list
    keeps its value under every continuation of the list; in particular the
    original entries are never overwritten, and when two rules produce the
    same candidate the content written by the earlier one is the final
    one. *)
Theorem expand_alias_sources_first_writer_wins (sources : dict string) :
  (forall before after k v,
     get k (expand_alias_sources sources before) = Some v ->
     get k (expand_alias_sources sources (before ++ after)) = Some v) /\
  (forall remaps k v,
     get k sources = Some v ->
     get k (expand_alias_sources sources remaps) = Some v) /\
  (wf sources ->
   forall r0 r1 r2 a1 t1 a2 t2 p1 c1 p2 c2,
     In (p1, c1) sources -> In (p2, c2) sources ->
     startswith p1 t1 = true -> startswith p2 t2 = true ->
     a1 ++ slice_from (String.length t1) p1 =
     a2 ++ slice_from (String.length t2) p2 ->
     contains (a1 ++ slice_from (String.length t1) p1)
       (expand_alias_sources sources r0) = false ->
     get (a2 ++ slice_from (String.length t2) p2)
       (expand_alias_sources sources
          (r0 ++ (a1, t1) :: r1 ++ (a2, t2) :: r2)) = Some c1).
Proof.
  split; [|split].
  - intros before after k v H. unfold expand_alias_sources in *.
    rewrite fold_left_app. now apply expand_rules_keep.
  - intros remaps k v H. now apply expand_rules_keep.
  - intros Hwf r0 r1 r2 a1 t1 a2 t2 p1 c1 p2 c2 Hin1 _ Hp1 _ Heq Habs.
    rewrite <- Heq.
    now apply expand_alias_sources_binds.
Qed.

(** Two rules collide on ["a/f"]; the content of the first one stays. *)
Lemma expand_alias_sources_first_writer_wins_witness :
  let sources := [("x/f", "X"); ("y/f", "Y")] in
  get "a/f" (expand_alias_sources sources [("a/", "x/"); ("a/", "y/")])
  = Some "X" /\
  get "y/f" (expand_alias_sources sources [("a/", "x/"); ("a/", "y/")])
  = Some "Y".
Proof.
  destruct (expand_alias_sources_first_writer_wins
              [("x/f", "X"); ("y/f", "Y")]) as (_ & Hkeep & Hfirst).
  split.
  - apply (Hfirst ltac:(repeat constructor; simpl; intuition discriminate)
             [] [] [] "a/" "x/" "a/" "y/" "x/f" "X" "y/f" "Y");
      simpl; auto; reflexivity.
  - apply Hkeep. reflexivity.
Defined.

(** An inner loop none of whose paths starts with the target is the
    identity. *)
Lemma expand_items_no_match alias target items (expanded : dict string) :
  (forall path, In path (keys items) -> startswith path target = false) ->
  fold_left (expand_item alias target) items expanded = expanded.
Proof.
  revert expanded.
  induction items as [|[q c] items IH]; intros e H; cbn [fold_left]; auto.
  unfold expand_item at 2. rewrite (H q) by now left.
  apply IH. intros path Hin. apply H. now right.
Qed.

(** C5: when no rule's target is a prefix of any path of the source map,
    the expanded map is the source map itself: same keys, same values, same
    order. *)
Theorem expand_alias_sources_no_match
    (sources : dict string) (remaps : list (string * string)) :
  (forall alias target path,
     In (alias, target) remaps -> In path (keys sources) ->
     startswith path target = false) ->
  expand_alias_sources sources remaps = sources.
Proof.
  intros H. unfold expand_alias_sources.
  enough (Hgen : forall expanded,
            fold_left (expand_rule sources) remaps expanded = expanded)
    by apply Hgen.
  induction remaps as [|[alias target] remaps IH]; intros e;
    cbn [fold_left]; [reflexivity|].
  unfold expand_rule at 2.
  rewrite expand_items_no_match.
  - apply IH. intros a t p Hin. apply (H a t). now right.
  - intros path Hin. apply (H alias target); [now left | exact Hin].
Qed.

(** Scenario A of the specification, through the theorem. *)
Lemma expand_alias_sources_no_match_witness :
  expand_alias_sources [("src/Pool.sol", "POOL")]
    [("@chainlink/", "lib/chainlink/")]
  = [("src/Pool.sol", "POOL")].
Proof.
  apply expand_alias_sources_no_match.
  intros alias target path [[= <- <-] | []] [<- | []]. reflexivity.
Defined.

(** Provenance of a binding after the inner loop of one rule. *)
Lemma expand_items_origin alias target items (expanded : dict string) k v :
  get k (fold_left (expand_item alias target) items expanded) = Some v ->
  get k expanded = Some v \/
  exists path, In (path, v) items /\ startswith path target = true /\
               k = alias ++ slice_from (String.length target) path.
Proof.
  revert expanded.
  induction items as [|[q c] items IH]; intros e H; cbn [fold_left] in H.
  - now left.
  - apply IH in H as [H | (path & Hin & Hp & Hk)].
    + apply expand_item_origin in H as [H | (Hq & Hk & -> & _)].
      * now left.
      * right. exists q. repeat split; auto. now left.
    + right. exists path. repeat split; auto. now right.
Qed.

Lemma expand_rules_origin sources remaps (expanded : dict string) k v :
  get k (fold_left (expand_rule sources) remaps expanded) = Some v ->
  get k expanded = Some v \/
  exists alias target path,
    In (alias, target) remaps /\ In (path, v) sources /\
    startswith path target = true /\
    k = alias ++ slice_from (String.length target) path.
Proof.
  revert expanded.
  induction remaps as [|[a t] remaps IH]; intros e H; cbn [fold_left] in H.
  - now left.
  - apply IH in H as [H | (alias & target & path & Hin & Hrest)].
    + apply expand_items_origin in H as [H | (path & Hin & Hp & Hk)].
      * now left.
      * right. exists a, t, path. repeat split; auto. now left.
    + right. exists alias, target, path. split; [now right | exact Hrest].
Qed.

(** C9, as stated, fails: with two rules sharing the alias ["a/"], the
    synthesized key ["a/f"] is the alias of ["x/f"] under the first rule and
    of ["y/f"] under the second. *)
Lemma unique_alias_origin_counterexample :
  ~ unique_alias_origin [("x/f", "X"); ("y/f", "Y")]
                        [("a/", "x/"); ("a/", "y/")].
Proof.
  intros H. destruct (H "a/f") as [Hin | (rp & _ & Huniq)].
  - vm_compute. tauto.
  - vm_compute in Hin. intuition discriminate.
  - assert (H1 : rp = (("a/", "x/"), "x/f")).
    { apply Huniq. cbn. repeat split; auto. now exists "f". }
    assert (H2 : rp = (("a/", "y/"), "y/f")).
    { apply Huniq. cbn. repeat split; auto. now exists "f". }
    rewrite H2 in H1. discriminate.
Qed.

(** C9, amended: aliases are never chained.  Every binding of the expanded
    map is an original entry, or binds [alias + suffix] to the content of an
    original path [target + suffix] for some rule [(alias, target)] of the
    list; the rule and the path need not be unique. *)
Theorem expand_alias_sources_not_chained
    (sources : dict string) (remaps : list (string * string)) (key v : string) :
  get key (expand_alias_sources sources remaps) = Some v ->
  get key sources = Some v \/
  exists rule path,
    In rule remaps /\ In (path, v) sources /\ alias_of rule path key.
Proof.
  intros H. apply expand_rules_origin in H
    as [H | (alias & target & path & Hin & Hsrc & Hp & Hk)].
  - now left.
  - right. exists (alias, target), path. repeat split; auto.
    exists (slice_from (String.length target) path). split; [|exact Hk].
    now apply startswith_split.
Qed.

(** The second rule would rename the alias made by the first one; its input
    is the original map, so no ["c/x"] appears. *)
Lemma expand_alias_sources_not_chained_witness :
  let result := expand_alias_sources [("a/x", "A")] [("b/", "a/"); ("c/", "b/")] in
  result = [("a/x", "A"); ("b/x", "A")] /\
  (get "a/x" [("a/x", "A")] = Some "A" \/
   exists rule path, In rule [("b/", "a/"); ("c/", "b/")] /\
     In (path, "A") [("a/x", "A")] /\ alias_of rule path "b/x").
Proof.
  split; [reflexivity|].
  right.
  destruct (expand_alias_sources_not_chained
              [("a/x", "A")] [("b/", "a/"); ("c/", "b/")] "b/x" "A")
    as [H | H]; [reflexivity | discriminate | exact H].
Defined.

(** ** Remapping Parser *)

(** The string functions on inputs whose Python values are known. *)
Example splitlines_examples :
  splitlines ("a" ++ newline ++ newline ++ "b" ++ newline) = ["a"; EmptyString; "b"] /\
  splitlines newline = [EmptyString] /\
  splitlines ("a" ++ String "013" newline ++ "b") = ["a"; "b"] /\
  splitlines ("a" ++ newline ++ String "013" EmptyString) = ["a"; EmptyString] /\
  splitlines EmptyString = [].
Proof. repeat split. Qed.

Example strip_examples :
  strip ("  a b" ++ String "009" newline) = "a b" /\
  strip (String "160" "x") = "x" /\
  before_first "#" "x#y#z" = "x" /\
  split_once "=" "a=b=c" = Some ("a", "b=c") /\
  split_once "=" "ab" = None /\
  endswith "ab," "," = true /\
  endswith EmptyString "," = false /\
  drop_last "ab," = "ab".
Proof. repeat split. Qed.

(** The scan for the block stops at the first closing bracket, also when
    that bracket is inside a comment: the entries after it are lost. *)
Example re_search_stops_at_first_bracket :
  let text :=
    "remappings = [" ++ newline ++
    "  " ++ quoted "a/=lib/a/" ++ ", # see [1]" ++ newline ++
    "  " ++ quoted "b/=lib/b/" ++ "," ++ newline ++
    "]" in
  re_search text =
  Some (newline ++ "  " ++ quoted "a/=lib/a/" ++ ", # see [1") /\
  parse_remappings_text py_literal_eval text = Ok [("a/", "lib/a/")].
Proof. split; reflexivity. Qed.

Example py_literal_eval_examples :
  py_literal_eval ("[" ++ quoted "a=b" ++ ",'c=d'  ]") = Ok ["a=b"; "c=d"] /\
  py_literal_eval ("[" ++ quoted "a=b" ++ ",]") = Ok ["a=b"] /\
  py_literal_eval "[ ]" = Ok [] /\
  py_literal_eval "[,]" = Err SyntaxError /\
  py_literal_eval ("[" ++ String dquote "a]") = Err SyntaxError.
Proof. repeat split. Qed.

Module ParserFacts.

Lemma all_chars_app p a b :
  all_chars p (a ++ b) = all_chars p a && all_chars p b.
Proof.
  induction a as [|c a IH]; simpl; [reflexivity|].
  now rewrite IH, andb_assoc.
Qed.

Lemma all_chars_weaken (p q : ascii -> bool) s :
  (forall c, p c = true -> q c = true) ->
  all_chars p s = true -> all_chars q s = true.
Proof.
  intros Hpq. induction s as [|c s IH]; simpl; [reflexivity|].
  intros H. apply andb_prop in H as [Hc Hs].
  now rewrite (Hpq _ Hc), IH.
Qed.

Lemma append_empty_r s : s ++ EmptyString = s.
Proof. induction s as [|c s IH]; simpl; congruence. Qed.

Lemma append_assoc a b c : (a ++ b) ++ c = a ++ b ++ c.
Proof. induction a as [|x a IH]; simpl; congruence. Qed.

Lemma length_append a b :
  String.length (a ++ b) = String.length a + String.length b.
Proof. induction a as [|x a IH]; simpl; congruence. Qed.

(** *** [splitlines] *)

Lemma splitlines_line_break line rest :
  all_chars (fun c => negb (is_linebreak c)) line = true ->
  splitlines (line ++ newline ++ rest) = line :: splitlines rest.
Proof.
  induction line as [|c line IH]; intros H.
  - destruct rest; reflexivity.
  - simpl in H. apply andb_prop in H as [Hc Hline].
    apply negb_true_iff in Hc.
    cbn [append splitlines]. rewrite Hc.
    change (line ++ String "010" (EmptyString ++ rest))
      with (line ++ newline ++ rest).
    now rewrite IH.
Qed.

Lemma splitlines_single line :
  all_chars (fun c => negb (is_linebreak c)) line = true ->
  splitlines line = match line with EmptyString => [] | _ => [line] end.
Proof.
  induction line as [|c line IH]; intros H; [reflexivity|].
  simpl in H. apply andb_prop in H as [Hc Hline].
  apply negb_true_iff in Hc.
  cbn [splitlines]. rewrite Hc, (IH Hline).
  now destruct line.
Qed.

Lemma clean_line_empty : clean_line EmptyString = None.
Proof. reflexivity. Qed.

(** Joining lines with LF and splitting them again loses at most a last
    empty line, which the cleaning loop skips anyway. *)
Lemma clean_lines_join lines :
  Forall (fun line => all_chars (fun c => negb (is_linebreak c)) line = true)
         lines ->
  clean_lines (splitlines (String.concat newline lines)) = clean_lines lines.
Proof.
  induction 1 as [|line lines Hline Hlines IH]; [reflexivity|].
  destruct lines as [|line' lines].
  - cbn [String.concat]. rewrite (splitlines_single _ Hline).
    now destruct line.
  - cbn [String.concat]. rewrite (splitlines_line_break _ _ Hline).
    cbn [clean_lines]. cbn [String.concat] in IH. now rewrite IH.
Qed.

(** *** [split], [strip], [endswith] *)

Lemma before_first_absent sep s :
  all_chars (fun c => negb (Ascii.eqb c sep)) s = true ->
  split_once sep s = None.
Proof.
  induction s as [|c s IH]; simpl; [reflexivity|].
  intros H. apply andb_prop in H as [Hc Hs].
  apply negb_true_iff in Hc. now rewrite Hc, IH.
Qed.

Lemma before_first_cut sep a b :
  all_chars (fun c => negb (Ascii.eqb c sep)) a = true ->
  before_first sep (a ++ String sep b) = a.
Proof.
  unfold before_first.
  induction a as [|c a IH]; simpl.
  - now rewrite Ascii.eqb_refl.
  - intros H. apply andb_prop in H as [Hc Ha].
    apply negb_true_iff in Hc. rewrite Hc.
    specialize (IH Ha).
    destruct (split_once sep (a ++ String sep b)) as [[x y]|]; congruence.
Qed.

Lemma before_first_whole sep a :
  all_chars (fun c => negb (Ascii.eqb c sep)) a = true ->
  before_first sep a = a.
Proof.
  intros H. unfold before_first. now rewrite before_first_absent.
Qed.

Lemma lstrip_blanks lead s :
  all_chars isspace lead = true -> lstrip (lead ++ s) = lstrip s.
Proof.
  induction lead as [|c lead IH]; simpl; [reflexivity|].
  intros H. apply andb_prop in H as [Hc Hl]. now rewrite Hc, IH.
Qed.

Lemma lstrip_solid s :
  match first_char s with Some c => isspace c = false | None => True end ->
  lstrip s = s.
Proof. destruct s as [|c s]; simpl; [reflexivity|]. now intros ->. Qed.

Lemma rstrip_all_blanks gap : all_chars isspace gap = true -> rstrip gap = EmptyString.
Proof.
  induction gap as [|c gap IH]; simpl; [reflexivity|].
  intros H. apply andb_prop in H as [Hc Hg]. now rewrite IH, Hc.
Qed.

Lemma rstrip_blanks s gap :
  all_chars isspace gap = true -> rstrip (s ++ gap) = rstrip s.
Proof.
  intros H. induction s as [|c s IH]; simpl.
  - now apply rstrip_all_blanks.
  - now rewrite IH.
Qed.

Lemma rstrip_solid s :
  match last_char s with Some c => isspace c = false | None => True end ->
  rstrip s = s.
Proof.
  induction s as [|c s IH]; [reflexivity|].
  destruct s as [|c' s].
  - simpl. now intros ->.
  - intros H. change (last_char (String c (String c' s)))
      with (last_char (String c' s)) in H.
    specialize (IH H). cbn [rstrip] in IH |- *. now rewrite IH.
Qed.

Lemma last_char_cons c s : last_char (String c s) <> None.
Proof.
  revert c. induction s as [|x s IH]; intros c; [discriminate|].
  change (last_char (String x s) <> None). apply IH.
Qed.

Lemma last_char_snoc s c : last_char (s ++ String c EmptyString) = Some c.
Proof.
  induction s as [|x s IH]; [reflexivity|].
  cbn [append last_char]. rewrite IH.
  now destruct (s ++ String c EmptyString) eqn:E;
    [destruct s; discriminate|].
Qed.

Lemma last_char_split s c :
  last_char s = Some c -> s = drop_last s ++ String c EmptyString.
Proof.
  induction s as [|x s IH]; [discriminate|].
  destruct s as [|y s].
  - simpl. now intros [= ->].
  - intros H. change (last_char (String y s) = Some c) in H.
    cbn [drop_last append]. f_equal. now apply IH.
Qed.

Lemma drop_last_snoc s c : drop_last (s ++ String c EmptyString) = s.
Proof.
  induction s as [|x s IH]; [reflexivity|].
  cbn [append drop_last]. rewrite IH.
  now destruct (s ++ String c EmptyString) eqn:E;
    [destruct s; discriminate|].
Qed.

Lemma endswith_snoc s c d :
  endswith (s ++ String c EmptyString) (String d EmptyString) = Ascii.eqb c d.
Proof.
  unfold endswith. rewrite length_append. cbn [String.length].
  replace (String.length s + 1 - 1) with (String.length s) by lia.
  rewrite slice_from_append.
  replace (1 <=? String.length s + 1)%nat with true
    by (symmetry; apply Nat.leb_le; lia).
  cbn. now destruct (Ascii.eqb c d).
Qed.

End ParserFacts.

Import ParserFacts.

Section BlockFacts.
Implicit Types (l : block_line) (ls : list block_line).

Lemma isspace_not_hash c : isspace c = true -> Ascii.eqb c "#" = false.
Proof.
  intros H. destruct (Ascii.eqb c "#") eqn:E; [|reflexivity].
  apply Ascii.eqb_eq in E; subst c. discriminate.
Qed.

Lemma isspace_not_comma : isspace "," = false.
Proof. reflexivity. Qed.

(** The parts of a well-formed line, one by one. *)
Lemma line_ok_parts l :
  line_ok l = true ->
  all_chars is_inline_blank (lead l) = true /\
  all_chars is_inline_blank (gap l) = true /\
  all_chars (fun c => negb (is_linebreak c) && negb (Ascii.eqb c "#")) (item l) = true /\
  match first_char (item l), last_char (item l) with
  | Some a, Some b => negb (isspace a) && negb (isspace b) && negb (Ascii.eqb b ",")
  | _, _ => true
  end = true /\
  (has_item l || negb (comma l)) = true /\
  match comment l with
  | Some text => all_chars (fun c => negb (is_linebreak c)) text
  | None => true
  end = true.
Proof.
  unfold line_ok. intros H.
  repeat (apply andb_prop in H as [H ?]). auto 10.
Qed.

Lemma render_line_no_break l :
  line_ok l = true ->
  all_chars (fun c => negb (is_linebreak c)) (render_line l) = true.
Proof.
  intros H. apply line_ok_parts in H as (Hlead & Hgap & Hitem & _ & _ & Hcmt).
  unfold render_line. rewrite !all_chars_app.
  repeat (apply andb_true_intro; split).
  - revert Hlead. apply all_chars_weaken. unfold is_inline_blank.
    intros c Hc. now apply andb_prop in Hc.
  - revert Hitem. apply all_chars_weaken.
    intros c Hc. now apply andb_prop in Hc.
  - unfold comma_text. now destruct (comma l).
  - revert Hgap. apply all_chars_weaken. unfold is_inline_blank.
    intros c Hc. now apply andb_prop in Hc.
  - destruct (comment l); [|reflexivity]. exact Hcmt.
Qed.

Lemma inline_blank_space s :
  all_chars is_inline_blank s = true -> all_chars isspace s = true.
Proof.
  apply all_chars_weaken. unfold is_inline_blank.
  intros c Hc. now apply andb_prop in Hc.
Qed.

Lemma inline_blank_no_hash s :
  all_chars is_inline_blank s = true ->
  all_chars (fun c => negb (Ascii.eqb c "#")) s = true.
Proof.
  apply all_chars_weaken. unfold is_inline_blank.
  intros c Hc. apply andb_prop in Hc as [Hc _].
  now rewrite isspace_not_hash.
Qed.

(** What the cleaning loop keeps of a well-formed line is its entry. *)
Lemma clean_line_render l :
  line_ok l = true ->
  clean_line (render_line l) =
  if has_item l then Some (item l) else None.
Proof.
  intros H.
  apply line_ok_parts in H as (Hlead & Hgap & Hitem & Hedge & Hcomma & _).
  set (body := lead l ++ (item l ++ comma_text l) ++ gap l).
  assert (Hbody : before_first "#" (render_line l) = body).
  { assert (Hno : all_chars (fun c => negb (Ascii.eqb c "#")) body = true).
    { unfold body. rewrite !all_chars_app.
      repeat (apply andb_true_intro; split).
      - now apply inline_blank_no_hash.
      - revert Hitem. apply all_chars_weaken.
        intros c Hc. now apply andb_prop in Hc.
      - unfold comma_text. now destruct (comma l).
      - now apply inline_blank_no_hash. }
    unfold render_line.
    destruct (comment l) as [text|].
    - replace (lead l ++ item l ++ comma_text l ++ gap l ++ String "#" text)
        with (body ++ String "#" text)
        by (unfold body; now rewrite !append_assoc).
      now apply before_first_cut.
    - replace (lead l ++ item l ++ comma_text l ++ gap l ++ EmptyString)
        with body
        by (unfold body; now rewrite !append_assoc, append_empty_r).
      now apply before_first_whole. }
  unfold clean_line. rewrite Hbody. unfold body, strip.
  rewrite lstrip_blanks by now apply inline_blank_space.
  unfold has_item in *. unfold comma_text.
  destruct (item l) as [|a rest] eqn:Hi.
  - cbn [String.eqb negb orb] in Hcomma. apply negb_true_iff in Hcomma.
    rewrite Hcomma. cbn [append].
    rewrite <- (append_empty_r (gap l)).
    rewrite lstrip_blanks by now apply inline_blank_space.
    reflexivity.
  - cbn [first_char] in Hedge.
    destruct (last_char (String a rest)) as [b|] eqn:Hlast;
      [|now apply last_char_cons in Hlast].
    apply andb_prop in Hedge as [Hedge Hb3].
    apply andb_prop in Hedge as [Ha Hb].
    apply negb_true_iff in Ha, Hb, Hb3.
    rewrite lstrip_solid by (cbn; exact Ha).
    rewrite rstrip_blanks by now apply inline_blank_space.
    apply last_char_split in Hlast.
    destruct (comma l).
    + rewrite rstrip_solid by (now rewrite last_char_snoc).
      rewrite endswith_snoc, drop_last_snoc. reflexivity.
    + rewrite append_empty_r.
      rewrite rstrip_solid
        by (rewrite Hlast, last_char_snoc; exact Hb).
      rewrite Hlast at 2. rewrite endswith_snoc, Hb3. reflexivity.
Qed.

(** The entries the cleaning loop collects from a rendered block are the
    entries of its lines, in order. *)
Lemma clean_lines_render ls :
  Forall (fun l => line_ok l = true) ls ->
  clean_lines (splitlines (render_block ls)) =
  filter (fun i => negb (String.eqb i EmptyString)) (map item ls).
Proof.
  intros H. unfold render_block. rewrite clean_lines_join.
  - induction H as [|l ls Hl Hls IH]; [reflexivity|].
    cbn [map clean_lines filter]. rewrite (clean_line_render _ Hl).
    unfold has_item. destruct (String.eqb (item l) EmptyString);
      cbn [negb]; now rewrite IH.
  - induction H as [|l ls Hl Hls IH]; constructor; auto.
    now apply render_line_no_break.
Qed.

Lemma line_ok_without_comment l :
  line_ok l = true -> line_ok (without_comment l) = true.
Proof.
  intros H. apply line_ok_parts in H as (H1 & H2 & H3 & H4 & H5 & _).
  unfold line_ok, has_item in *. cbn.
  now rewrite H1, H2, H3, H4, H5.
Qed.

Lemma line_ok_without_comma l :
  line_ok l = true -> line_ok (without_comma l) = true.
Proof.
  intros H. apply line_ok_parts in H as (H1 & H2 & H3 & H4 & _ & H6).
  unfold line_ok, has_item in *. cbn.
  rewrite H1, H2, H3, H4, H6, orb_true_r. reflexivity.
Qed.

Lemma line_ok_plain_block ls :
  Forall (fun l => line_ok l = true) ls ->
  Forall (fun l => line_ok l = true) (plain_block ls).
Proof.
  intros H. unfold plain_block.
  assert (H' : Forall (fun l => line_ok l = true) (map without_comment ls)).
  { induction H; constructor; auto using line_ok_without_comment. }
  clear H. induction H' as [|l ls' Hl Hls IH]; [constructor|].
  cbn [without_trailing_comma].
  destruct (existsb has_item ls'); constructor;
    auto using line_ok_without_comma.
Qed.

Lemma items_plain_block ls : map item (plain_block ls) = map item ls.
Proof.
  unfold plain_block.
  transitivity (map item (map without_comment ls)).
  - induction (map without_comment ls) as [|l ls' IH]; [reflexivity|].
    cbn [without_trailing_comma].
    destruct (existsb has_item ls'); cbn [map]; [now rewrite IH | reflexivity].
  - rewrite map_map. reflexivity.
Qed.

(** *** Blocks as plain text *)

Lemma before_first_clean sep s :
  all_chars (fun c => negb (Ascii.eqb c sep)) (before_first sep s) = true.
Proof.
  unfold before_first. induction s as [|c s IH]; cbn; [reflexivity|].
  destruct (Ascii.eqb c sep) eqn:E; [reflexivity|].
  destruct (split_once sep s) as [[a b]|]; cbn; now rewrite E.
Qed.

Lemma before_first_idem sep s :
  before_first sep (before_first sep s) = before_first sep s.
Proof. apply before_first_whole, before_first_clean. Qed.

Lemma before_first_keeps (p : ascii -> bool) sep s :
  all_chars p s = true -> all_chars p (before_first sep s) = true.
Proof.
  unfold before_first. induction s as [|c s IH]; cbn; [reflexivity|].
  intros H. apply andb_prop in H as [Hc Hs].
  destruct (Ascii.eqb c sep); [reflexivity|].
  specialize (IH Hs).
  destruct (split_once sep s) as [[a b]|]; cbn; now rewrite Hc, ?IH, ?Hs.
Qed.

Lemma splitlines_no_break s :
  Forall (fun line => all_chars (fun c => negb (is_linebreak c)) line = true)
         (splitlines s).
Proof.
  enough (Hgen : forall n s, String.length s <= n ->
            Forall (fun line =>
                      all_chars (fun c => negb (is_linebreak c)) line = true)
                   (splitlines s))
    by (apply (Hgen (String.length s)); lia).
  clear s. induction n as [|n IH]; intros [|c s] Hlen; cbn in Hlen;
    try lia; cbn [splitlines]; try constructor.
  destruct (is_linebreak c) eqn:Ec.
  - destruct s as [|c' s']; [repeat constructor|].
    cbn in Hlen.
    destruct (Ascii.eqb c "013" && Ascii.eqb c' "010"); constructor;
      try reflexivity; apply IH; cbn; lia.
  - assert (Hs : String.length s <= n) by lia.
    specialize (IH s Hs).
    destruct (splitlines s) as [|line lines]; constructor.
    + cbn. now rewrite Ec.
    + constructor.
    + cbn. rewrite Ec. cbn. now inversion IH.
    + now inversion IH.
Qed.

Lemma clean_line_before_first line :
  clean_line (before_first "#" line) = clean_line line.
Proof. unfold clean_line. now rewrite before_first_idem. Qed.

(** Cutting every line at its first [#] changes nothing of what the
    cleaning loop collects. *)
Lemma clean_lines_without_comments raw_block :
  clean_lines (splitlines (without_comments raw_block)) =
  clean_lines (splitlines raw_block).
Proof.
  unfold without_comments. rewrite clean_lines_join.
  - induction (splitlines raw_block) as [|line lines IH]; [reflexivity|].
    cbn [map clean_lines]. now rewrite clean_line_before_first, IH.
  - pose proof (splitlines_no_break raw_block) as H.
    induction H as [|line lines Hline Hlines IH]; constructor; auto.
    now apply before_first_keeps.
Qed.

End BlockFacts.

(** C10: a [#] inside a quoted entry is taken for the start of a comment.
    The array [["a#b=lib/"]] is a literal that evaluates to the entry as
    written, but the cleaning loop cuts its line down to an opening quote
    and [a], and the parser raises a syntax error instead of returning the
    rule [("a#b", "lib/")]. *)
Theorem parse_remappings_cuts_hash_in_string :
  let entry := "a#b=lib/" in
  let text := "remappings = [" ++ quoted entry ++ "]" in
  py_literal_eval ("[" ++ quoted entry ++ "]") = Ok [entry] /\
  split_rules [entry] = Ok [("a#b", "lib/")] /\
  re_search text = Some (quoted entry) /\
  clean_lines (splitlines (quoted entry)) = [String dquote "a"] /\
  parse_remappings_text py_literal_eval text = Err SyntaxError /\
  parse_remappings_text py_literal_eval text <> Ok [("a#b", "lib/")].
Proof.
  cbv zeta. repeat split; try reflexivity. discriminate.
Qed.

(** ** The steps of a run *)

Section StepFacts.
Context {A B : Type}.

Lemma bind_ok_inv (m : M A) (k : A -> M B) w b w' :
  bind m k w = (Ok b, w') ->
  exists a w1, m w = (Ok a, w1) /\ k a w1 = (Ok b, w').
Proof.
  unfold bind. destruct (m w) as [[a|e] w1]; [eauto | discriminate].
Qed.

Lemma bind_ok (m : M A) (k : A -> M B) w a w1 :
  m w = (Ok a, w1) -> bind m k w = k a w1.
Proof. unfold bind. now intros ->. Qed.

Lemma bind_err (m : M A) (k : A -> M B) w e w1 :
  m w = (Err e, w1) -> bind m k w = (Err e, w1).
Proof. unfold bind. now intros ->. Qed.

Lemma read_only_bind (m : M A) (k : A -> M B) :
  read_only m -> (forall a, read_only (k a)) -> read_only (bind m k).
Proof.
  intros Hm Hk w. unfold bind. specialize (Hm w).
  destruct (m w) as [[a|e] w1]; simpl in Hm; subst w1; [apply Hk | reflexivity].
Qed.

Lemma read_only_run (m : M A) w r w' : read_only m -> m w = (r, w') -> w' = w.
Proof. intros Hm H. specialize (Hm w). now rewrite H in Hm. Qed.

End StepFacts.

Lemma read_only_ret {A} (a : A) : read_only (ret a).
Proof. now intros w. Qed.

Lemma read_only_raise {A} e : read_only (@raise A e).
Proof. now intros w. Qed.

Lemma read_only_lift {A} (r : result A) : read_only (lift r).
Proof. now intros w. Qed.

Lemma read_only_read_text path : read_only (read_text path).
Proof.
  intros w. unfold read_text. destruct (get path (files w)); [reflexivity|].
  destruct (is_dir path w); [reflexivity|]. now destruct (under_file path w).
Qed.

Lemma read_only_path_exists path : read_only (path_exists path).
Proof. now intros w. Qed.

Create HintDb read_only.
#[local] Hint Resolve read_only_ret read_only_raise read_only_lift
  read_only_read_text read_only_path_exists : read_only.

Lemma read_only_load_artifact ROOT : read_only (load_artifact ROOT).
Proof.
  unfold load_artifact.
  repeat (apply read_only_bind; [|intros ?]); auto with read_only.
Qed.

Lemma read_only_read_sources_loop ROOT paths sources :
  read_only (read_sources_loop ROOT paths sources).
Proof.
  revert sources. induction paths as [|path paths IH]; intros sources;
    cbn [read_sources_loop]; auto with read_only.
  apply read_only_bind; [auto with read_only|]. intros present.
  destruct (negb present); [auto with read_only|].
  apply read_only_bind; auto with read_only.
Qed.

Lemma read_only_read_sources ROOT metadata :
  read_only (read_sources ROOT metadata).
Proof.
  unfold read_sources.
  repeat (apply read_only_bind; [|intros ?]); auto with read_only.
  apply read_only_read_sources_loop.
Qed.

Lemma read_only_parse_remappings ROOT literal_eval :
  read_only (parse_remappings ROOT literal_eval).
Proof.
  unfold parse_remappings.
  repeat (apply read_only_bind; [|intros ?]); auto with read_only.
Qed.

(** The loop of the Source Collector stops at the first listed path that
    is not a regular file: with the missing-file error of line 36 when
    nothing is there, and with the error of [read_text] (line 37) when a
    directory is there. *)
Lemma read_sources_loop_missing ROOT paths sources w :
  (exists path, In path paths /\ get (joinpath ROOT path) (files w) = None) ->
  exists before path after,
    paths = (before ++ path :: after)%list /\
    (forall p, In p before -> contains (joinpath ROOT p) (files w) = true) /\
    get (joinpath ROOT path) (files w) = None /\
    read_sources_loop ROOT paths sources w =
    (Err (if is_dir (joinpath ROOT path) w
          then IsADirectoryError
                 (os_error "[Errno 21] Is a directory" (joinpath ROOT path))
          else FileNotFoundError ("Source file missing on disk: " ++ path)), w).
Proof.
  revert sources.
  induction paths as [|p paths IH]; intros sources (missing & Hin & Hnone).
  - destruct Hin.
  - destruct (get (joinpath ROOT p) (files w)) as [content|] eqn:Hp.
    + destruct Hin as [-> | Hin]; [congruence|].
      destruct (IH (set p content sources)) as
        (before & path & after & -> & Hbefore & Hpath & Hrun); [eauto|].
      exists (p :: before), path, after.
      split; [reflexivity|]. split; [|split; [exact Hpath|]].
      * intros p' [<- | Hp']; [|auto]. unfold contains. now rewrite Hp.
      * cbn [read_sources_loop]. unfold bind at 1, path_exists, contains.
        rewrite Hp. cbn [negb orb].
        unfold bind at 1, read_text. rewrite Hp. exact Hrun.
    + exists [], p, paths.
      split; [reflexivity|]. split; [|split; [exact Hp|]].
      * intros p' [].
      * cbn [read_sources_loop]. unfold bind at 1, path_exists, contains.
        rewrite Hp. cbn [orb].
        destruct (is_dir (joinpath ROOT p) w) eqn:Hdir; cbn [negb];
          [|reflexivity].
        unfold bind, read_text. now rewrite Hp, Hdir.
Qed.



(** The artifact lists the directory [src] and, after it, a path that is
    not there: the run stops at the directory, in [read_text]. *)
Example main_aborts_on_listed_directory :
  let listed := [("src", JObject []); ("src/Missing.sol", JObject [])] in
  let metadata :=
    JObject [("language", JStr "Solidity"); ("sources", JObject listed);
             ("settings", JObject [])] in
  let w :=
    {| files :=
         [(ARTIFACT "/p", Json.dumps true None (JObject [("metadata", metadata)]));
          (FOUNDRY_TOML "/p", "[profile.default]");
          ("/p/src/Pool.sol", "contract Pool {}")];
       stdout := [] |} in
  main "/p" py_literal_eval w =
  (Err (IsADirectoryError "[Errno 21] Is a directory: '/p/src'"), w).
Proof. reflexivity. Qed.

(** ** The [json] module *)

(** The encoder and the decoder on inputs whose Python values are known;
    [String "233" EmptyString] is the one-character string U+00E9. *)
Example dumps_examples :
  let e_acute := String "233" EmptyString in
  let v := JObject [("a", JList [JInt 1; JInt (-20); JStr e_acute]);
                    ("b", JObject []); ("c", JNull)] in
  Json.dumps true None v =
    "{" ++ quoted "a" ++ ": [1, -20, " ++ quoted (String backslash "u00e9") ++ "], " ++
    quoted "b" ++ ": {}, " ++ quoted "c" ++ ": null}" /\
  Json.dumps false (Some 2) v =
    "{" ++ newline ++
    "  " ++ quoted "a" ++ ": [" ++ newline ++
    "    1," ++ newline ++
    "    -20," ++ newline ++
    "    " ++ quoted e_acute ++ newline ++
    "  ]," ++ newline ++
    "  " ++ quoted "b" ++ ": {}," ++ newline ++
    "  " ++ quoted "c" ++ ": null" ++ newline ++
    "}".
Proof. split; reflexivity. Qed.

Example loads_examples :
  Json.loads ("{ " ++ quoted "a" ++ " : 1 , " ++ quoted "a" ++ ":2, " ++
              quoted "b" ++ ": [ ] }")
  = Some (JObject [("a", JInt 2); ("b", JList [])]) /\
  Json.loads "[1,2,]" = None /\
  Json.loads "01" = None /\
  Json.loads "-0" = Some (JInt 0) /\
  Json.loads " 12 " = Some (JInt 12) /\
  Json.loads (quoted (String backslash "u00e9")) = Some (JStr (String "233" EmptyString)) /\
  Json.loads (quoted (String "009" EmptyString)) = None /\
  Json.loads "[1 2]" = None /\
  Json.loads "nul" = None.
Proof. repeat split. Qed.

Module JsonFacts.
Import Json.

(** Induction on JSON values, through lists and objects. *)
Lemma json_ind (P : json -> Prop) :
  P JNull ->
  (forall b, P (JBool b)) ->
  (forall n, P (JInt n)) ->
  (forall s, P (JStr s)) ->
  (forall items, Forall P items -> P (JList items)) ->
  (forall members, Forall (fun kv => P (snd kv)) members -> P (JObject members)) ->
  forall v, P v.
Proof.
  intros Hnull Hbool Hint Hstr Hlist Hobj.
  fix IH 1. intros [ | b | n | s | items | members].
  - apply Hnull.
  - apply Hbool.
  - apply Hint.
  - apply Hstr.
  - apply Hlist. induction items as [|x items IHitems]; constructor.
    + apply IH.
    + apply IHitems.
  - apply Hobj. induction members as [|[k x] members IHmembers]; constructor.
    + apply IH.
    + apply IHmembers.
Qed.

(** *** Integers *)

Lemma digit_char_value d : d < 10 -> digit_value (digit_char d) = d.
Proof.
  intros H. do 10 (destruct d as [|d]; [reflexivity|]). lia.
Qed.

Lemma digit_char_is_digit d : d < 10 -> is_digit (digit_char d) = true.
Proof.
  intros H. do 10 (destruct d as [|d]; [reflexivity|]). lia.
Qed.

Lemma digits_value_app acc a b :
  digits_value acc (a ++ b) = digits_value (digits_value acc a) b.
Proof. revert acc. induction a as [|c a IH]; intros acc; simpl; auto. Qed.

Lemma mod_10_lt n : n mod 10 < 10.
Proof. apply Nat.mod_upper_bound. discriminate. Qed.

Lemma nat_digits_value fuel n :
  n < fuel -> digits_value 0 (nat_digits fuel n) = n.
Proof.
  revert n. induction fuel as [|fuel IH]; intros n H; [lia|].
  cbn [nat_digits]. rewrite digits_value_app.
  cbn [digits_value]. rewrite digit_char_value by apply mod_10_lt.
  destruct (n <? 10)%nat eqn:E.
  - apply Nat.ltb_lt in E. cbn [digits_value].
    rewrite Nat.mod_small by exact E. lia.
  - apply Nat.ltb_ge in E.
    assert (Hdiv : n / 10 < fuel).
    { assert (n / 10 < n) by (apply Nat.div_lt; lia). lia. }
    rewrite (IH _ Hdiv).
    pose proof (Nat.div_mod_eq n 10). lia.
Qed.

Lemma nat_digits_all_digits fuel n :
  all_chars is_digit (nat_digits fuel n) = true.
Proof.
  revert n. induction fuel as [|fuel IH]; intros n; [reflexivity|].
  cbn [nat_digits]. rewrite ParserFacts.all_chars_app.
  cbn [all_chars]. rewrite digit_char_is_digit by apply mod_10_lt.
  destruct (n <? 10)%nat; [reflexivity|]. now rewrite IH.
Qed.

Lemma nat_digits_nonempty fuel n :
  exists c s, nat_digits (S fuel) n = String c s.
Proof.
  cbn [nat_digits].
  destruct (if (n <? 10)%nat then EmptyString else nat_digits fuel (n / 10));
    cbn; eauto.
Qed.

(** Only the number zero is written with a leading zero. *)
Lemma nat_digits_leading_zero fuel n s :
  n < fuel -> nat_digits fuel n = String "0" s -> s = EmptyString.
Proof.
  revert n s. induction fuel as [|fuel IH]; intros n s H; [lia|].
  cbn [nat_digits]. destruct (n <? 10)%nat eqn:E.
  - cbn [append]. intros Heq.
    apply (f_equal (fun t => slice_from 1 t)) in Heq. now symmetry.
  - apply Nat.ltb_ge in E.
    assert (Hdiv : n / 10 < fuel).
    { assert (n / 10 < n) by (apply Nat.div_lt; lia). lia. }
    pose proof (nat_digits_value fuel (n / 10) Hdiv) as Hval.
    destruct (nat_digits fuel (n / 10)) as [|c t] eqn:Ed.
    + cbn [digits_value] in Hval.
      assert (1 <= n / 10) by (apply Nat.div_le_lower_bound; lia). lia.
    + cbn [append]. intros Heq.
      assert (Hc : c = "0"%char)
        by exact (f_equal (fun t => match t with
                                    | String a _ => a
                                    | EmptyString => c
                                    end) Heq).
      subst c.
      rewrite (IH _ _ Hdiv Ed) in Hval.
      change (digits_value 0 "0") with 0 in Hval.
      assert (1 <= n / 10) by (apply Nat.div_le_lower_bound; lia). lia.
Qed.

Lemma span_digits_app ds rest :
  all_chars is_digit ds = true ->
  match rest with String c _ => is_digit c = false | EmptyString => True end ->
  span_digits (ds ++ rest) = (ds, rest).
Proof.
  intros Hds Hrest. induction ds as [|c ds IH].
  - cbn [append]. destruct rest as [|c r]; [reflexivity|].
    cbn [span_digits]. now rewrite Hrest.
  - cbn in Hds. apply andb_prop in Hds as [Hc Hds].
    cbn [append span_digits]. now rewrite Hc, IH.
Qed.

Lemma int_follow_not_digit rest :
  int_follow_ok rest = true ->
  match rest with String c _ => is_digit c = false | EmptyString => True end.
Proof.
  destruct rest as [|c r]; [trivial|]. cbn [int_follow_ok].
  intros H. apply negb_true_iff in H.
  repeat (apply orb_false_elim in H as [H _]). exact H.
Qed.

Lemma parse_nat_digits n rest :
  int_follow_ok rest = true ->
  parse_int (nat_digits (S n) n ++ rest) = Some (Z.of_nat n, rest).
Proof.
  intros Hrest.
  destruct (nat_digits_nonempty n n) as (c & s & Hd).
  pose proof (nat_digits_all_digits (S n) n) as Hall.
  pose proof (nat_digits_value (S n) n ltac:(lia)) as Hval.
  pose proof (nat_digits_leading_zero (S n) n) as Hzero.
  unfold parse_int. rewrite Hd in *. cbn [append].
  assert (Hc : Ascii.eqb c "-" = false).
  { cbn in Hall. apply andb_prop in Hall as [Hc _].
    destruct (Ascii.eqb c "-") eqn:E; [|reflexivity].
    apply Ascii.eqb_eq in E. subst c. discriminate. }
  rewrite Hc.
  change (String c (s ++ rest)) with (String c s ++ rest).
  rewrite (span_digits_app _ _ Hall (int_follow_not_digit _ Hrest)).
  rewrite Hrest, Hval.
  destruct (Ascii.eqb c "0") eqn:E0; [|reflexivity].
  apply Ascii.eqb_eq in E0. subst c.
  rewrite (Hzero s ltac:(lia) eq_refl). reflexivity.
Qed.

Lemma parse_int_to_string n rest :
  int_follow_ok rest = true ->
  parse_int (int_to_string n ++ rest) = Some (n, rest).
Proof.
  intros Hrest. unfold int_to_string.
  destruct (n <? 0)%Z eqn:E.
  - apply Z.ltb_lt in E.
    pose proof (parse_nat_digits (Z.abs_nat n) rest Hrest) as H.
    unfold parse_int in H |- *. cbn [append].
    rewrite Ascii.eqb_refl.
    destruct (nat_digits_nonempty (Z.abs_nat n) (Z.abs_nat n)) as (c & s & Hd).
    rewrite Hd in *. cbn [append] in *.
    destruct (Ascii.eqb c "-") eqn:Hc.
    { apply Ascii.eqb_eq in Hc. subst c.
      pose proof (nat_digits_all_digits (S (Z.abs_nat n)) (Z.abs_nat n)) as Hall.
      rewrite Hd in Hall. discriminate. }
    destruct (span_digits (String c (s ++ rest))) as [ds r].
    destruct ds as [|d ds]; [discriminate|].
    destruct (Ascii.eqb d "0" && negb (String.eqb ds EmptyString));
      [discriminate|].
    destruct (int_follow_ok r); [|discriminate].
    injection H as Hv ->. f_equal. f_equal.
    assert (Hv' : Z.of_nat (digits_value 0 (String d ds)) =
                  Z.of_nat (Z.abs_nat n)) by exact Hv.
    rewrite Hv', Zabs2Nat.id_abs. lia.
  - apply Z.ltb_ge in E. cbn [append].
    rewrite parse_nat_digits by exact Hrest.
    f_equal. f_equal. rewrite Zabs2Nat.id_abs. lia.
Qed.

(** *** Strings *)

Lemma scanstring_escape_char ensure_ascii c tail :
  scanstring (escape_char ensure_ascii c ++ tail) =
  match scanstring tail with
  | Some (text, rest) => Some (String c text, rest)
  | None => None
  end.
Proof.
  destruct ensure_ascii;
    destruct c as [[] [] [] [] [] [] [] []]; reflexivity.
Qed.

Lemma scanstring_escape_string ensure_ascii s rest :
  scanstring (escape_string ensure_ascii s ++ String dquote rest) = Some (s, rest).
Proof.
  induction s as [|c s IH].
  - cbn. reflexivity.
  - cbn [escape_string]. rewrite ParserFacts.append_assoc.
    now rewrite scanstring_escape_char, IH.
Qed.

End JsonFacts.

(** *** Decoding what the encoder writes *)

Module JsonRoundTrip.
Import Json JsonFacts ParserFacts.

Lemma skip_ws_spaces n s : skip_ws (spaces n ++ s) = skip_ws s.
Proof. induction n as [|n IH]; [reflexivity | exact IH]. Qed.

Lemma skip_ws_solid c s : is_json_ws c = false -> skip_ws (String c s) = String c s.
Proof. intros H. cbn [skip_ws]. now rewrite H. Qed.

Lemma digit_not_special c : is_digit c = true -> is_special c = false.
Proof.
  destruct c as [[] [] [] [] [] [] [] []]; cbv; intros H;
    solve [discriminate | reflexivity].
Qed.

Lemma int_to_string_head n :
  exists c t, int_to_string n = String c t /\ is_special c = false.
Proof.
  unfold int_to_string. destruct (n <? 0)%Z.
  - cbn [append]. eauto.
  - cbn [append].
    destruct (nat_digits_nonempty (Z.abs_nat n) (Z.abs_nat n)) as (c & t & Hd).
    pose proof (nat_digits_all_digits (S (Z.abs_nat n)) (Z.abs_nat n)) as Hall.
    rewrite Hd in *. cbn [all_chars] in Hall.
    apply andb_prop in Hall as [Hc _].
    exists c, t. split; [reflexivity | now apply digit_not_special].
Qed.

Lemma not_special_parts c :
  is_special c = false ->
  is_json_ws c = false /\ Ascii.eqb c dquote = false /\
  Ascii.eqb c "{" = false /\ Ascii.eqb c "[" = false /\
  Ascii.eqb c "]" = false /\ Ascii.eqb c "n" = false /\
  Ascii.eqb c "t" = false /\ Ascii.eqb c "f" = false.
Proof.
  unfold is_special. intros H.
  do 7 (apply orb_false_elim in H as [H ?]). repeat split; assumption.
Qed.

Lemma int_follow_ok_head c t :
  Ascii.eqb c "," || Ascii.eqb c "]" || Ascii.eqb c "}" || Ascii.eqb c "010" = true ->
  int_follow_ok (String c t) = true.
Proof.
  intros H. repeat (apply orb_prop in H as [H | H]);
    apply Ascii.eqb_eq in H; subst c; reflexivity.
Qed.

Section RoundTrip.
Variable ensure_ascii : bool.
Variable indent : option nat.

Local Abbreviation dumps_at := (Json.dumps_at ensure_ascii indent).
Local Abbreviation ni := (newline_indent indent).
Local Abbreviation sep := (item_separator indent).
Local Abbreviation more_items level :=
  (fold_right (fun y more => sep (S level) ++ dumps_at (S level) y ++ more)
              (ni level ++ "]")).
Local Abbreviation more_members level :=
  (fold_right
     (fun ky more =>
        sep (S level) ++ encode_string ensure_ascii (fst ky) ++ key_separator ++
        dumps_at (S level) (snd ky) ++ more)
     (ni level ++ "}")).
Local Abbreviation items_need :=
  (fold_right (fun x need => S (size x + need)) 0).
Local Abbreviation members_need :=
  (fold_right (fun kx need => S (size (snd kx) + need)) 0).

(** Decoding the encoding of [v], followed by anything an encoder puts
    after a value, gives [v] back and leaves what follows. *)
Local Abbreviation round_trips v :=
  (forall level fuel rest,
     size v <= fuel -> int_follow_ok rest = true ->
     parse_value fuel (dumps_at level v ++ rest) = Some (v, rest)).

Lemma skip_ws_newline_indent level s : skip_ws (ni level ++ s) = skip_ws s.
Proof.
  unfold newline_indent. destruct indent as [width|]; [|reflexivity].
  cbn [append skip_ws]. change (is_json_ws "010") with true. cbn iota.
  apply skip_ws_spaces.
Qed.

Lemma item_separator_form level :
  exists blanks, sep level = String "," blanks /\
                 forall s, skip_ws (blanks ++ s) = skip_ws s.
Proof.
  unfold item_separator. destruct indent as [width|] eqn:E.
  - exists (ni level). split.
    + unfold newline_indent. now rewrite E.
    + intros s. apply skip_ws_newline_indent.
  - exists " ". split; [reflexivity | reflexivity].
Qed.

Lemma int_follow_ok_closing level c t :
  Ascii.eqb c "]" || Ascii.eqb c "}" = true ->
  int_follow_ok (ni level ++ String c t) = true.
Proof.
  intros H. unfold newline_indent. destruct indent.
  - reflexivity.
  - cbn [append]. apply int_follow_ok_head.
    apply orb_prop in H as [-> | ->]; now rewrite ?orb_true_r.
Qed.

Lemma int_follow_ok_separator level t : int_follow_ok (sep level ++ t) = true.
Proof.
  destruct (item_separator_form level) as (blanks & -> & _). reflexivity.
Qed.

Lemma dumps_at_head level v :
  exists c t, dumps_at level v = String c t /\
              is_json_ws c = false /\ Ascii.eqb c "]" = false.
Proof.
  destruct v as [ | [] | n | s | [|x xs] | [|kx ms]];
    try (cbn; eexists _, _; split; [reflexivity | split; reflexivity]).
  destruct (int_to_string_head n) as (c & t & Hd & Hc).
  apply not_special_parts in Hc as (Hws & _ & _ & _ & Hbr & _).
  exists c, t. auto.
Qed.

Lemma skip_ws_dumps_at level v s :
  skip_ws (dumps_at level v ++ s) = dumps_at level v ++ s.
Proof.
  destruct (dumps_at_head level v) as (c & t & -> & Hc & _).
  cbn [append]. now apply skip_ws_solid.
Qed.

Lemma int_follow_ok_more_items level xs rest :
  int_follow_ok (more_items level xs ++ rest) = true.
Proof.
  destruct xs as [|y ys]; cbn [fold_right].
  - rewrite append_assoc. now apply int_follow_ok_closing.
  - rewrite append_assoc. apply int_follow_ok_separator.
Qed.

Lemma int_follow_ok_more_members level ms rest :
  int_follow_ok (more_members level ms ++ rest) = true.
Proof.
  destruct ms as [|ky ms]; cbn [fold_right].
  - rewrite append_assoc. now apply int_follow_ok_closing.
  - rewrite append_assoc. apply int_follow_ok_separator.
Qed.

Lemma skip_ws_separator level u :
  exists blanks,
    skip_ws (sep level ++ u) = String "," (blanks ++ u) /\
    forall s, skip_ws (blanks ++ s) = skip_ws s.
Proof.
  destruct (item_separator_form level) as (blanks & Hsep & Hblanks).
  exists blanks. split; [|exact Hblanks]. now rewrite Hsep.
Qed.

Lemma skip_ws_closing level c t :
  is_json_ws c = false ->
  skip_ws ((ni level ++ String c EmptyString) ++ t) = String c t.
Proof.
  intros Hc. rewrite append_assoc, skip_ws_newline_indent.
  cbn [append]. now apply skip_ws_solid.
Qed.

(** One round of [parse_items] on an encoded element. *)
Lemma parse_items_value fuel level x tail :
  round_trips x -> size x <= fuel -> int_follow_ok tail = true ->
  parse_items (S fuel) (dumps_at level x ++ tail) =
  match skip_ws tail with
  | String c rest' =>
      if Ascii.eqb c "," then
        match parse_items fuel (skip_ws rest') with
        | Some (vs, rest'') => Some (x :: vs, rest'')
        | None => None
        end
      else if Ascii.eqb c "]" then Some ([x], rest')
      else None
  | EmptyString => None
  end.
Proof.
  intros Hx Hfuel Htail. cbn [parse_items]. now rewrite Hx.
Qed.

(** The elements of a list after its opening bracket. *)
Lemma parse_items_more xs :
  Forall (fun x => round_trips x) xs ->
  forall x level fuel rest,
    round_trips x ->
    S (size x + items_need xs) <= fuel ->
    parse_items fuel (dumps_at (S level) x ++ more_items level xs ++ rest) =
    Some (x :: xs, rest).
Proof.
  induction 1 as [|y ys Hy Hys IH]; intros x level fuel rest Hx Hfuel;
    (destruct fuel as [|fuel]; [lia|]); cbn [fold_right] in Hfuel;
    rewrite parse_items_value
      by (exact Hx || lia || apply int_follow_ok_more_items);
    cbn [fold_right].
  - now rewrite skip_ws_closing.
  - rewrite append_assoc.
    destruct (skip_ws_separator (S level)
                (dumps_at (S level) y ++ more_items level ys ++ rest))
      as (blanks & Hsep & Hblanks).
    rewrite append_assoc, Hsep. change (Ascii.eqb "," ",") with true.
    cbn iota. rewrite Hblanks, skip_ws_dumps_at.
    rewrite IH; [reflexivity | exact Hy | lia].
Qed.

Lemma skip_ws_encode_string k t :
  skip_ws (encode_string ensure_ascii k ++ t) = encode_string ensure_ascii k ++ t.
Proof. reflexivity. Qed.

(** One round of [parse_members] on an encoded member. *)
Lemma parse_members_value fuel level k x tail :
  round_trips x -> size x <= fuel -> int_follow_ok tail = true ->
  parse_members (S fuel)
    (encode_string ensure_ascii k ++ key_separator ++ dumps_at level x ++ tail) =
  match skip_ws tail with
  | String d rest3 =>
      if Ascii.eqb d "," then
        match parse_members fuel (skip_ws rest3) with
        | Some (ms, rest4) => Some ((k, x) :: ms, rest4)
        | None => None
        end
      else if Ascii.eqb d "}" then Some ([(k, x)], rest3)
      else None
  | EmptyString => None
  end.
Proof.
  intros Hx Hfuel Htail.
  unfold encode_string, key_separator. cbn [append parse_members].
  rewrite Ascii.eqb_refl, append_assoc. cbn [append].
  rewrite scanstring_escape_string.
  cbn [skip_ws]. change (is_json_ws ":") with false. cbn iota.
  change (Ascii.eqb ":" ":") with true. cbn iota.
  change (skip_ws (String " " (dumps_at level x ++ tail)))
    with (skip_ws (dumps_at level x ++ tail)).
  now rewrite skip_ws_dumps_at, Hx.
Qed.

(** The members of an object after its opening brace. *)
Lemma parse_members_more ms :
  Forall (fun kx => round_trips (snd kx)) ms ->
  forall k x level fuel rest,
    round_trips x ->
    S (size x + members_need ms) <= fuel ->
    parse_members fuel
      (encode_string ensure_ascii k ++ key_separator ++
       dumps_at (S level) x ++ more_members level ms ++ rest) =
    Some ((k, x) :: ms, rest).
Proof.
  induction 1 as [|[k' y] ms Hy Hms IH]; intros k x level fuel rest Hx Hfuel;
    (destruct fuel as [|fuel]; [lia|]); cbn [fold_right snd] in Hfuel;
    rewrite parse_members_value
      by (exact Hx || lia || apply int_follow_ok_more_members);
    cbn [fold_right fst snd].
  - now rewrite skip_ws_closing.
  - rewrite append_assoc.
    destruct (skip_ws_separator (S level)
                (encode_string ensure_ascii k' ++ key_separator ++
                 dumps_at (S level) y ++ more_members level ms ++ rest))
      as (blanks & Hsep & Hblanks).
    rewrite !append_assoc, Hsep. change (Ascii.eqb "," ",") with true.
    cbn iota. rewrite Hblanks, skip_ws_encode_string.
    rewrite IH; [reflexivity | exact Hy | lia].
Qed.

Lemma dict_of_pairs_fresh (ms acc : dict json) :
  NoDup (keys acc ++ keys ms)%list ->
  fold_left (fun d kv => set (fst kv) (snd kv) d) ms acc = (acc ++ ms)%list.
Proof.
  revert acc. induction ms as [|[k v] ms IH]; intros acc Hnd; cbn [fold_left].
  - now rewrite app_nil_r.
  - cbn [keys map fst] in Hnd.
    rewrite keys_set_new.
    + rewrite IH.
      * now rewrite <- app_assoc.
      * unfold keys. rewrite map_app, <- app_assoc. exact Hnd.
    + apply contains_false_keys. intros Hin.
      apply NoDup_remove_2 in Hnd. apply Hnd. apply in_or_app. now left.
Qed.

Lemma dict_of_pairs_wf (ms : dict json) : wf ms -> dict_of_pairs ms = ms.
Proof. intros H. unfold dict_of_pairs. now rewrite dict_of_pairs_fresh. Qed.

Lemma parse_value_list fuel level x tail :
  parse_value (S fuel) ("[" ++ ni (S level) ++ dumps_at (S level) x ++ tail) =
  match parse_items fuel (dumps_at (S level) x ++ tail) with
  | Some (items, rest) => Some (JList items, rest)
  | None => None
  end.
Proof.
  cbn [append parse_value]. change (Ascii.eqb "[" dquote) with false.
  change (Ascii.eqb "[" "{") with false. change (Ascii.eqb "[" "[") with true.
  cbn iota. rewrite skip_ws_newline_indent, skip_ws_dumps_at.
  destruct (dumps_at_head (S level) x) as (c & t & -> & _ & Hc).
  cbn [append]. now rewrite Hc.
Qed.

Lemma parse_value_object fuel level k tail :
  parse_value (S fuel) ("{" ++ ni (S level) ++ encode_string ensure_ascii k ++ tail) =
  match parse_members fuel (encode_string ensure_ascii k ++ tail) with
  | Some (pairs, rest) => Some (JObject (dict_of_pairs pairs), rest)
  | None => None
  end.
Proof.
  cbn [append parse_value]. change (Ascii.eqb "{" dquote) with false.
  change (Ascii.eqb "{" "{") with true.
  cbn iota. rewrite skip_ws_newline_indent, skip_ws_encode_string.
  reflexivity.
Qed.

Lemma parse_value_int fuel n rest :
  int_follow_ok rest = true ->
  parse_value (S fuel) (int_to_string n ++ rest) = Some (JInt n, rest).
Proof.
  intros Hrest. pose proof (parse_int_to_string n rest Hrest) as Hparse.
  destruct (int_to_string_head n) as (c & t & Hd & Hc).
  apply not_special_parts in Hc as (_ & H1 & H2 & H3 & _ & H4 & H5 & H6).
  rewrite Hd in *. cbn [append] in *. cbn [parse_value].
  now rewrite H1, H2, H3, H4, H5, H6, Hparse.
Qed.

Lemma wf_json_items xs :
  wf_json (JList xs) -> Forall wf_json xs.
Proof.
  cbn [wf_json]. induction xs as [|x xs IH]; cbn [fold_right];
    [constructor | intros [Hx Hxs]; constructor; auto].
Qed.

Lemma wf_json_members ms :
  wf_json (JObject ms) -> wf ms /\ Forall (fun kx => wf_json (snd kx)) ms.
Proof.
  cbn [wf_json]. intros [Hwf H]. split; [exact Hwf|]. clear Hwf.
  induction ms as [|kx ms IH]; cbn [fold_right] in H;
    [constructor | destruct H as [Hx Hms]; constructor; auto].
Qed.

(** Decoding what the encoder writes for a well-formed value gives the
    value back. *)
Lemma parse_value_dumps_at v : wf_json v -> round_trips v.
Proof.
  induction v as [ | b | n | s | items IH | members IH] using json_ind;
    intros Hwf level fuel rest Hfuel Hrest;
    (destruct fuel as [|fuel]; [cbn in Hfuel; lia|]).
  - reflexivity.
  - destruct b; reflexivity.
  - now apply parse_value_int.
  - cbn [dumps_at]. unfold encode_string. cbn [append parse_value].
    rewrite Ascii.eqb_refl, append_assoc. cbn [append].
    now rewrite scanstring_escape_string.
  - apply wf_json_items in Hwf.
    assert (Hall : Forall (fun x => round_trips x) items).
    { clear Hfuel. induction IH as [|x xs Hx Hxs IHxs]; constructor;
        inversion Hwf; subst; auto. }
    destruct items as [|x xs]; [reflexivity|].
    cbn [dumps_at]. rewrite !append_assoc, parse_value_list.
    inversion Hall as [|? ? Hx Hxs]; subst.
    rewrite (parse_items_more xs Hxs x level fuel rest Hx); [reflexivity|].
    cbn [size fold_right] in Hfuel. lia.
  - apply wf_json_members in Hwf as [Hkeys Hwf].
    assert (Hall : Forall (fun kx => round_trips (snd kx)) members).
    { clear Hfuel Hkeys. induction IH as [|x xs Hx Hxs IHxs]; constructor;
        inversion Hwf; subst; auto. }
    destruct members as [|[k x] ms]; [reflexivity|].
    cbn [dumps_at fst snd]. rewrite !append_assoc, parse_value_object.
    inversion Hall as [|? ? Hx Hxs]; subst. cbn [snd] in Hx.
    rewrite (parse_members_more ms Hxs k x level fuel rest Hx).
    + now rewrite dict_of_pairs_wf.
    + cbn [size fold_right snd] in Hfuel. lia.
Qed.

(** The encoding of a value is at least as long as the fuel its decoding
    takes. *)
Lemma item_separator_length level : 1 <= String.length (sep level).
Proof.
  destruct (item_separator_form level) as (blanks & -> & _). cbn. lia.
Qed.

Lemma size_le_length v level : size v <= String.length (dumps_at level v).
Proof.
  revert level.
  induction v as [ | b | n | s | items IH | members IH] using json_ind;
    intros level.
  - cbn. lia.
  - destruct b; cbn; lia.
  - destruct (int_to_string_head n) as (c & t & Hd & _).
    cbn [dumps_at size]. rewrite Hd. cbn. lia.
  - cbn. lia.
  - destruct items as [|x xs]; [cbn; lia|].
    cbn [dumps_at size fold_right]. rewrite !length_append.
    inversion IH as [|? ? Hx Hxs]; subst.
    specialize (Hx (S level)).
    enough (S (items_need xs) <= String.length (more_items level xs))
      by (cbn [String.length]; lia).
    clear Hx IH. induction Hxs as [|y ys Hy Hys IHys]; cbn [fold_right].
    + rewrite length_append. cbn. lia.
    + rewrite !length_append. specialize (Hy (S level)).
      pose proof (item_separator_length (S level)). lia.
  - destruct members as [|[k x] ms]; [cbn; lia|].
    cbn [dumps_at size fold_right fst snd]. rewrite !length_append.
    inversion IH as [|? ? Hx Hxs]; subst. cbn [snd] in Hx.
    specialize (Hx (S level)).
    enough (S (members_need ms) <= String.length (more_members level ms))
      by (cbn [String.length]; lia).
    clear Hx IH. induction Hxs as [|y ys Hy Hys IHys]; cbn [fold_right].
    + rewrite length_append. cbn. lia.
    + rewrite !length_append. specialize (Hy (S level)).
      pose proof (item_separator_length (S level)). lia.
Qed.

End RoundTrip.

(** [json.loads(json.dumps(v, ...)) == v], whatever the options of the
    encoder. *)
Lemma loads_dumps ensure_ascii indent v :
  wf_json v -> loads (dumps ensure_ascii indent v) = Some v.
Proof.
  intros Hwf. unfold loads, dumps.
  rewrite <- (append_empty_r (dumps_at ensure_ascii indent 0 v)) at 2.
  rewrite skip_ws_dumps_at.
  rewrite (parse_value_dumps_at ensure_ascii indent v Hwf); [reflexivity | | reflexivity].
  pose proof (size_le_length ensure_ascii indent v 0). lia.
Qed.

End JsonRoundTrip.

(** *** What the decoder returns is well formed *)

Module JsonWf.
Import Json JsonFacts.

Lemma wf_set {V} k (v : V) (d : dict V) : wf d -> wf (set k v d).
Proof.
  unfold wf. intros H.
  destruct (contains k d) eqn:E.
  - enough (Hk : keys (set k v d) = keys d) by now rewrite Hk.
    clear H. unfold contains in E.
    induction d as [|[k' v'] d IH]; cbn in *; [discriminate|].
    destruct (String.eqb k k'); cbn; [reflexivity|].
    f_equal. now apply IH.
  - rewrite (keys_set_new _ _ _ E). unfold keys. rewrite map_app. cbn.
    apply contains_false_keys in E.
    apply NoDup_rev in H. rewrite <- (rev_involutive (map fst d ++ [k])).
    apply NoDup_rev. rewrite rev_app_distr. cbn.
    constructor; [|exact H]. now rewrite <- in_rev.
Qed.

Lemma Forall_set {V} (P : V -> Prop) k v (d : dict V) :
  Forall (fun kv => P (snd kv)) d -> P v ->
  Forall (fun kv => P (snd kv)) (set k v d).
Proof.
  intros Hd Hv. induction Hd as [|[k' v'] d Hx Hd IH]; cbn.
  - now constructor.
  - destruct (String.eqb k k'); constructor; auto.
Qed.

Lemma wf_json_list xs : Forall wf_json xs -> wf_json (JList xs).
Proof.
  cbn [wf_json]. induction 1; cbn [fold_right]; [exact I | split; assumption].
Qed.

Lemma wf_json_object ms :
  wf ms -> Forall (fun kx => wf_json (snd kx)) ms -> wf_json (JObject ms).
Proof.
  intros Hwf H. cbn [wf_json]. split; [exact Hwf|]. clear Hwf.
  induction H; cbn [fold_right]; [exact I | split; assumption].
Qed.

Lemma wf_json_dict_of_pairs pairs :
  Forall (fun kx => wf_json (snd kx)) pairs ->
  wf_json (JObject (dict_of_pairs pairs)).
Proof.
  intros H. unfold dict_of_pairs.
  enough (Hgen : forall acc,
            wf acc -> Forall (fun kx => wf_json (snd kx)) acc ->
            wf_json (JObject
              (fold_left (fun d kv => set (fst kv) (snd kv) d) pairs acc))).
  { apply Hgen; [constructor | constructor]. }
  induction H as [|[k v] pairs Hv Hpairs IH]; intros acc Hwf Hacc;
    cbn [fold_left].
  - now apply wf_json_object.
  - apply IH; [now apply wf_set | now apply Forall_set].
Qed.

Lemma expect_wf word v s v' r :
  wf_json v -> expect word v s = Some (v', r) -> wf_json v'.
Proof.
  unfold expect. destruct (startswith s word); [|discriminate].
  now intros H [= <- _].
Qed.

(** Every value the decoder builds is well formed. *)
Lemma parse_wf fuel :
  (forall s v r, parse_value fuel s = Some (v, r) -> wf_json v) /\
  (forall s vs r, parse_items fuel s = Some (vs, r) -> Forall wf_json vs) /\
  (forall s ms r, parse_members fuel s = Some (ms, r) ->
                  Forall (fun kx => wf_json (snd kx)) ms).
Proof.
  induction fuel as [|fuel (IHv & IHi & IHm)];
    [repeat split; discriminate|].
  repeat split.
  - intros s v r. cbn [parse_value].
    destruct s as [|c s']; [discriminate|].
    destruct (Ascii.eqb c dquote).
    { destruct (scanstring s') as [[text rest]|]; [|discriminate].
      now intros [= <- _]. }
    destruct (Ascii.eqb c "{").
    { destruct (skip_ws s') as [|c' body']; [discriminate|].
      destruct (Ascii.eqb c' "}");
        [intros [= <- _]; apply wf_json_object; constructor|].
      destruct (parse_members fuel (String c' body')) as [[pairs rest]|] eqn:E;
        [|discriminate].
      intros [= <- _]. apply wf_json_dict_of_pairs. eapply IHm, E. }
    destruct (Ascii.eqb c "[").
    { destruct (skip_ws s') as [|c' body']; [discriminate|].
      destruct (Ascii.eqb c' "]"); [now intros [= <- _]|].
      destruct (parse_items fuel (String c' body')) as [[items rest]|] eqn:E;
        [|discriminate].
      intros [= <- _]. apply wf_json_list. eapply IHi, E. }
    destruct (Ascii.eqb c "n"); [now apply expect_wf|].
    destruct (Ascii.eqb c "t"); [now apply expect_wf|].
    destruct (Ascii.eqb c "f"); [now apply expect_wf|].
    destruct (parse_int (String c s')) as [[n rest]|]; [|discriminate].
    now intros [= <- _].
  - intros s vs r. cbn [parse_items].
    destruct (parse_value fuel s) as [[v rest]|] eqn:Ev; [|discriminate].
    destruct (skip_ws rest) as [|c rest']; [discriminate|].
    destruct (Ascii.eqb c ",").
    { destruct (parse_items fuel (skip_ws rest')) as [[vs' rest'']|] eqn:Ei;
        [|discriminate].
      intros [= <- _]. constructor; [eapply IHv, Ev | eapply IHi, Ei]. }
    destruct (Ascii.eqb c "]"); [|discriminate].
    intros [= <- _]. constructor; [eapply IHv, Ev | constructor].
  - intros s ms r. cbn [parse_members].
    destruct s as [|q s']; [discriminate|].
    destruct (Ascii.eqb q dquote); [|discriminate].
    destruct (scanstring s') as [[key rest]|]; [|discriminate].
    destruct (skip_ws rest) as [|c rest']; [discriminate|].
    destruct (Ascii.eqb c ":"); [|discriminate].
    destruct (parse_value fuel (skip_ws rest')) as [[v rest'']|] eqn:Ev;
      [|discriminate].
    destruct (skip_ws rest'') as [|d rest3]; [discriminate|].
    destruct (Ascii.eqb d ",").
    { destruct (parse_members fuel (skip_ws rest3)) as [[ms' rest4]|] eqn:Em;
        [|discriminate].
      intros [= <- _]. constructor; [eapply IHv, Ev | eapply IHm, Em]. }
    destruct (Ascii.eqb d "}"); [|discriminate].
    intros [= <- _]. constructor; [eapply IHv, Ev | constructor].
Qed.

Lemma loads_wf s v : loads s = Some v -> wf_json v.
Proof.
  unfold loads.
  destruct (parse_value _ _) as [[v' rest]|] eqn:E; [|discriminate].
  destruct (skip_ws rest); [|discriminate].
  intros [= <-]. eapply (proj1 (parse_wf _)), E.
Qed.

(** A member of a well-formed object is well formed. *)
Lemma wf_json_get k ms v :
  wf_json (JObject ms) -> get k ms = Some v -> wf_json v.
Proof.
  intros Hwf Hget. apply JsonRoundTrip.wf_json_members in Hwf as [_ Hall].
  apply get_In in Hget. rewrite Forall_forall in Hall.
  exact (Hall _ Hget).
Qed.

End JsonWf.

(** ** Artifact Loader *)

(** C3: the loader returns the same metadata record [m] for an artifact
    whose [metadata] member is the object [m] and for an artifact whose
    [metadata] member is a string holding the JSON encoding of [m],
    whatever the options the encoder was run with. *)
Theorem load_artifact_accepts_both_forms
    (ROOT : string) (w w' : world) (text text' : string)
    (data data' m : dict json) (ensure_ascii : bool) (indent : option nat) :
  get (ARTIFACT ROOT) (files w) = Some text ->
  Json.loads text = Some (JObject data) ->
  get "metadata" data = Some (JObject m) ->
  get (ARTIFACT ROOT) (files w') = Some text' ->
  Json.loads text' = Some (JObject data') ->
  get "metadata" data' = Some (JStr (Json.dumps ensure_ascii indent (JObject m))) ->
  load_artifact ROOT w = (Ok (JObject m), w) /\
  load_artifact ROOT w' = (Ok (JObject m), w').
Proof.
  intros Hfile Hdata Hmeta Hfile' Hdata' Hmeta'.
  assert (Hwf : wf_json (JObject m)).
  { eapply JsonWf.wf_json_get; [|exact Hmeta].
    eapply JsonWf.loads_wf, Hdata. }
  unfold load_artifact, bind, read_text, lift, json_loads, metadata_of, getitem.
  rewrite Hfile, Hdata, Hmeta, Hfile', Hdata', Hmeta'.
  unfold json_loads.
  now rewrite (JsonRoundTrip.loads_dumps _ _ _ Hwf).
Qed.

(** An artifact with the metadata as an object and the same artifact with
    the metadata encoded into a string. *)
Lemma load_artifact_accepts_both_forms_witness :
  let m := [("language", JStr "Solidity");
            ("sources", JObject [("src/Pool.sol", JObject [])]);
            ("settings", JObject [("optimizer", JObject [("runs", JInt 200)])])] in
  let data := [("abi", JList []); ("metadata", JObject m)] in
  let data' := [("abi", JList []);
                ("metadata", JStr (Json.dumps true None (JObject m)))] in
  let w := {| files := [(ARTIFACT "/p", Json.dumps true (Some 2) (JObject data))];
              stdout := [] |} in
  let w' := {| files := [(ARTIFACT "/p", Json.dumps true None (JObject data'))];
               stdout := [] |} in
  load_artifact "/p" w = (Ok (JObject m), w) /\
  load_artifact "/p" w' = (Ok (JObject m), w').
Proof.
  intros m data data' w w'.
  apply (load_artifact_accepts_both_forms "/p" w w'
           (Json.dumps true (Some 2) (JObject data))
           (Json.dumps true None (JObject data'))
           data data' m true None); reflexivity.
Defined.

(** ** Settings Sanitizer *)

Module HeapFacts.
Import Heap.
Local Open Scope list_scope.

Lemma all_some_impl {A B} (f g : A -> option B) xs ys :
  (forall x y, In x xs -> f x = Some y -> g x = Some y) ->
  all_some f xs = Some ys -> all_some g xs = Some ys.
Proof.
  revert ys. induction xs as [|x xs IH]; intros ys H; cbn; [auto|].
  destruct (f x) as [y|] eqn:Ex; [|discriminate].
  destruct (all_some f xs) as [ys'|] eqn:Exs; [|discriminate].
  intros [= <-].
  rewrite (H x y) by (auto; now left).
  rewrite (IH ys') by (auto; intros; apply H; auto; now right).
  reflexivity.
Qed.

Lemma all_some_snoc {A B} (f : A -> option B) xs ys x y :
  all_some f xs = Some ys -> f x = Some y ->
  all_some f (xs ++ [x]) = Some (ys ++ [y])%list.
Proof.
  revert ys. induction xs as [|x' xs IH]; intros ys; cbn.
  - intros [= <-] ->. reflexivity.
  - destruct (f x') as [y'|]; [|discriminate].
    destruct (all_some f xs) as [ys'|]; [|discriminate].
    intros [= <-] Hx. now rewrite (IH ys' eq_refl Hx).
Qed.

(** More fuel reads the same value. *)
Lemma reify_fuel_mono fuel :
  forall fuel' h v t,
    fuel <= fuel' -> reify fuel h v = Some t -> reify fuel' h v = Some t.
Proof.
  induction fuel as [|fuel IH]; intros fuel' h v t Hle;
    destruct v as [ | b | n | s | l]; cbn [reify];
    try (intros Hnone; discriminate Hnone);
    try (destruct fuel'; cbn [reify]; now auto).
  destruct fuel' as [|fuel']; [lia|]. cbn [reify].
  destruct (nth_error h l) as [[items|members]|]; [| |discriminate].
  - destruct (all_some (reify fuel h) items) as [ts|] eqn:E; [|discriminate].
    intros [= <-].
    rewrite (all_some_impl (reify fuel h) (reify fuel' h) items ts); auto.
    intros x y _. apply IH. lia.
  - destruct (all_some _ members) as [ts|] eqn:E; [|discriminate].
    intros [= <-].
    erewrite all_some_impl; [reflexivity | | exact E].
    intros [k x] y _. cbn [fst snd].
    destruct (reify fuel h x) as [tx|] eqn:Ex; [|discriminate].
    intros [= <-]. erewrite IH; [reflexivity | | exact Ex]. lia.
Qed.

(** A value read in a store reads the same in every store that agrees with
    it on its addresses. *)
Lemma reify_agree fuel :
  forall h h' v t,
    agree_below (List.length h) h h' ->
    reify fuel h v = Some t -> reify fuel h' v = Some t.
Proof.
  induction fuel as [|fuel IH]; intros h h' v t Hagree;
    destruct v as [ | b | n | s | l]; cbn [reify]; auto.
  destruct (nth_error h l) as [o|] eqn:El;
    [|intros Hnone; discriminate Hnone].
  assert (Hl : l < List.length h) by (apply nth_error_Some; congruence).
  rewrite (Hagree l Hl), El.
  destruct o as [items|members].
  - destruct (all_some (reify fuel h) items) as [ts|] eqn:E; [|discriminate].
    intros [= <-].
    rewrite (all_some_impl (reify fuel h) (reify fuel h') items ts); auto.
    intros x y _. now apply IH.
  - destruct (all_some _ members) as [ts|] eqn:E; [|discriminate].
    intros [= <-].
    erewrite all_some_impl; [reflexivity | | exact E].
    intros [k x] y _. cbn [fst snd].
    destruct (reify fuel h x) as [tx|] eqn:Ex; [|discriminate].
    intros [= <-]. erewrite IH; [reflexivity | exact Hagree | exact Ex].
Qed.

Lemma agree_below_app h ext : agree_below (List.length h) h (h ++ ext).
Proof. intros l Hl. now apply nth_error_app1. Qed.

Lemma agree_below_trans n h1 h2 h3 :
  agree_below n h1 h2 -> agree_below n h2 h3 -> agree_below n h1 h3.
Proof. intros H12 H23 l Hl. now rewrite H23, H12. Qed.

Lemma agree_below_weaken n m h h' :
  m <= n -> agree_below n h h' -> agree_below m h h'.
Proof. intros Hle H l Hl. apply H. lia. Qed.

(** *** Allocation *)

Section Alloc.

(** The base address of the region under construction. *)
Variable n : nat.

Local Abbreviation alloc_item :=
  (fun (acc : heap * list pyval) (x : json) =>
     let '(h1, v) := alloc x (fst acc) in (h1, snd acc ++ [v])).

Local Abbreviation alloc_member :=
  (fun (acc : heap * dict pyval) (kx : string * json) =>
     let '(h1, v) := alloc (snd kx) (fst acc) in
     (h1, snd acc ++ [(fst kx, v)])).

Local Abbreviation items_containers :=
  (fold_right (fun x m => containers x + m) 0).

Local Abbreviation members_containers :=
  (fold_right (fun (kx : string * json) m => containers (snd kx) + m) 0).

(** Allocating [t] appends as many objects as [t] has containers, keeps
    the region well formed, returns a reference into the appended part,
    and the value returned denotes [t]. *)
Local Abbreviation alloc_ok t :=
  (forall h,
     n <= List.length h -> region_ok n h ->
     exists new,
       fst (alloc t h) = h ++ new /\
       List.length new = containers t /\
       region_ok n (h ++ new) /\
       (forall r, snd (alloc t h) = VRef r ->
                  List.length h <= r < List.length h + containers t) /\
       (forall f, containers t <= f ->
                  reify f (h ++ new) (snd (alloc t h)) = Some t)).

Lemma alloc_ok_atom t v :
  (forall h, alloc t h = (h, v)) -> (forall r, v <> VRef r) ->
  containers t = 0 -> (forall f h, reify f h v = Some t) ->
  alloc_ok t.
Proof.
  intros Halloc Hv Hc Hreify h Hn Hok. exists []. rewrite Halloc.
  cbn [fst snd]. rewrite app_nil_r, Hc.
  split; [reflexivity|]. split; [reflexivity|]. split; [exact Hok|].
  split; [intros r Hr; now apply Hv in Hr | intros f _; apply Hreify].
Qed.

Lemma reify_app f h ext v t :
  reify f h v = Some t -> reify f (h ++ ext) v = Some t.
Proof. apply reify_agree, agree_below_app. Qed.

Lemma alloc_items_ok xs :
  Forall (fun x => alloc_ok x) xs ->
  forall h acc,
    n <= List.length h -> region_ok n h ->
    exists new vs,
      fold_left alloc_item xs (h, acc) = (h ++ new, acc ++ vs) /\
      List.length new = items_containers xs /\
      region_ok n (h ++ new) /\
      (forall r, In (VRef r) vs ->
                 List.length h <= r < List.length h + List.length new) /\
      (forall f, (forall x, In x xs -> containers x <= f) ->
                 all_some (reify f (h ++ new)) vs = Some xs).
Proof.
  induction 1 as [|x xs Hx Hxs IH]; intros h acc Hn Hok.
  - exists [], []. rewrite !app_nil_r. cbn.
    split; [reflexivity|]. split; [reflexivity|]. split; [exact Hok|].
    split; [intros r [] | reflexivity].
  - destruct (Hx h Hn Hok) as (new1 & Hh1 & Hlen1 & Hok1 & Hr1 & Hreify1).
    cbn [fold_left fst snd]. destruct (alloc x h) as [h1 v] eqn:Ealloc.
    cbn [fst snd] in *. subst h1.
    destruct (IH (h ++ new1) (acc ++ [v])) as
      (new2 & vs2 & Hfold & Hlen2 & Hok2 & Hr2 & Hreify2);
      [rewrite length_app; lia | exact Hok1 |].
    exists (new1 ++ new2), (v :: vs2).
    split; [etransitivity; [exact Hfold|]; now rewrite <- !app_assoc|].
    rewrite !length_app in *. cbn [fold_right].
    split; [lia|].
    split; [rewrite app_assoc; exact Hok2|]. split.
    + intros r [Hv | Hin].
      * subst v. specialize (Hr1 r eq_refl). lia.
      * specialize (Hr2 r Hin). lia.
    + intros f Hf. cbn [all_some].
      rewrite app_assoc.
      rewrite (reify_app f (h ++ new1) new2 v x)
        by (apply Hreify1, Hf; now left).
      rewrite Hreify2 by (intros y Hy; apply Hf; now right).
      reflexivity.
Qed.

Lemma alloc_members_ok ms :
  Forall (fun kx => alloc_ok (snd kx)) ms ->
  forall h acc,
    n <= List.length h -> region_ok n h ->
    exists new vms,
      fold_left alloc_member ms (h, acc) = (h ++ new, acc ++ vms) /\
      List.length new = members_containers ms /\
      region_ok n (h ++ new) /\
      (forall r, In (VRef r) (map snd vms) ->
                 List.length h <= r < List.length h + List.length new) /\
      (forall f, (forall kx, In kx ms -> containers (snd kx) <= f) ->
                 all_some (fun kx => option_map (pair (fst kx))
                                       (reify f (h ++ new) (snd kx)))
                          vms = Some ms).
Proof.
  induction 1 as [|[k x] ms Hx Hms IH]; intros h acc Hn Hok.
  - exists [], []. rewrite !app_nil_r. cbn.
    split; [reflexivity|]. split; [reflexivity|]. split; [exact Hok|].
    split; [intros r [] | reflexivity].
  - cbn [snd] in Hx.
    destruct (Hx h Hn Hok) as (new1 & Hh1 & Hlen1 & Hok1 & Hr1 & Hreify1).
    cbn [fold_left fst snd]. destruct (alloc x h) as [h1 v] eqn:Ealloc.
    cbn [fst snd] in *. subst h1.
    destruct (IH (h ++ new1) (acc ++ [(k, v)])) as
      (new2 & vms2 & Hfold & Hlen2 & Hok2 & Hr2 & Hreify2);
      [rewrite length_app; lia | exact Hok1 |].
    exists (new1 ++ new2), ((k, v) :: vms2).
    split; [etransitivity; [exact Hfold|]; now rewrite <- !app_assoc|].
    rewrite !length_app in *. cbn [fold_right map snd].
    split; [lia|].
    split; [rewrite app_assoc; exact Hok2|]. split.
    + intros r [Hv | Hin].
      * subst v. specialize (Hr1 r eq_refl). lia.
      * specialize (Hr2 r Hin). lia.
    + intros f Hf. cbn [all_some fst snd].
      rewrite app_assoc.
      rewrite (reify_app f (h ++ new1) new2 v x)
        by (apply Hreify1; apply (Hf (k, x)); now left).
      rewrite Hreify2 by (intros y Hy; apply Hf; now right).
      reflexivity.
Qed.

Lemma items_containers_in xs x :
  In x xs -> containers x <= items_containers xs.
Proof.
  induction xs as [|y ys IH]; cbn [fold_right In]; [tauto|].
  intros [-> | Hin]; [lia | specialize (IH Hin); lia].
Qed.

Lemma members_containers_in (ms : dict json) kx :
  In kx ms -> containers (snd kx) <= members_containers ms.
Proof.
  induction ms as [|ky ms IH]; cbn [fold_right In]; [tauto|].
  intros [-> | Hin]; [lia | specialize (IH Hin); lia].
Qed.

(** Appending a container whose values refer into the region keeps the
    region well formed. *)
Lemma region_ok_snoc h o :
  n <= List.length h -> region_ok n h ->
  (forall r, In (VRef r) (obj_vals o) -> n <= r < List.length h) ->
  region_ok n (h ++ [o]).
Proof.
  intros Hn Hok Ho a o' r Ha Hnth Hin.
  destruct (Nat.lt_ge_cases a (List.length h)) as [Hlt | Hge].
  - rewrite nth_error_app1 in Hnth by exact Hlt. eapply Hok; eauto.
  - rewrite nth_error_app2 in Hnth by exact Hge.
    destruct (a - List.length h) as [|d] eqn:Ed; cbn in Hnth.
    + injection Hnth as <-. specialize (Ho r Hin). lia.
    + destruct d; discriminate.
Qed.

Lemma nth_error_snoc (h : heap) o :
  nth_error (h ++ [o]) (List.length h) = Some o.
Proof. rewrite nth_error_app2, Nat.sub_diag by lia. reflexivity. Qed.

Lemma alloc_spec t : alloc_ok t.
Proof.
  induction t as [ | b | z | s | xs IH | ms IH] using JsonFacts.json_ind.
  - apply (alloc_ok_atom JNull VNone); try easy. now intros [].
  - apply (alloc_ok_atom (JBool b) (VBool b)); try easy. now intros [].
  - apply (alloc_ok_atom (JInt z) (VInt z)); try easy. now intros [].
  - apply (alloc_ok_atom (JStr s) (VStr s)); try easy. now intros [].
  - intros h Hn Hok.
    destruct (alloc_items_ok xs IH h [] Hn Hok)
      as (new & vs & Hfold & Hlen & Hok' & Hr & Hreify).
    cbn [app] in Hfold.
    assert (Halloc : alloc (JList xs) h =
                     ((h ++ new) ++ [OList vs], VRef (List.length (h ++ new)))).
    { cbn [alloc]. etransitivity;
        [apply (f_equal (fun p : heap * list pyval =>
                           let '(h', vs) := p in
                           (h' ++ [OList vs], VRef (List.length h'))) Hfold)|].
      reflexivity. }
    exists (new ++ [OList vs]). rewrite Halloc. cbn [fst snd].
    rewrite !length_app in *. cbn [List.length containers].
    split; [now rewrite app_assoc|]. split; [lia|]. split; [|split].
    + rewrite app_assoc. apply region_ok_snoc; auto.
      * rewrite length_app. lia.
      * intros r Hin. specialize (Hr r Hin). rewrite length_app. lia.
    + intros r [= <-]. lia.
    + intros f Hf. destruct f as [|f]; [lia|].
      rewrite app_assoc. cbn [reify].
      rewrite <- length_app, nth_error_snoc.
      erewrite all_some_impl; [reflexivity | | apply (Hreify f)].
      * intros x y _. apply reify_app.
      * intros x Hx. apply items_containers_in in Hx. lia.
  - intros h Hn Hok.
    destruct (alloc_members_ok ms IH h [] Hn Hok)
      as (new & vms & Hfold & Hlen & Hok' & Hr & Hreify).
    cbn [app] in Hfold.
    assert (Halloc : alloc (JObject ms) h =
                     ((h ++ new) ++ [ODict vms], VRef (List.length (h ++ new)))).
    { cbn [alloc]. etransitivity;
        [apply (f_equal (fun p : heap * dict pyval =>
                           let '(h', vms) := p in
                           (h' ++ [ODict vms], VRef (List.length h'))) Hfold)|].
      reflexivity. }
    exists (new ++ [ODict vms]). rewrite Halloc. cbn [fst snd].
    rewrite !length_app in *. cbn [List.length containers].
    split; [now rewrite app_assoc|]. split; [lia|]. split; [|split].
    + rewrite app_assoc. apply region_ok_snoc; auto.
      * rewrite length_app. lia.
      * intros r Hin. specialize (Hr r Hin). rewrite length_app. lia.
    + intros r [= <-]. lia.
    + intros f Hf. destruct f as [|f]; [lia|].
      rewrite app_assoc. cbn [reify].
      rewrite <- length_app, nth_error_snoc.
      erewrite all_some_impl; [reflexivity | | apply (Hreify f)].
      * intros [k x] y _. cbn [fst snd].
        destruct (reify f (h ++ new) x) as [tx|] eqn:Ex; [|discriminate].
        intros [= <-]. now rewrite (reify_app _ _ _ _ _ Ex).
      * intros kx Hx. apply members_containers_in in Hx. lia.
Qed.

End Alloc.

(** *** Mutation *)

Lemma length_update l o (h : heap) : List.length (update l o h) = List.length h.
Proof.
  revert l. induction h as [|o' h IH]; intros [|l]; cbn; auto.
Qed.

Lemma nth_error_update_same l o (h : heap) :
  l < List.length h -> nth_error (update l o h) l = Some o.
Proof.
  revert l. induction h as [|o' h IH]; intros [|l] Hl; cbn in *;
    try lia; auto. apply IH. lia.
Qed.

Lemma nth_error_update_other l l' o (h : heap) :
  l' <> l -> nth_error (update l o h) l' = nth_error h l'.
Proof.
  revert l l'. induction h as [|o' h IH]; intros [|l] [|l'] Hne; cbn;
    try reflexivity; try lia. apply IH. lia.
Qed.

Lemma agree_below_update n l o (h : heap) :
  n <= l -> agree_below n h (update l o h).
Proof. intros Hle a Ha. apply nth_error_update_other. lia. Qed.

Lemma all_some_ext {A B} (f g : A -> option B) xs :
  (forall x, In x xs -> f x = g x) -> all_some f xs = all_some g xs.
Proof.
  induction xs as [|x xs IH]; intros H; cbn; [reflexivity|].
  rewrite (H x) by now left.
  rewrite IH by (intros y Hy; apply H; now right). reflexivity.
Qed.

(** Below an updated address the region reads as before. *)
Lemma reify_update_below n (h : heap) root o fuel :
  region_ok n h ->
  forall x, (forall r, x = VRef r -> n <= r < root) ->
            reify fuel (update root o h) x = reify fuel h x.
Proof.
  intros Hok. induction fuel as [|fuel IH]; intros x Hx;
    destruct x as [ | b | z | s | r]; cbn [reify]; auto.
  destruct (Hx r eq_refl) as [Hn Hr].
  rewrite nth_error_update_other by lia.
  destruct (nth_error h r) as [[items|members]|] eqn:Er; [| |reflexivity].
  - f_equal. apply all_some_ext. intros x Hin. apply IH.
    intros r' ->. specialize (Hok r (OList items) r' Hn Er Hin). lia.
  - f_equal. apply all_some_ext. intros [k x] Hin. cbn [fst snd].
    f_equal. apply IH.
    intros r' ->.
    assert (Hin' : In (VRef r') (obj_vals (ODict members)))
      by (cbn; change (VRef r') with (snd (k, VRef r')); now apply in_map).
    specialize (Hok r (ODict members) r' Hn Er Hin'). lia.
Qed.

Lemma region_ok_update n (h : heap) root o o' :
  region_ok n h -> nth_error h root = Some o ->
  incl (obj_vals o') (obj_vals o) ->
  region_ok n (update root o' h).
Proof.
  intros Hok Hroot Hincl a oa r Ha Hnth Hin.
  destruct (Nat.eq_dec a root) as [-> | Hne].
  - rewrite nth_error_update_same in Hnth
      by (apply nth_error_Some; congruence).
    injection Hnth as <-. eapply Hok; eauto.
  - rewrite nth_error_update_other in Hnth by exact Hne. eapply Hok; eauto.
Qed.

(** Everything reachable from an object of the region is in the region. *)
Lemma reaches_region n (h : heap) v l :
  region_ok n h -> reaches h v l ->
  (forall r, v = VRef r -> n <= r) -> n <= l.
Proof.
  intros Hok Hreach. induction Hreach as
    [l | l items x l' Hl Hin Hreach IH | l members k x l' Hl Hin Hreach IH];
    intros Hv.
  - now apply Hv.
  - apply IH. intros r ->.
    specialize (Hok l (OList items) r (Hv l eq_refl) Hl Hin). lia.
  - apply IH. intros r ->.
    assert (Hin' : In (VRef r) (obj_vals (ODict members)))
      by (cbn; change (VRef r) with (snd (k, VRef r)); now apply in_map).
    specialize (Hok l (ODict members) r (Hv l eq_refl) Hl Hin'). lia.
Qed.

Lemma region_ok_base (h : heap) : region_ok (List.length h) h.
Proof.
  intros a o r Ha Hnth.
  assert (a < List.length h) by (apply nth_error_Some; congruence). lia.
Qed.

Lemma incl_pop {V} k (d : dict V) : incl (map snd (pop k d)) (map snd d).
Proof.
  induction d as [|[k' v] d IH]; cbn; [easy|].
  destruct (String.eqb k k'); cbn.
  - now apply incl_tl.
  - apply incl_cons; [now left | now apply incl_tl].
Qed.

Lemma all_some_pop fuel h key (vms : dict pyval) (d : dict json) :
  all_some (fun kx => option_map (pair (fst kx)) (reify fuel h (snd kx))) vms
  = Some d ->
  all_some (fun kx => option_map (pair (fst kx)) (reify fuel h (snd kx)))
           (pop key vms)
  = Some (pop key d).
Proof.
  revert d. induction vms as [|[k x] vms IH]; intros d; cbn [all_some pop].
  - now intros [= <-].
  - cbn [fst snd]. destruct (reify fuel h x) as [t|] eqn:Ex; [|discriminate].
    cbn [option_map].
    destruct (all_some _ vms) as [d'|] eqn:E; [|discriminate].
    intros [= <-]. cbn [pop].
    destruct (String.eqb key k); [exact E|].
    cbn [all_some fst snd]. rewrite Ex. cbn [option_map].
    now rewrite (IH d' eq_refl).
Qed.

Lemma alloc_object ms h :
  exists h' vms,
    alloc (JObject ms) h = (h' ++ [ODict vms], VRef (List.length h')).
Proof.
  cbn [alloc]. destruct (fold_left _ ms (h, [])) as [h' vms]. eauto.
Qed.

End HeapFacts.

(** C6: for a settings record that denotes the object [d], the sanitizer
    returns a record that denotes [d] without its [compilationTarget]
    member (the other members, and their order, are those of [d]); when
    [d] has no such member the result denotes [d] itself; the original
    still denotes [d]; every object of the result is a new object of the
    store, so that overwriting any object of the result, or any number of
    objects at new addresses, alters nothing of what a value of the store
    before the call denotes. *)
Theorem sanitize_settings_deep_copy
    (h : Heap.heap) (settings : Heap.pyval) (d : dict json) :
  Heap.value_of h settings = Some (JObject d) ->
  wf_json (JObject d) ->
  exists h' copy,
    Heap.sanitize_settings h settings = Ok (h', copy) /\
    Heap.value_of h' copy = Some (JObject (pop "compilationTarget" d)) /\
    sanitize_settings (JObject d) = Ok (JObject (pop "compilationTarget" d)) /\
    get "compilationTarget" (pop "compilationTarget" d) = None /\
    (forall k, k <> "compilationTarget" ->
               get k (pop "compilationTarget" d) = get k d) /\
    (get "compilationTarget" d = None -> pop "compilationTarget" d = d) /\
    Heap.value_of h' settings = Some (JObject d) /\
    (forall l, Heap.reaches h' copy l -> List.length h <= l) /\
    (forall l o, Heap.reaches h' copy l ->
                 Heap.value_of (Heap.update l o h') settings = Some (JObject d)) /\
    (forall h'' x t fuel,
       Heap.agree_below (List.length h) h' h'' ->
       Heap.reify fuel h x = Some t -> Heap.reify fuel h'' x = Some t).
Proof.
  intros Hval Hwf.
  pose proof (JsonRoundTrip.loads_dumps true None _ Hwf) as Hround.
  destruct (HeapFacts.alloc_object d h) as (h0 & vms & Halloc).
  destruct (HeapFacts.alloc_spec (List.length h) (JObject d) h
              (le_n _) (HeapFacts.region_ok_base h))
    as (new & Hfst & Hlen & Hok & Hr & Hreify).
  rewrite Halloc in Hfst, Hr, Hreify. cbn [fst snd] in Hfst, Hr, Hreify.
  specialize (Hr _ eq_refl).
  set (root := List.length h0) in *.
  set (h1 := (h0 ++ [Heap.ODict vms])%list) in *.
  assert (Hroot : nth_error h1 root = Some (Heap.ODict vms))
    by apply HeapFacts.nth_error_snoc.
  assert (Hlen1 : List.length h1 = List.length h + Heap.containers (JObject d))
    by (rewrite Hfst, length_app; lia).
  set (h2 := Heap.update root
               (Heap.ODict (pop "compilationTarget" vms)) h1).
  assert (Hlen2 : List.length h2 = List.length h1)
    by apply HeapFacts.length_update.
  assert (Hagree : Heap.agree_below (List.length h) h h2).
  { apply (HeapFacts.agree_below_trans _ h h1 h2).
    - rewrite Hfst. apply HeapFacts.agree_below_app.
    - apply HeapFacts.agree_below_update. lia. }
  assert (Hok1 : Heap.region_ok (List.length h) h1) by (now rewrite Hfst).
  assert (Hfresh : forall l, Heap.reaches h2 (Heap.VRef root) l ->
                             List.length h <= l).
  { intros l Hreach.
    apply (HeapFacts.reaches_region (List.length h) h2 (Heap.VRef root) l);
      [| exact Hreach | intros r [= <-]; lia].
    apply (HeapFacts.region_ok_update _ _ _ (Heap.ODict vms));
      [exact Hok1 | exact Hroot | apply HeapFacts.incl_pop]. }
  exists h2, (Heap.VRef root).
  split; [|split; [|split; [|split; [|split; [|split; [|split; [|split; [|split]]]]]]]].
  - unfold Heap.sanitize_settings, Heap.py_dumps, Heap.py_loads.
    rewrite Hval, Hround, Halloc. unfold Heap.py_pop.
    fold h1 root. now rewrite Hroot.
  - unfold Heap.value_of. rewrite Hlen2. cbn [Heap.reify]. unfold h2.
    rewrite HeapFacts.nth_error_update_same
      by (apply nth_error_Some; congruence).
    specialize (Hreify (S (List.length h1)) ltac:(lia)).
    rewrite <- Hfst in Hreify. cbn [Heap.reify] in Hreify.
    rewrite Hroot in Hreify.
    destruct (Heap.all_some _ vms) as [d'|] eqn:E; [|discriminate].
    injection Hreify as ->.
    apply (HeapFacts.all_some_pop _ _ "compilationTarget") in E.
    rewrite (HeapFacts.all_some_ext _
               (fun kx => option_map (pair (fst kx))
                            (Heap.reify (List.length h1) h1 (snd kx))));
      [now rewrite E|].
    intros [k x] Hin. cbn [fst snd]. f_equal.
    apply (HeapFacts.reify_update_below (List.length h)); [exact Hok1|].
    intros r ->.
    apply (Hok1 root (Heap.ODict vms) r); [lia | exact Hroot |].
    cbn [Heap.obj_vals]. apply (HeapFacts.incl_pop "compilationTarget").
    change (Heap.VRef r) with (snd (k, Heap.VRef r)). now apply in_map.
  - unfold sanitize_settings, json_loads. now rewrite Hround.
  - apply get_pop_same. apply Hwf.
  - intros k Hk. now apply get_pop_other.
  - apply pop_absent.
  - unfold Heap.value_of in *.
    apply (HeapFacts.reify_fuel_mono (S (List.length h))); [lia|].
    eapply HeapFacts.reify_agree; [exact Hagree | exact Hval].
  - exact Hfresh.
  - intros l o Hreach. specialize (Hfresh l Hreach).
    unfold Heap.value_of in *. rewrite HeapFacts.length_update.
    apply (HeapFacts.reify_fuel_mono (S (List.length h))); [lia|].
    eapply HeapFacts.reify_agree; [|exact Hval].
    eapply HeapFacts.agree_below_trans; [exact Hagree|].
    now apply HeapFacts.agree_below_update.
  - intros h'' x t fuel Hagree'' Hx.
    eapply HeapFacts.reify_agree; [|exact Hx].
    eapply HeapFacts.agree_below_trans; eassumption.
Qed.

(** Scenario C of the specification, through the theorem, on a store that
    holds the settings and the two records nested in them. *)
Lemma sanitize_settings_deep_copy_witness :
  let h := [Heap.ODict [("enabled", Heap.VBool true)];
            Heap.ODict [("src/Pool.sol", Heap.VStr "Pool")];
            Heap.ODict [("optimizer", Heap.VRef 0);
                        ("compilationTarget", Heap.VRef 1)]] in
  let d := [("optimizer", JObject [("enabled", JBool true)]);
            ("compilationTarget", JObject [("src/Pool.sol", JStr "Pool")])] in
  exists h' copy,
    Heap.sanitize_settings h (Heap.VRef 2) = Ok (h', copy) /\
    Heap.value_of h' copy =
    Some (JObject [("optimizer", JObject [("enabled", JBool true)])]) /\
    Heap.value_of h' (Heap.VRef 2) = Some (JObject d) /\
    (forall l, Heap.reaches h' copy l -> 3 <= l).
Proof.
  intros h d.
  destruct (sanitize_settings_deep_copy h (Heap.VRef 2) d)
    as (h' & copy & Hrun & Hval & _ & _ & _ & _ & Horig & Hfresh & _ & _).
  - reflexivity.
  - cbn. repeat split; repeat constructor; cbn; intuition discriminate.
  - exists h', copy. repeat split; assumption.
Defined.

(** ** Assembler *)

Section AssemblerFacts.

Lemma In_pop {V} k (d : dict V) kx : In kx (pop k d) -> In kx d.
Proof.
  induction d as [|[k' v] d IH]; cbn; [tauto|].
  destruct (String.eqb k k'); cbn; [tauto|].
  intros [H | H]; [now left | right; auto].
Qed.

Lemma wf_pop {V} k (d : dict V) : wf d -> wf (pop k d).
Proof.
  unfold wf, keys. induction d as [|[k' v] d IH]; cbn; [trivial|].
  intros H. inversion H as [|? ? Hnotin Hnd]; subst.
  destruct (String.eqb k k'); [exact Hnd|].
  cbn. constructor; [|auto].
  intros Hin. apply Hnotin. apply in_map_iff in Hin as (kx & Hk & Hin).
  apply In_pop in Hin. rewrite <- Hk. now apply in_map.
Qed.

Lemma wf_expand_alias_sources sources remaps :
  wf sources -> wf (expand_alias_sources sources remaps).
Proof.
  unfold expand_alias_sources. generalize sources at 1 3 as expanded.
  induction remaps as [|[alias target] remaps IH]; intros expanded Hwf;
    cbn [fold_left]; [exact Hwf|].
  apply IH. unfold expand_rule. clear IH.
  revert expanded Hwf.
  induction sources as [|[path content] items IH]; intros expanded Hwf;
    cbn [fold_left]; [exact Hwf|].
  apply IH. unfold expand_item.
  destruct (startswith path target); [|exact Hwf].
  destruct (negb _); [now apply JsonWf.wf_set | exact Hwf].
Qed.

Lemma wf_read_sources_loop ROOT paths sources w result :
  wf sources ->
  fst (read_sources_loop ROOT paths sources w) = Ok result -> wf result.
Proof.
  revert sources. induction paths as [|path paths IH]; intros sources Hwf;
    cbn [read_sources_loop].
  - now intros [= <-].
  - unfold bind at 1, path_exists.
    destruct (contains _ (files w) || is_dir _ w); cbn [negb]; [|discriminate].
    unfold bind at 1, read_text.
    destruct (get _ (files w)).
    + apply IH. now apply JsonWf.wf_set.
    + destruct (is_dir _ w); [discriminate|].
      destruct (under_file _ w); discriminate.
Qed.

Lemma wf_read_sources ROOT metadata w sources :
  fst (read_sources ROOT metadata w) = Ok sources -> wf sources.
Proof.
  unfold read_sources, bind, lift.
  destruct (getitem metadata "sources") as [listed|]; [|discriminate].
  destruct (json_keys listed) as [paths|]; [|discriminate].
  apply wf_read_sources_loop. constructor.
Qed.

Lemma wf_json_loads text v : json_loads text = Ok v -> wf_json v.
Proof.
  unfold json_loads. destruct (Json.loads text) eqn:E; [|discriminate].
  intros [= <-]. eapply JsonWf.loads_wf, E.
Qed.

Lemma wf_getitem v key x : wf_json v -> getitem v key = Ok x -> wf_json x.
Proof.
  destruct v as [ | | | | |d]; try discriminate. cbn [getitem].
  destruct (get key d) eqn:E; [|discriminate].
  intros Hwf [= <-]. eapply JsonWf.wf_json_get; eauto.
Qed.

Lemma wf_load_artifact ROOT w metadata :
  fst (load_artifact ROOT w) = Ok metadata -> wf_json metadata.
Proof.
  unfold load_artifact, bind, read_text, lift.
  destruct (get _ (files w));
    [|destruct (is_dir _ w); [|destruct (under_file _ w)]; discriminate].
  destruct (json_loads s) as [data|] eqn:Edata; [|discriminate].
  apply wf_json_loads in Edata. cbn [fst]. unfold metadata_of.
  destruct (getitem data "metadata") as [m|] eqn:Em; [|discriminate].
  apply (wf_getitem _ _ _ Edata) in Em.
  destruct m; try (now intros [= <-]). apply wf_json_loads.
Qed.

Lemma wf_sanitize_settings original settings :
  sanitize_settings original = Ok settings -> wf_json settings.
Proof.
  unfold sanitize_settings.
  destruct (json_loads _) as [copy|] eqn:E; [|discriminate].
  apply wf_json_loads in E.
  destruct copy as [ | | | | |d]; try discriminate.
  intros [= <-].
  apply JsonRoundTrip.wf_json_members in E as [Hwf Hall].
  apply JsonWf.wf_json_object; [now apply wf_pop|].
  rewrite Forall_forall in *. intros kx Hin. apply Hall.
  now apply In_pop in Hin.
Qed.

Lemma wf_standard_json language all_sources settings :
  wf_json language -> wf all_sources -> wf_json settings ->
  wf_json (standard_json language all_sources settings).
Proof.
  intros Hlang Hsrc Hset. unfold standard_json.
  apply JsonWf.wf_json_object.
  - repeat constructor; cbn; intuition discriminate.
  - constructor; [exact Hlang|]. constructor; [|now repeat constructor].
    cbn [snd]. apply JsonWf.wf_json_object.
    + unfold wf, keys in *. now rewrite map_map.
    + rewrite Forall_map. apply Forall_forall. intros [p c] _. cbn [snd].
      apply JsonWf.wf_json_object; repeat constructor. cbn. tauto.
Qed.

End AssemblerFacts.

(** ** The encoder writes the format of the specification *)

Module LayoutFacts.
Import Json Layout.

Lemma written_escape s : written s = escape_string false s.
Proof.
  induction s as [|c s IH]; cbn [written escape_string]; [reflexivity|].
  rewrite IH. f_equal.
  destruct c as [[] [] [] [] [] [] [] []]; reflexivity.
Qed.

Lemma quoted_written s : quoted (written s) = encode_string false s.
Proof. unfold quoted, encode_string. now rewrite written_escape. Qed.

Lemma written_verbatim s : all_chars verbatim s = true -> written s = s.
Proof.
  induction s as [|c s IH]; cbn [written all_chars]; [reflexivity|].
  intros H. apply andb_prop in H as [Hc Hs]. now rewrite Hc, (IH Hs).
Qed.

Lemma spaces_indentation depth : spaces (2 * depth) = indentation depth.
Proof.
  induction depth as [|depth IH]; [reflexivity|].
  replace (2 * S depth) with (S (S (2 * depth))) by lia.
  cbn [spaces indentation]. now rewrite IH.
Qed.

Lemma newline_indent_indentation depth :
  newline_indent (Some 2) depth = newline ++ indentation depth.
Proof. unfold newline_indent. now rewrite spaces_indentation. Qed.

Lemma item_separator_indentation depth :
  item_separator (Some 2) depth = ("," ++ newline) ++ indentation depth.
Proof. unfold item_separator. now rewrite newline_indent_indentation. Qed.

(** The lines the encoder writes one after the other are the lines of a
    block. *)
Lemma fold_lines {A} (sep margin tail : string) (g : A -> string) xs :
  forall x,
    margin ++ g x ++
    fold_right (fun y more => (sep ++ margin) ++ g y ++ more) tail xs =
    String.concat sep (map (fun y => margin ++ g y) (x :: xs)) ++ tail.
Proof.
  induction xs as [|y ys IH]; intros x.
  - cbn [fold_right map String.concat].
    symmetry. apply ParserFacts.append_assoc.
  - cbn [fold_right]. change (map (fun z => margin ++ g z) (x :: y :: ys))
      with ((margin ++ g x) :: map (fun z => margin ++ g z) (y :: ys)).
    change (String.concat sep
              ((margin ++ g x) :: map (fun z => margin ++ g z) (y :: ys)))
      with ((margin ++ g x) ++ sep ++
            String.concat sep (map (fun z => margin ++ g z) (y :: ys))).
    rewrite !ParserFacts.append_assoc. do 3 f_equal. apply IH.
Qed.

Lemma fold_right_ext {A} (f g : A -> string -> string) tail xs :
  Forall (fun x => forall more, f x more = g x more) xs ->
  fold_right f tail xs = fold_right g tail xs.
Proof.
  induction 1 as [|x xs Hx Hxs IH]; cbn [fold_right]; [reflexivity|].
  now rewrite IH, Hx.
Qed.

Lemma map_ext_Forall {A B} (f g : A -> B) xs :
  Forall (fun x => f x = g x) xs -> map f xs = map g xs.
Proof.
  induction 1 as [|x xs Hx Hxs IH]; cbn [map]; [reflexivity|].
  now rewrite IH, Hx.
Qed.

(** With [indent=2] and [ensure_ascii=False] the encoder writes the
    format of the specification, at every depth. *)
Lemma dumps_at_pretty v :
  forall depth, dumps_at false (Some 2) depth v = pretty depth v.
Proof.
  induction v as [ | [] | n | s | items IH | members IH ] using JsonFacts.json_ind;
    intros depth; try reflexivity.
  - cbn [dumps_at pretty]. symmetry. apply quoted_written.
  - destruct items as [|x xs]; [reflexivity|].
    inversion IH as [|? ? Hx Hxs]; subst.
    cbn [dumps_at]. unfold pretty; fold pretty. unfold block.
    rewrite newline_indent_indentation, newline_indent_indentation.
    rewrite (fold_right_ext _
               (fun y more =>
                  (("," ++ newline) ++ indentation (S depth)) ++
                  pretty (S depth) y ++ more)).
    + rewrite Hx. rewrite !ParserFacts.append_assoc. do 2 f_equal.
      rewrite (fold_lines ("," ++ newline) (indentation (S depth)) _
                 (pretty (S depth)) xs x).
      now rewrite map_map.
    + eapply Forall_impl; [|exact Hxs]. intros y Hy more.
      now rewrite item_separator_indentation, Hy.
  - destruct members as [|[k x] ms]; [reflexivity|].
    inversion IH as [|? ? Hx Hms]; subst. cbn [snd] in Hx.
    cbn [dumps_at fst snd]. unfold pretty; fold pretty. unfold block.
    rewrite newline_indent_indentation, newline_indent_indentation.
    unfold key_separator.
    rewrite (fold_right_ext _
               (fun ky more =>
                  (("," ++ newline) ++ indentation (S depth)) ++
                  (quoted (written (fst ky)) ++ ": " ++
                   pretty (S depth) (snd ky)) ++ more)).
    + rewrite Hx, <- quoted_written.
      rewrite !ParserFacts.append_assoc. do 2 f_equal.
      pose proof (fold_lines ("," ++ newline) (indentation (S depth))
                    (newline ++ indentation depth ++ "}")
                    (fun kx => quoted (written (fst kx)) ++ ": " ++
                               pretty (S depth) (snd kx)) ms (k, x)) as H.
      cbn [fst snd] in H. rewrite !ParserFacts.append_assoc in H.
      rewrite map_map. exact H.
    + eapply Forall_impl; [|exact Hms]. intros ky Hy more.
      rewrite item_separator_indentation, Hy, <- quoted_written.
      now rewrite !ParserFacts.append_assoc.
Qed.

Lemma dumps_pretty v : dumps false (Some 2) v = pretty 0 v.
Proof. apply dumps_at_pretty. Qed.

End LayoutFacts.

(** The last three lines of [main]: what they need, and what they do. *)
Lemma write_and_print_inv dir path text line w w' :
  (mkdir_parents dir ;; write_text path text ;; print line) w = (Ok tt, w') ->
  contains dir (files w) = false /\ under_file dir w = false /\
  is_dir path w = false /\ under_file path w = false /\
  w' = {| files := set path text (files w);
          stdout := (stdout w ++ [line])%list |}.
Proof.
  unfold bind, mkdir_parents, write_text, print.
  destruct (contains dir (files w)); [discriminate|].
  destruct (under_file dir w); [discriminate|].
  destruct (is_dir path w); [discriminate|].
  destruct (under_file path w); [discriminate|].
  cbn [files stdout]. intros [= <-]. auto.
Qed.

Lemma write_and_print_err dir path text line w e w' :
  (mkdir_parents dir ;; write_text path text ;; print line) w = (Err e, w') ->
  w' = w.
Proof.
  unfold bind, mkdir_parents, write_text, print.
  destruct (contains dir (files w)); [now intros [= _ <-]|].
  destruct (under_file dir w); [now intros [= _ <-]|].
  destruct (is_dir path w); [now intros [= _ <-]|].
  destruct (under_file path w); [now intros [= _ <-]|].
  discriminate.
Qed.

Lemma write_and_print_ok dir path text line w :
  contains dir (files w) = false -> under_file dir w = false ->
  is_dir path w = false -> under_file path w = false ->
  (mkdir_parents dir ;; write_text path text ;; print line) w =
  (Ok tt, {| files := set path text (files w);
             stdout := (stdout w ++ [line])%list |}).
Proof.
  intros H1 H2 H3 H4. unfold bind, mkdir_parents, write_text, print.
  now rewrite H1, H2, H3, H4.
Qed.

(** C8: after a successful run the output file holds a document of
    exactly the members [language], [sources] and [settings], in this
    order; [sources] has one member per entry of the expanded source map,
    in the order of the map, each of the form [{content: text}]; the
    language is the one of the metadata and the settings are the sanitized
    ones.  The text of the file is this document in the format of the
    specification ([Layout.pretty]): one member per line, two spaces of
    indentation per level, the members in the order just given, and the
    characters of every string from U+0020 on left as they are, those
    above U+007F among them, the quote and the backslash apart.  Decoding
    the file gives the document back, and no other file is touched. *)
Theorem main_writes_standard_json
    (ROOT : string) (literal_eval : string -> result (list string))
    (w w' : world) :
  main ROOT literal_eval w = (Ok tt, w') ->
  exists metadata sources remaps original language settings,
    fst (load_artifact ROOT w) = Ok metadata /\
    fst (read_sources ROOT metadata w) = Ok sources /\
    fst (parse_remappings ROOT literal_eval w) = Ok remaps /\
    getitem metadata "settings" = Ok original /\
    sanitize_settings original = Ok settings /\
    getitem metadata "language" = Ok language /\
    get (OUTPUT ROOT) (files w') =
    Some (Layout.pretty 0
            (JObject
               [("language", language);
                ("sources",
                 JObject
                   (map (fun item =>
                           (fst item, JObject [("content", JStr (snd item))]))
                        (expand_alias_sources sources remaps)));
                ("settings", settings)])) /\
    option_map Json.loads (get (OUTPUT ROOT) (files w')) =
    Some (Some
            (JObject
               [("language", language);
                ("sources",
                 JObject
                   (map (fun item =>
                           (fst item, JObject [("content", JStr (snd item))]))
                        (expand_alias_sources sources remaps)));
                ("settings", settings)])) /\
    (forall path, path <> OUTPUT ROOT ->
                  get path (files w') = get path (files w)).
Proof.
  unfold main. intros H.
  apply bind_ok_inv in H as (metadata & w1 & Hload & H).
  assert (w1 = w) by (eapply read_only_run;
                      [apply read_only_load_artifact | exact Hload]).
  subst w1.
  apply bind_ok_inv in H as (sources & w1 & Hread & H).
  assert (w1 = w) by (eapply read_only_run;
                      [apply read_only_read_sources | exact Hread]).
  subst w1.
  apply bind_ok_inv in H as (remaps & w1 & Hparse & H).
  assert (w1 = w) by (eapply read_only_run;
                      [apply read_only_parse_remappings | exact Hparse]).
  subst w1.
  apply bind_ok_inv in H as (original & w1 & Horig & H).
  unfold lift in Horig. injection Horig as Horig <-.
  apply bind_ok_inv in H as (settings & w1 & Hsan & H).
  unfold lift in Hsan. injection Hsan as Hsan <-.
  apply bind_ok_inv in H as (language & w1 & Hlang & H).
  unfold lift in Hlang. injection Hlang as Hlang <-.
  apply write_and_print_inv in H as (_ & _ & _ & _ & ->).
  exists metadata, sources, remaps, original, language, settings.
  rewrite Hload, Hread, Hparse. cbn [fst files].
  assert (Hwf : wf_json (standard_json language
                           (expand_alias_sources sources remaps) settings)).
  { assert (Hm : wf_json metadata)
      by (apply (wf_load_artifact ROOT w); now rewrite Hload).
    apply wf_standard_json.
    - eapply wf_getitem; eauto.
    - apply wf_expand_alias_sources, (wf_read_sources ROOT metadata w).
      now rewrite Hread.
    - eapply wf_sanitize_settings; eauto. }
  assert (Hfile : get (OUTPUT ROOT) (set (OUTPUT ROOT)
                    (Json.dumps false (Some 2)
                       (standard_json language
                          (expand_alias_sources sources remaps) settings))
                    (files w)) =
                  Some (Json.dumps false (Some 2)
                          (standard_json language
                             (expand_alias_sources sources remaps) settings)))
    by apply get_set_same.
  split; [reflexivity|]. split; [reflexivity|]. split; [reflexivity|].
  split; [exact Horig|]. split; [exact Hsan|]. split; [exact Hlang|].
  split; [|split].
  - rewrite Hfile. f_equal. apply LayoutFacts.dumps_pretty.
  - rewrite Hfile. cbn [option_map].
    now rewrite (JsonRoundTrip.loads_dumps _ _ _ Hwf).
  - intros path Hne. now apply get_set_other.
Qed.

(** A run of scenario B from the artifact to the output file, through the
    theorem: the text of the file, line by line.  The source holds the
    character U+00E9, [String "233" EmptyString]. *)
Lemma main_writes_standard_json_witness :
  let content := "// caf" ++ String "233" EmptyString in
  let metadata :=
    JObject [("language", JStr "Solidity");
             ("sources", JObject [("lib/chainlink/contracts/Token.sol", JObject [])]);
             ("settings", JObject [("optimizer", JObject [("enabled", JBool true)]);
                                   ("compilationTarget",
                                    JObject [("src/Pool.sol", JStr "Pool")])])] in
  let w :=
    {| files :=
         [(ARTIFACT "/p",
           Json.dumps true None
             (JObject [("metadata", JStr (Json.dumps true None metadata))]));
          (FOUNDRY_TOML "/p",
           "remappings = [" ++ quoted "@chainlink/=lib/chainlink/" ++ "]");
          ("/p/lib/chainlink/contracts/Token.sol", content)];
       stdout := [] |} in
  get (OUTPUT "/p") (files (snd (main "/p" py_literal_eval w))) =
  Some (String.concat newline
          [ "{";
            "  " ++ quoted "language" ++ ": " ++ quoted "Solidity" ++ ",";
            "  " ++ quoted "sources" ++ ": {";
            "    " ++ quoted "lib/chainlink/contracts/Token.sol" ++ ": {";
            "      " ++ quoted "content" ++ ": " ++ quoted content;
            "    },";
            "    " ++ quoted "@chainlink/contracts/Token.sol" ++ ": {";
            "      " ++ quoted "content" ++ ": " ++ quoted content;
            "    }";
            "  },";
            "  " ++ quoted "settings" ++ ": {";
            "    " ++ quoted "optimizer" ++ ": {";
            "      " ++ quoted "enabled" ++ ": true";
            "    }";
            "  }";
            "}" ]).
Proof.
  intros content metadata w.
  destruct (main_writes_standard_json "/p" py_literal_eval w
              (snd (main "/p" py_literal_eval w)))
    as (m & sources & remaps & original & language & settings &
        Hload & Hread & Hparse & Horig & Hsan & Hlang & Hout & _).
  - reflexivity.
  - rewrite Hout. f_equal.
    assert (m = metadata) by (injection Hload; auto). subst m.
    injection Hread as <-. injection Hparse as <-.
    injection Horig as <-. injection Hlang as <-.
    injection Hsan as <-. reflexivity.
Defined.

(** * Further properties of the script *)

(** ** Alias Expander: order, size and rules that add nothing *)

Section ExpanderMore.
Implicit Types (sources expanded : dict string) (item rule : string * string).
Implicit Types (remaps : list (string * string)).

Lemma get_app_l {V} k (d d' : dict V) v :
  get k d = Some v -> get k (d ++ d')%list = Some v.
Proof.
  induction d as [|[k' v'] d IH]; cbn; [discriminate|].
  destruct (String.eqb k k'); auto.
Qed.

Lemma contains_app_false {V} k (d d' : dict V) :
  contains k (d ++ d')%list = false -> contains k d = false.
Proof.
  unfold contains. destruct (get k d) as [v|] eqn:E; [|reflexivity].
  now rewrite (get_app_l _ _ d' _ E).
Qed.

(** One iteration leaves the map as it is or appends one entry under a key
    that was not there. *)
Lemma expand_item_appends alias target expanded item :
  expand_item alias target expanded item = expanded \/
  exists k v, contains k expanded = false /\
              expand_item alias target expanded item
              = (expanded ++ [(k, v)])%list.
Proof.
  destruct item as [path content]. unfold expand_item.
  destruct (startswith path target); [|now left].
  destruct (contains _ expanded) eqn:E; cbn [negb]; [now left|].
  right. eexists _, _. split; [exact E|]. now apply keys_set_new.
Qed.

Lemma expand_items_append alias target items expanded :
  exists added,
    fold_left (expand_item alias target) items expanded
    = (expanded ++ added)%list /\
    (forall k, In k (keys added) -> contains k expanded = false) /\
    List.length added <= List.length items.
Proof.
  revert expanded. induction items as [|item items IH]; intros e;
    cbn [fold_left].
  - exists []. rewrite app_nil_r. repeat split; [intros k [] | cbn; lia].
  - destruct (expand_item_appends alias target e item)
      as [-> | (k & v & Hk & ->)].
    + destruct (IH e) as (added & -> & Hnew & Hlen).
      exists added. repeat split; auto. cbn. lia.
    + destruct (IH (e ++ [(k, v)])%list) as (added & -> & Hnew & Hlen).
      exists ((k, v) :: added). rewrite <- app_assoc. cbn [app].
      split; [reflexivity|]. split.
      * intros k' [<- | Hin]; [exact Hk|].
        eapply contains_app_false, Hnew, Hin.
      * cbn. lia.
Qed.

Lemma expand_rules_append sources remaps expanded :
  exists added,
    fold_left (expand_rule sources) remaps expanded
    = (expanded ++ added)%list /\
    (forall k, In k (keys added) -> contains k expanded = false) /\
    List.length added <= List.length remaps * List.length sources.
Proof.
  revert expanded. induction remaps as [|[alias target] remaps IH]; intros e;
    cbn [fold_left].
  - exists []. rewrite app_nil_r. repeat split; [intros k [] | cbn; lia].
  - unfold expand_rule at 2.
    destruct (expand_items_append alias target sources e)
      as (added1 & -> & Hnew1 & Hlen1).
    destruct (IH (e ++ added1)%list) as (added2 & -> & Hnew2 & Hlen2).
    exists (added1 ++ added2)%list. rewrite <- app_assoc.
    split; [reflexivity|]. split.
    + intros k Hin. unfold keys in Hin. rewrite map_app in Hin.
      apply in_app_or in Hin as [Hin | Hin]; [now apply Hnew1|].
      eapply contains_app_false, Hnew2, Hin.
    + rewrite length_app. cbn [List.length]. lia.
Qed.

(** The candidate of every matching path is a key once the loop of its
    rule has run. *)
Lemma expand_items_saturate alias target items expanded path content :
  In (path, content) items -> startswith path target = true ->
  contains (alias ++ slice_from (String.length target) path)
    (fold_left (expand_item alias target) items expanded) = true.
Proof.
  revert expanded. induction items as [|item items IH]; intros e Hin Hp;
    [destruct Hin|]. cbn [fold_left].
  destruct Hin as [-> | Hin]; [|now apply IH].
  assert (Hnow : exists v,
            get (alias ++ slice_from (String.length target) path)
                (expand_item alias target e (path, content)) = Some v).
  { unfold expand_item. rewrite Hp.
    destruct (contains _ e) eqn:E; cbn [negb].
    - now apply contains_get_some.
    - eexists. apply get_set_same. }
  destruct Hnow as [v Hv]. unfold contains.
  now rewrite (expand_items_keep alias target items _ _ _ Hv).
Qed.

(** A rule all of whose candidates are keys already changes nothing. *)
Lemma expand_items_saturated alias target items expanded :
  (forall path content,
     In (path, content) items -> startswith path target = true ->
     contains (alias ++ slice_from (String.length target) path) expanded = true) ->
  fold_left (expand_item alias target) items expanded = expanded.
Proof.
  induction items as [|[path content] items IH]; intros H; cbn [fold_left];
    [reflexivity|].
  assert (Hstep : expand_item alias target expanded (path, content) = expanded).
  { unfold expand_item. destruct (startswith path target) eqn:Hp; [|reflexivity].
    now rewrite (H path content (or_introl eq_refl) Hp). }
  rewrite Hstep. apply IH. intros p c Hin. apply (H p c). now right.
Qed.

Lemma contains_expand_rules sources remaps expanded k :
  contains k expanded = true ->
  contains k (fold_left (expand_rule sources) remaps expanded) = true.
Proof.
  intros H. apply contains_get_some in H as [v Hv]. unfold contains.
  now rewrite (expand_rules_keep sources remaps _ _ _ Hv).
Qed.

Lemma expand_alias_sources_drop_rule sources before alias target after :
  (forall path content,
     In (path, content) sources -> startswith path target = true ->
     contains (alias ++ slice_from (String.length target) path)
       (expand_alias_sources sources before) = true) ->
  expand_alias_sources sources (before ++ (alias, target) :: after) =
  expand_alias_sources sources (before ++ after).
Proof.
  intros H. rewrite expand_alias_sources_at.
  unfold expand_rule at 2. rewrite expand_items_saturated by exact H.
  unfold expand_alias_sources. now rewrite fold_left_app.
Qed.

End ExpanderMore.

(** X1: the expanded map is the source map followed by the aliases: the
    original entries keep their positions, no alias takes the key of an
    original entry, and a run adds at most one alias per rule and source
    path. *)
Theorem expand_alias_sources_appends
    (sources : dict string) (remaps : list (string * string)) :
  exists added,
    expand_alias_sources sources remaps = (sources ++ added)%list /\
    (forall k, In k (keys added) -> ~ In k (keys sources)) /\
    List.length added <= List.length remaps * List.length sources.
Proof.
  destruct (expand_rules_append sources remaps sources)
    as (added & Heq & Hnew & Hlen).
  exists added. split; [exact Heq|]. split; [|exact Hlen].
  intros k Hin. apply contains_false_keys. now apply Hnew.
Qed.

(** X2: a rule that occurs earlier in the list adds nothing when it occurs
    again: the expanded map is the one of the list without the second
    occurrence. *)
Theorem expand_alias_sources_repeated_rule
    (sources : dict string) (b1 b2 after : list (string * string))
    (rule : string * string) :
  expand_alias_sources sources ((b1 ++ rule :: b2) ++ rule :: after) =
  expand_alias_sources sources ((b1 ++ rule :: b2) ++ after).
Proof.
  destruct rule as [alias target].
  apply expand_alias_sources_drop_rule. intros path content Hin Hp.
  rewrite expand_alias_sources_at. apply contains_expand_rules.
  now apply (expand_items_saturate alias target sources _ path content).
Qed.

(** X3: a rule whose alias is its target adds nothing, wherever it stands
    in the list: the candidate of a matching path is the path itself. *)
Theorem expand_alias_sources_identity_rule
    (sources : dict string) (before after : list (string * string))
    (prefix : string) :
  expand_alias_sources sources (before ++ (prefix, prefix) :: after) =
  expand_alias_sources sources (before ++ after).
Proof.
  apply expand_alias_sources_drop_rule. intros path content Hin Hp.
  rewrite <- (startswith_split _ _ Hp).
  unfold expand_alias_sources. apply contains_expand_rules.
  apply contains_keys. change path with (fst (path, content)).
  now apply in_map.
Qed.

(** ** Remapping Parser: where the block is, and what comes out of it *)

Section ParserMore.
Import ParserFacts.

Lemma lstrip_split s :
  exists blanks, s = blanks ++ lstrip s /\ all_chars isspace blanks = true.
Proof.
  induction s as [|c s (blanks & Hs & Hb)]; [now exists EmptyString|].
  cbn [lstrip]. destruct (isspace c) eqn:Ec.
  - exists (String c blanks). cbn. now rewrite Ec, Hb, <- Hs.
  - now exists EmptyString.
Qed.

Lemma isspace_not_lbracket s :
  all_chars isspace s = true ->
  all_chars (fun c => negb (Ascii.eqb c "[")) s = true.
Proof.
  apply all_chars_weaken. intros c Hc.
  destruct (Ascii.eqb c "[") eqn:E; [|reflexivity].
  apply Ascii.eqb_eq in E. subst c. discriminate.
Qed.

Lemma until_rbracket_inv r g :
  until_rbracket r = Some g ->
  exists rest, r = g ++ String "]" rest /\
               all_chars (fun c => negb (Ascii.eqb c "]")) g = true.
Proof.
  revert g. induction r as [|c r IH]; intros g; cbn; [discriminate|].
  destruct (Ascii.eqb c "]") eqn:E.
  - intros [= <-]. apply Ascii.eqb_eq in E. subst c. now exists r.
  - destruct (until_rbracket r) as [g'|]; [|discriminate].
    intros [= <-]. destruct (IH g' eq_refl) as (rest & -> & Hg).
    exists rest. cbn. now rewrite E, Hg.
Qed.

Lemma until_rbracket_block block rest :
  all_chars (fun c => negb (Ascii.eqb c "]")) block = true ->
  until_rbracket (block ++ String "]" rest) = Some block.
Proof.
  induction block as [|c block IH]; cbn; [reflexivity|].
  intros H. apply andb_prop in H as [Hc Hb].
  apply negb_true_iff in Hc. now rewrite Hc, IH.
Qed.

(** A match of the pattern runs through the first opening bracket of the
    text it starts in. *)
Lemma match_remappings_inv s g :
  match_remappings s = Some g ->
  exists head r,
    s = head ++ String "[" r /\
    all_chars (fun c => negb (Ascii.eqb c "[")) head = true /\
    until_rbracket r = Some g.
Proof.
  unfold match_remappings.
  destruct (startswith s "remappings") eqn:Hs; [|discriminate].
  apply startswith_split in Hs.
  change (String.length "remappings") with 10 in Hs.
  destruct (lstrip_split (slice_from 10 s)) as (ws1 & H1 & Hws1).
  destruct (lstrip (slice_from 10 s)) as [|c r1]; [discriminate|].
  destruct (Ascii.eqb c "=") eqn:Ec; [|discriminate].
  apply Ascii.eqb_eq in Ec. subst c.
  destruct (lstrip_split r1) as (ws2 & H2 & Hws2).
  destruct (lstrip r1) as [|c' r']; [discriminate|].
  destruct (Ascii.eqb c' "[") eqn:Ec'; [|discriminate].
  apply Ascii.eqb_eq in Ec'. subst c'. intros Hg.
  exists ("remappings" ++ ws1 ++ String "=" ws2), r'.
  split; [|split; [|exact Hg]].
  - rewrite Hs, H1, H2 at 1. now rewrite !append_assoc.
  - rewrite !all_chars_app. cbn [all_chars].
    rewrite (isspace_not_lbracket _ Hws1), (isspace_not_lbracket _ Hws2).
    reflexivity.
Qed.

Lemma first_lbracket_unique h1 h2 r1 r2 :
  all_chars (fun c => negb (Ascii.eqb c "[")) h1 = true ->
  all_chars (fun c => negb (Ascii.eqb c "[")) h2 = true ->
  h1 ++ String "[" r1 = h2 ++ String "[" r2 -> r1 = r2.
Proof.
  revert h2. induction h1 as [|c h1 IH]; intros [|c' h2] H1 H2 Heq;
    cbn in *.
  - now injection Heq.
  - injection Heq as <- _. discriminate.
  - injection Heq as -> _. discriminate.
  - apply andb_prop in H1 as [_ H1]. apply andb_prop in H2 as [_ H2].
    injection Heq as _ Heq. eauto.
Qed.

Lemma match_remappings_header ws1 ws2 block rest :
  all_chars isspace ws1 = true -> all_chars isspace ws2 = true ->
  all_chars (fun c => negb (Ascii.eqb c "]")) block = true ->
  match_remappings
    ("remappings" ++ ws1 ++ String "=" (ws2 ++ String "[" (block ++ String "]" rest)))
  = Some block.
Proof.
  intros H1 H2 Hb. unfold match_remappings.
  rewrite startswith_append.
  change 10 with (String.length "remappings"). rewrite slice_from_append.
  rewrite lstrip_blanks by exact H1. cbn [lstrip].
  change (isspace "=") with false. cbn iota.
  change (Ascii.eqb "=" "=") with true. cbn iota.
  rewrite lstrip_blanks by exact H2. cbn [lstrip].
  change (isspace "[") with false. cbn iota.
  change (Ascii.eqb "[" "[") with true. cbn iota.
  now apply until_rbracket_block.
Qed.

(** The search finds the block behind the header, whatever bracket-free
    text comes before the header and whatever follows the block. *)
Lemma re_search_block pre ws1 ws2 block rest :
  all_chars (fun c => negb (Ascii.eqb c "[")) pre = true ->
  all_chars isspace ws1 = true -> all_chars isspace ws2 = true ->
  all_chars (fun c => negb (Ascii.eqb c "]")) block = true ->
  re_search
    (pre ++ "remappings" ++ ws1 ++
     String "=" (ws2 ++ String "[" (block ++ String "]" rest)))
  = Some block.
Proof.
  intros Hpre H1 H2 Hb.
  assert (Htail : match_remappings
            ("remappings" ++ ws1 ++
             String "=" (ws2 ++ String "[" (block ++ String "]" rest)))
          = Some block)
    by now apply match_remappings_header.
  assert (Hhead : all_chars (fun c => negb (Ascii.eqb c "["))
                    ("remappings" ++ ws1 ++ String "=" ws2) = true).
  { rewrite !all_chars_app. cbn [all_chars].
    now rewrite (isspace_not_lbracket _ H1), (isspace_not_lbracket _ H2). }
  replace ("remappings" ++ ws1 ++
           String "=" (ws2 ++ String "[" (block ++ String "]" rest)))
    with (("remappings" ++ ws1 ++ String "=" ws2) ++
          String "[" (block ++ String "]" rest)) in *
    by now rewrite !append_assoc.
  remember ("remappings" ++ ws1 ++ String "=" ws2) as header eqn:Eh.
  clear Eh H1 H2.
  induction pre as [|c pre IH].
  - cbn [append].
    destruct (header ++ String "[" (block ++ String "]" rest));
      cbn [re_search]; now rewrite Htail.
  - cbn [all_chars] in Hpre. apply andb_prop in Hpre as [Hc Hpre].
    cbn [append re_search].
    destruct (match_remappings (String c _)) as [g|] eqn:E; [|now apply IH].
    apply match_remappings_inv in E as (head & r & Heq & Hh & Hg).
    f_equal.
    assert (Hr : r = block ++ String "]" rest).
    { apply (first_lbracket_unique head (String c pre ++ header));
        [exact Hh | |].
      - rewrite all_chars_app. cbn [all_chars].
        apply andb_true_intro; split;
          [apply andb_true_intro; split; assumption | exact Hhead].
      - rewrite <- Heq. cbn [append]. now rewrite append_assoc. }
    subst r. rewrite until_rbracket_block in Hg by exact Hb. congruence.
Qed.

Lemma re_search_none text :
  all_chars (fun c => negb (Ascii.eqb c "[")) text = true \/
  all_chars (fun c => negb (Ascii.eqb c "]")) text = true ->
  re_search text = None.
Proof.
  assert (Hmatch : forall s,
            all_chars (fun c => negb (Ascii.eqb c "[")) s = true \/
            all_chars (fun c => negb (Ascii.eqb c "]")) s = true ->
            match_remappings s = None).
  { intros s H. destruct (match_remappings s) as [g|] eqn:E; [|reflexivity].
    apply match_remappings_inv in E as (head & r & -> & _ & Hg).
    apply until_rbracket_inv in Hg as (rest & -> & _).
    rewrite !all_chars_app in H. cbn [all_chars] in H.
    rewrite !all_chars_app in H. cbn [all_chars] in H.
    change (Ascii.eqb "[" "[") with true in H.
    change (Ascii.eqb "]" "]") with true in H.
    cbn [negb andb] in H. rewrite !andb_false_r in H.
    destruct H; discriminate. }
  induction text as [|c text IH]; intros H; cbn [re_search];
    rewrite (Hmatch _ H); [reflexivity|].
  apply IH. cbn in H.
  destruct H as [H | H]; apply andb_prop in H as [_ H]; auto.
Qed.

Lemma split_once_join alias target :
  all_chars (fun c => negb (Ascii.eqb c "=")) alias = true ->
  split_once "=" (alias ++ String "=" target) = Some (alias, target).
Proof.
  induction alias as [|c alias IH]; cbn; [reflexivity|].
  intros H. apply andb_prop in H as [Hc Ha].
  apply negb_true_iff in Hc. now rewrite Hc, IH.
Qed.

Lemma split_once_inv sep s a b :
  split_once sep s = Some (a, b) ->
  s = a ++ String sep b /\
  all_chars (fun c => negb (Ascii.eqb c sep)) a = true.
Proof.
  revert a. induction s as [|c s IH]; intros a; cbn; [discriminate|].
  destruct (Ascii.eqb c sep) eqn:E.
  - intros [= <- <-]. apply Ascii.eqb_eq in E. now subst c.
  - destruct (split_once sep s) as [[a' b']|]; [|discriminate].
    intros [= <- <-]. destruct (IH a' eq_refl) as [-> Ha].
    cbn. now rewrite E, Ha.
Qed.

Lemma split_once_none sep s :
  split_once sep s = None ->
  all_chars (fun c => negb (Ascii.eqb c sep)) s = true.
Proof.
  induction s as [|c s IH]; cbn; [reflexivity|].
  destruct (Ascii.eqb c sep); [discriminate|].
  destruct (split_once sep s) as [[a b]|]; [discriminate|].
  intros _. now rewrite IH.
Qed.

End ParserMore.

(** ** Remapping Parser: comments and the trailing comma *)

Section ConfigFacts.
Import ParserFacts.

Local Abbreviation no_break line :=
  (all_chars (fun c => negb (is_linebreak c)) line = true).

(** Two lines that the parser cannot tell apart: with no closing bracket
    in either, the cleaning loop keeps the same of both; with one in
    both, they agree up to it. *)
Local Abbreviation same_cut x y :=
  (no_break x /\ no_break y /\
   ((no_rbracket x = true /\ no_rbracket y = true /\
     clean_line x = clean_line y) \/
    (no_rbracket x = false /\ no_rbracket y = false /\
     before_first "]" x = before_first "]" y))).

(** The word [remappings] has no proper prefix that is also its suffix:
    a text that starts with it, and holds it again behind [q], holds it
    in [q] already. *)
Lemma startswith_remappings_border q t :
  startswith (q ++ "remappings" ++ t) "remappings" = true ->
  q = EmptyString \/ startswith q "remappings" = true.
Proof.
  intros H.
  do 10 (destruct q as [|? q];
         [ first [ now left
                 | exfalso; cbn in H;
                   repeat (apply andb_prop in H as [? H]);
                   cbn in *; congruence ] |]).
  right. cbn in H |- *. exact H.
Qed.

Lemma re_search_skip pre t :
  occurs "remappings" pre = false ->
  re_search (pre ++ "remappings" ++ t) = re_search ("remappings" ++ t).
Proof.
  induction pre as [|c pre IH]; [reflexivity|].
  intros H. cbn [occurs] in H. apply orb_false_elim in H as [Hs Ho].
  change (String c pre ++ "remappings" ++ t)
    with (String c (pre ++ "remappings" ++ t)).
  cbn [re_search].
  assert (Hm : match_remappings (String c (pre ++ "remappings" ++ t)) = None).
  { unfold match_remappings.
    destruct (startswith (String c (pre ++ "remappings" ++ t)) "remappings")
      eqn:E; [|reflexivity].
    apply (startswith_remappings_border (String c pre) t) in E as [E | E];
      [discriminate | congruence]. }
  rewrite Hm. now apply IH.
Qed.

Lemma match_remappings_config ws1 ws2 s :
  all_chars isspace ws1 = true -> all_chars isspace ws2 = true ->
  match_remappings ("remappings" ++ ws1 ++ String "=" (ws2 ++ String "[" s))
  = until_rbracket s.
Proof.
  intros H1 H2. unfold match_remappings.
  rewrite startswith_append.
  change 10 with (String.length "remappings"). rewrite slice_from_append.
  rewrite lstrip_blanks by exact H1. cbn [lstrip].
  change (isspace "=") with false. cbn iota.
  change (Ascii.eqb "=" "=") with true. cbn iota.
  rewrite lstrip_blanks by exact H2. cbn [lstrip].
  change (isspace "[") with false. cbn iota.
  change (Ascii.eqb "[" "[") with true. cbn iota.
  reflexivity.
Qed.

Lemma before_first_cons sep c s :
  Ascii.eqb c sep = false ->
  before_first sep (String c s) = String c (before_first sep s).
Proof.
  intros E. unfold before_first. cbn [split_once]. rewrite E.
  now destruct (split_once sep s) as [[a b]|].
Qed.

Lemma before_first_head sep s : before_first sep (String sep s) = EmptyString.
Proof. unfold before_first. cbn [split_once]. now rewrite Ascii.eqb_refl. Qed.

Lemma before_first_app_cut sep x t :
  all_chars (fun c => negb (Ascii.eqb c sep)) x = false ->
  before_first sep (x ++ t) = before_first sep x.
Proof.
  induction x as [|c x IH]; cbn [all_chars append]; [discriminate|].
  destruct (Ascii.eqb c sep) eqn:E; cbn [negb andb]; intros H.
  - apply Ascii.eqb_eq in E. subst c. now rewrite !before_first_head.
  - now rewrite !(before_first_cons _ _ _ E), (IH H).
Qed.

Lemma before_first_app_keep sep x t :
  all_chars (fun c => negb (Ascii.eqb c sep)) x = true ->
  before_first sep (x ++ t) = x ++ before_first sep t.
Proof.
  induction x as [|c x IH]; cbn [all_chars append]; [reflexivity|].
  intros H. apply andb_prop in H as [Hc Hx]. apply negb_true_iff in Hc.
  now rewrite (before_first_cons _ _ _ Hc), (IH Hx).
Qed.

Lemma until_rbracket_cut block rest :
  until_rbracket (block ++ String "]" rest) = Some (before_first "]" block).
Proof.
  induction block as [|c block IH]; cbn [append until_rbracket].
  - reflexivity.
  - destruct (Ascii.eqb c "]") eqn:E.
    + apply Ascii.eqb_eq in E. subst c. now rewrite before_first_head.
    + now rewrite IH, (before_first_cons _ _ _ E).
Qed.

(** The block of a configuration is the text between the brackets, up to
    its first closing bracket. *)
Lemma re_search_config pre ws1 ws2 block rest :
  occurs "remappings" pre = false ->
  all_chars isspace ws1 = true -> all_chars isspace ws2 = true ->
  re_search (remappings_config pre ws1 ws2 block rest) =
  Some (before_first "]" block).
Proof.
  intros Hpre H1 H2. unfold remappings_config.
  rewrite (re_search_skip _ _ Hpre).
  pose proof (match_remappings_config ws1 ws2 (block ++ String "]" rest) H1 H2)
    as Hm.
  rewrite until_rbracket_cut in Hm.
  destruct ("remappings" ++ ws1 ++
            String "=" (ws2 ++ String "[" (block ++ String "]" rest)));
    cbn [re_search]; now rewrite Hm.
Qed.

Lemma parse_config literal_eval pre ws1 ws2 block rest :
  occurs "remappings" pre = false ->
  all_chars isspace ws1 = true -> all_chars isspace ws2 = true ->
  parse_remappings_text literal_eval (remappings_config pre ws1 ws2 block rest) =
  parse_block literal_eval (before_first "]" block).
Proof.
  intros Hpre H1 H2. unfold parse_remappings_text.
  now rewrite re_search_config.
Qed.

Lemma parse_block_entries literal_eval a b :
  clean_lines (splitlines a) = clean_lines (splitlines b) ->
  parse_block literal_eval a = parse_block literal_eval b.
Proof. intros H. unfold parse_block. now rewrite H. Qed.

Lemma no_rbracket_newline : no_rbracket newline = true.
Proof. reflexivity. Qed.

(** Blocks whose lines cannot be told apart give the same entries. *)
Lemma cut_lines_same xs ys :
  Forall2 (fun x y => same_cut x y) xs ys ->
  clean_lines (splitlines (before_first "]" (String.concat newline xs))) =
  clean_lines (splitlines (before_first "]" (String.concat newline ys))).
Proof.
  induction 1 as [|x y xs ys (Hx & Hy & Hxy) Hrest IH]; [reflexivity|].
  destruct Hxy as [(Rx & Ry & Hclean) | (Rx & Ry & Hcut)].
  - destruct Hrest as [|x' y' xs' ys' Hxy' Hrest'].
    + cbn [String.concat].
      rewrite (before_first_whole _ _ Rx), (before_first_whole _ _ Ry).
      assert (Hx1 : clean_lines (splitlines x) = clean_lines [x])
        by (apply (clean_lines_join [x]); now repeat constructor).
      assert (Hy1 : clean_lines (splitlines y) = clean_lines [y])
        by (apply (clean_lines_join [y]); now repeat constructor).
      rewrite Hx1, Hy1. cbn [clean_lines]. now rewrite Hclean.
    + change (String.concat newline (x :: x' :: xs'))
        with (x ++ newline ++ String.concat newline (x' :: xs')).
      change (String.concat newline (y :: y' :: ys'))
        with (y ++ newline ++ String.concat newline (y' :: ys')).
      rewrite !(before_first_app_keep _ _ _ Rx), !(before_first_app_keep _ _ _ Ry).
      rewrite !(before_first_app_keep _ _ _ no_rbracket_newline).
      rewrite (splitlines_line_break _ _ Hx), (splitlines_line_break _ _ Hy).
      cbn [clean_lines]. rewrite Hclean, IH. reflexivity.
  - assert (Hcat : forall z zs, exists t, String.concat newline (z :: zs) = z ++ t).
    { intros z [|z' zs]; [exists EmptyString | eexists]; cbn [String.concat];
        [now rewrite append_empty_r | reflexivity]. }
    destruct (Hcat x xs) as [tx ->]. destruct (Hcat y ys) as [ty ->].
    rewrite (before_first_app_cut _ _ _ Rx), (before_first_app_cut _ _ _ Ry).
    now rewrite Hcut.
Qed.

Lemma same_cut_refl x : no_break x -> same_cut x x.
Proof.
  intros H. split; [exact H|]. split; [exact H|].
  destruct (no_rbracket x) eqn:E; [left | right]; auto.
Qed.

Lemma split_once_app sep a b :
  all_chars (fun c => negb (Ascii.eqb c sep)) a = true ->
  split_once sep (a ++ String sep b) = Some (a, b).
Proof.
  induction a as [|c a IH]; cbn [append split_once all_chars].
  - now rewrite Ascii.eqb_refl.
  - intros H. apply andb_prop in H as [Hc Ha].
    apply negb_true_iff in Hc. now rewrite Hc, (IH Ha).
Qed.

(** A line and the line cut at its first [#], when the comment holds no
    closing bracket. *)
Lemma same_cut_comment line :
  no_break line ->
  (forall code text,
     split_once "#" line = Some (code, text) -> no_rbracket text = true) ->
  same_cut line (before_first "#" line).
Proof.
  intros Hline Hcomment.
  split; [exact Hline|]. split; [now apply before_first_keeps|].
  destruct (split_once "#" line) as [[code text]|] eqn:E.
  - destruct (split_once_inv _ _ _ _ E) as [-> Hcode].
    specialize (Hcomment code text eq_refl).
    rewrite (before_first_cut _ _ _ Hcode).
    assert (Hsplit : no_rbracket (code ++ String "#" text) = no_rbracket code).
    { unfold no_rbracket in *. rewrite all_chars_app. cbn [all_chars].
      rewrite Hcomment. cbn. now rewrite andb_true_r. }
    rewrite Hsplit. destruct (no_rbracket code) eqn:Ec; [left | right].
    + repeat split.
      rewrite <- (before_first_cut "#" code text Hcode) at 2.
      symmetry. apply clean_line_before_first.
    + repeat split. now apply before_first_app_cut.
  - unfold before_first. rewrite E. now apply same_cut_refl.
Qed.

Lemma no_rbracket_blanks s :
  all_chars is_inline_blank s = true -> no_rbracket s = true.
Proof.
  apply all_chars_weaken. intros c Hc. unfold is_inline_blank in Hc.
  apply andb_prop in Hc as [Hc _].
  destruct (Ascii.eqb c "]") eqn:E; [|reflexivity].
  apply Ascii.eqb_eq in E. subst c. discriminate.
Qed.

Lemma no_rbracket_app a b :
  no_rbracket (a ++ b) = no_rbracket a && no_rbracket b.
Proof. apply all_chars_app. Qed.

(** Where the first closing bracket of a line without such a comment is:
    in the entry, if anywhere. *)
Lemma render_line_rbracket l :
  line_ok l = true -> comment_ok l = true ->
  no_rbracket (render_line l) = no_rbracket (item l) /\
  (no_rbracket (item l) = false ->
   before_first "]" (render_line l) = lead l ++ before_first "]" (item l)).
Proof.
  intros Hok Hcomment.
  apply line_ok_parts in Hok as (Hlead & Hgap & _).
  apply no_rbracket_blanks in Hlead, Hgap.
  assert (Htail : no_rbracket
                    (comma_text l ++ gap l ++
                     match comment l with
                     | Some text => String "#" text
                     | None => EmptyString
                     end) = true).
  { rewrite !no_rbracket_app, Hgap. unfold comment_ok in Hcomment.
    unfold comma_text. destruct (comma l), (comment l); cbn; auto. }
  unfold render_line. split.
  - rewrite no_rbracket_app, Hlead, no_rbracket_app, Htail.
    cbn. now rewrite andb_true_r.
  - intros Hitem. unfold no_rbracket in *.
    rewrite (before_first_app_keep _ _ _ Hlead).
    now rewrite (before_first_app_cut _ _ _ Hitem).
Qed.

(** Two lines with the same indentation and the same entry. *)
Lemma same_cut_lines l l' :
  line_ok l = true -> line_ok l' = true ->
  comment_ok l = true -> comment_ok l' = true ->
  lead l' = lead l -> item l' = item l ->
  same_cut (render_line l) (render_line l').
Proof.
  intros Hok Hok' Hc Hc' Hlead Hitem.
  split; [now apply render_line_no_break|].
  split; [now apply render_line_no_break|].
  destruct (render_line_rbracket l Hok Hc) as [Hr Hcut].
  destruct (render_line_rbracket l' Hok' Hc') as [Hr' Hcut'].
  rewrite Hitem in Hr', Hcut'. rewrite Hlead in Hcut'. rewrite Hr, Hr'.
  destruct (no_rbracket (item l)) eqn:E; [left | right]; repeat split.
  - rewrite (clean_line_render _ Hok), (clean_line_render _ Hok').
    unfold has_item. now rewrite Hitem.
  - now rewrite (Hcut eq_refl), (Hcut' eq_refl).
Qed.

Lemma plain_block_lines ls :
  Forall2 (fun l l' => lead l' = lead l /\ item l' = item l /\ comment l' = None)
          ls (plain_block ls).
Proof.
  unfold plain_block.
  assert (H : Forall2 (fun l l' => lead l' = lead l /\ item l' = item l /\
                                   comment l' = None)
                      ls (map without_comment ls))
    by (induction ls; constructor; auto).
  revert H. generalize (map without_comment ls) as ls0.
  intros ls0 H. induction H as [|l l0 ls ls0 Hl Hls IH]; [constructor|].
  cbn [without_trailing_comma].
  destruct (existsb has_item ls0); constructor; auto.
Qed.

End ConfigFacts.




(** X4: a configuration without an opening bracket, or without a closing
    one, has no remappings block: the parser returns the empty list, and
    the literal evaluator is not consulted. *)
Theorem parse_remappings_no_block
    (literal_eval : string -> result (list string)) (text : string) :
  all_chars (fun c => negb (Ascii.eqb c "[")) text = true \/
  all_chars (fun c => negb (Ascii.eqb c "]")) text = true ->
  parse_remappings_text literal_eval text = Ok [].
Proof.
  intros H. unfold parse_remappings_text. now rewrite re_search_none.
Qed.

Lemma parse_remappings_no_block_witness :
  parse_remappings_text (fun _ => Err SyntaxError)
    ("[profile.default" ++ newline ++ "src = 'src'") = Ok [].
Proof.
  apply parse_remappings_no_block. right. reflexivity.
Defined.

(** X5: the block the parser works on is the text between the first
    opening bracket after [remappings =] and the first closing bracket
    after it: neither bracket-free text before the header, nor the white
    space around [=], nor anything after the closing bracket (a second
    block, say) has any influence. *)
Theorem parse_remappings_block_position
    (literal_eval : string -> result (list string))
    (pre ws1 ws2 block rest : string) :
  all_chars (fun c => negb (Ascii.eqb c "[")) pre = true ->
  all_chars isspace ws1 = true -> all_chars isspace ws2 = true ->
  all_chars (fun c => negb (Ascii.eqb c "]")) block = true ->
  parse_remappings_text literal_eval
    (pre ++ "remappings" ++ ws1 ++
     String "=" (ws2 ++ String "[" (block ++ String "]" rest)))
  = parse_block literal_eval block.
Proof.
  intros Hpre H1 H2 Hb. unfold parse_remappings_text.
  now rewrite re_search_block.
Qed.

Lemma parse_remappings_block_position_witness :
  parse_remappings_text py_literal_eval
    (("# build" ++ newline) ++ "remappings" ++ " " ++
     String "=" (newline ++ String "[" (quoted "a/=lib/a/" ++
       String "]" (newline ++ "remappings = ['b/=lib/b/']"))))
  = Ok [("a/", "lib/a/")].
Proof.
  etransitivity;
    [apply (parse_remappings_block_position py_literal_eval
              ("# build" ++ newline) " " newline (quoted "a/=lib/a/"));
     reflexivity
    | reflexivity].
Defined.



(** X7: the strings of the literal are split at their first [=]: when the
    split succeeds, every string is [alias=target] of its rule, in order,
    and no alias holds a [=]; it fails, with a [ValueError], exactly when
    some string holds no [=]. *)
Theorem split_rules_spec (items : list string) :
  match split_rules items with
  | Ok rules =>
      items = map rule_text rules /\
      Forall (fun rule =>
                all_chars (fun c => negb (Ascii.eqb c "=")) (fst rule) = true)
             rules /\
      Forall (fun item =>
                all_chars (fun c => negb (Ascii.eqb c "=")) item = false)
             items
  | Err e =>
      e = ValueError /\
      exists item, In item items /\
                   all_chars (fun c => negb (Ascii.eqb c "=")) item = true
  end.
Proof.
  induction items as [|item items IH]; cbn [split_rules].
  - repeat split; constructor.
  - destruct (split_once "=" item) as [[alias target]|] eqn:E.
    + apply split_once_inv in E as [-> Halias].
      destruct (split_rules items) as [rules|e].
      * destruct IH as (-> & Hrules & Hitems).
        split; [reflexivity|]. split; constructor; auto.
        rewrite ParserFacts.all_chars_app. cbn [all_chars].
        rewrite Ascii.eqb_refl. cbn. now rewrite andb_false_r.
      * destruct IH as (-> & item' & Hin & Hno).
        split; [reflexivity|]. exists item'. split; [now right | exact Hno].
    + split; [reflexivity|]. exists item.
      split; [now left | now apply split_once_none].
Qed.

(** ** The parser with the literal evaluator *)

Section LiteralFacts.

Lemma py_string_body_plain s rest :
  all_chars py_plain s = true ->
  py_string_body dquote (s ++ String dquote rest) = Some (s, rest).
Proof.
  induction s as [|c s IH]; intros H; [reflexivity|].
  cbn [all_chars] in H. apply andb_prop in H as [Hc Hs].
  unfold py_plain in Hc.
  apply andb_prop in Hc as [Hc Hnul]. apply andb_prop in Hc as [Hc Hcr].
  apply andb_prop in Hc as [Hc Hlf]. apply andb_prop in Hc as [Hq Hb].
  apply negb_true_iff in Hq, Hb, Hlf, Hcr, Hnul.
  cbn [append py_string_body].
  now rewrite Hq, Hb, Hlf, Hcr, Hnul, (IH Hs).
Qed.

Lemma py_string_quoted s rest :
  all_chars py_plain s = true ->
  py_string (quoted s ++ rest) = Some (s, rest).
Proof.
  intros H. unfold quoted. cbn [append py_string].
  rewrite ParserFacts.append_assoc. cbn [append].
  change (Ascii.eqb dquote dquote || Ascii.eqb dquote squote) with true.
  cbv iota. now apply py_string_body_plain.
Qed.

Lemma skip_py_blanks_quoted s rest :
  skip_py_blanks (quoted s ++ rest) = quoted s ++ rest.
Proof. reflexivity. Qed.

Lemma py_elements_entries strs :
  forall fuel,
    strs <> [] ->
    Forall (fun s => all_chars py_plain s = true) strs ->
    List.length strs <= fuel ->
    py_elements fuel (String.concat "," (map quoted strs) ++ "]") = Some strs.
Proof.
  induction strs as [|s strs IH]; intros fuel Hne Hall Hfuel; [congruence|].
  destruct fuel as [|fuel]; [cbn in Hfuel; lia|].
  inversion Hall as [|? ? Hs Hrest]; subst.
  cbn [py_elements]. destruct strs as [|s' strs].
  - cbn [map String.concat]. rewrite skip_py_blanks_quoted.
    unfold quoted at 1. cbn [append].
    change (Ascii.eqb dquote "]") with false. cbv iota.
    change (String dquote (append (append s (String dquote EmptyString)) "]"))
      with (quoted s ++ "]").
    now rewrite (py_string_quoted _ _ Hs).
  - change (String.concat "," (map quoted (s :: s' :: strs)))
      with (quoted s ++ "," ++ String.concat "," (map quoted (s' :: strs))).
    rewrite ParserFacts.append_assoc, skip_py_blanks_quoted.
    unfold quoted at 1. cbn [append].
    change (Ascii.eqb dquote "]") with false. cbv iota.
    match goal with
    | |- context [py_string (String dquote ?t)] =>
        change (String dquote t)
          with (quoted s ++
                String "," (String.concat "," (map quoted (s' :: strs)) ++ "]"))
    end.
    rewrite (py_string_quoted _ _ Hs). cbn [skip_py_blanks].
    change (is_py_blank ",") with false. cbv iota.
    change (Ascii.eqb "," ",") with true. cbv iota.
    rewrite IH; [reflexivity | discriminate | exact Hrest |].
    cbn [List.length] in *. lia.
Qed.

Lemma length_concat_quoted strs :
  List.length strs <= String.length (String.concat "," (map quoted strs)).
Proof.
  induction strs as [|s strs IH]; [apply Nat.le_0_l|].
  destruct strs as [|s' strs].
  - cbn. lia.
  - change (String.concat "," (map quoted (s :: s' :: strs)))
      with (quoted s ++ "," ++ String.concat "," (map quoted (s' :: strs))).
    rewrite !ParserFacts.length_append. unfold quoted at 1.
    cbn [String.length List.length] in *. lia.
Qed.

Lemma py_literal_eval_entries strs :
  strs <> [] ->
  Forall (fun s => all_chars py_plain s = true) strs ->
  py_literal_eval ("[" ++ String.concat "," (map quoted strs) ++ "]") = Ok strs.
Proof.
  intros Hne Hall. unfold py_literal_eval. cbn [append skip_py_blanks].
  change (is_py_blank "[") with false. cbv iota.
  change (Ascii.eqb "[" "[") with true. cbv iota.
  rewrite py_elements_entries; auto.
  rewrite ParserFacts.length_append.
  pose proof (length_concat_quoted strs). lia.
Qed.

Lemma split_rules_rule_text rules :
  Forall (fun rule =>
            all_chars (fun c => negb (Ascii.eqb c "=")) (fst rule) = true) rules ->
  split_rules (map rule_text rules) = Ok rules.
Proof.
  induction 1 as [|[alias target] rules Hr Hrs IH]; [reflexivity|].
  cbn [map split_rules]. unfold rule_text at 1. cbn [fst snd append].
  now rewrite (split_once_join _ _ Hr), IH.
Qed.

Lemma rule_char_plain s : all_chars rule_char s = true -> all_chars py_plain s = true.
Proof.
  apply ParserFacts.all_chars_weaken. unfold rule_char. intros c Hc.
  apply andb_prop in Hc as [Hc _]. apply andb_prop in Hc as [Hc _].
  now apply andb_prop in Hc as [Hc _].
Qed.

Lemma rule_char_no_rbracket s : all_chars rule_char s = true -> no_rbracket s = true.
Proof.
  apply ParserFacts.all_chars_weaken. unfold rule_char. intros c Hc.
  now apply andb_prop in Hc as [_ Hc].
Qed.

Lemma rule_ok_parts rule :
  rule_ok rule = true ->
  all_chars (fun c => negb (Ascii.eqb c "=")) (fst rule) = true /\
  all_chars py_plain (rule_text rule) = true /\
  no_rbracket (rule_entry rule) = true.
Proof.
  unfold rule_ok, rule_entry, rule_text, quoted. intros H.
  apply andb_prop in H as [H Ht]. apply andb_prop in H as [He Ha].
  split; [exact He|]. split.
  - rewrite !ParserFacts.all_chars_app. cbn [all_chars].
    now rewrite (rule_char_plain _ Ha), (rule_char_plain _ Ht).
  - unfold no_rbracket. cbn [all_chars].
    rewrite !ParserFacts.all_chars_app. cbn [all_chars].
    pose proof (rule_char_no_rbracket _ Ha) as Ha'.
    pose proof (rule_char_no_rbracket _ Ht) as Ht'.
    unfold no_rbracket in Ha', Ht'. now rewrite Ha', Ht'.
Qed.

(** The entries of a block of rules hold no closing bracket. *)
Lemma items_no_rbracket ls rules :
  filter (fun i => negb (String.eqb i EmptyString)) (map item ls) =
  map rule_entry rules ->
  Forall (fun rule => rule_ok rule = true) rules ->
  Forall (fun l => no_rbracket (item l) = true) ls.
Proof.
  intros Hitems Hrules. apply Forall_forall. intros l Hl.
  destruct (String.eqb (item l) EmptyString) eqn:E.
  - apply String.eqb_eq in E. now rewrite E.
  - assert (Hin : In (item l) (map rule_entry rules)).
    { rewrite <- Hitems. apply filter_In. split; [now apply in_map|].
      now rewrite E. }
    apply in_map_iff in Hin as (rule & <- & Hrule).
    rewrite Forall_forall in Hrules.
    now apply rule_ok_parts, Hrules.
Qed.

Lemma render_block_no_rbracket ls :
  Forall (fun l => line_ok l = true) ls ->
  Forall (fun l => comment_ok l = true) ls ->
  Forall (fun l => no_rbracket (item l) = true) ls ->
  no_rbracket (render_block ls) = true.
Proof.
  intros Hok Hc Hi. unfold render_block.
  induction Hok as [|l ls Hl Hls IH]; [reflexivity|].
  inversion Hc; inversion Hi; subst.
  assert (Hline : no_rbracket (render_line l) = true)
    by (destruct (render_line_rbracket l Hl) as [Hr _]; [assumption|];
        now rewrite Hr).
  destruct ls as [|l' ls]; [exact Hline|].
  change (String.concat newline (map render_line (l :: l' :: ls)))
    with (render_line l ++ newline ++
          String.concat newline (map render_line (l' :: ls))).
  rewrite !no_rbracket_app, Hline, IH by assumption. reflexivity.
Qed.

End LiteralFacts.



(** ** The Source Collector and the run as a whole *)

Section RunFacts.

Variable ROOT : string.

Lemma bind_err_inv {A B} (m : M A) (k : A -> M B) w e w' :
  bind m k w = (Err e, w') ->
  m w = (Err e, w') \/ exists a w1, m w = (Ok a, w1) /\ k a w1 = (Err e, w').
Proof.
  unfold bind. destruct (m w) as [[a|e1] w1]; intros H;
    [right; eauto | injection H as -> ->; now left].
Qed.

Lemma read_only_eta {A} (m : M A) w : read_only m -> m w = (fst (m w), w).
Proof.
  intros H. specialize (H w). destruct (m w) as [r w1]. cbn in H. now subst.
Qed.

Lemma set_set_same {V} k (v : V) d : set k v (set k v d) = set k v d.
Proof.
  induction d as [|[k' v'] d IH]; simpl.
  - now rewrite String.eqb_refl.
  - destruct (String.eqb k k') eqn:E; simpl; rewrite E;
      [reflexivity | now rewrite IH].
Qed.

Lemma get_map_values {V W} (f : V -> W) k (d : dict V) :
  get k (map (fun item => (fst item, f (snd item))) d) = option_map f (get k d).
Proof.
  induction d as [|[k' v] d IH]; cbn; [reflexivity|].
  now destruct (String.eqb k k').
Qed.

Lemma get_app_r {V} k (d d' : dict V) :
  ~ In k (keys d) -> get k (d ++ d')%list = get k d'.
Proof.
  induction d as [|[k' v] d IH]; cbn; [reflexivity|].
  intros H. destruct (String.eqb k k') eqn:E.
  - apply String.eqb_eq in E. subst. exfalso. apply H. now left.
  - apply IH. intros Hin. apply H. now right.
Qed.

(** When every listed file is there, the loop appends one entry per path,
    in order, with the text of the file. *)
Lemma read_sources_loop_ok paths :
  forall sources w,
    NoDup paths ->
    (forall p, In p paths -> ~ In p (keys sources)) ->
    (forall p, In p paths -> contains (joinpath ROOT p) (files w) = true) ->
    exists added,
      read_sources_loop ROOT paths sources w = (Ok (sources ++ added)%list, w) /\
      keys added = paths /\
      (forall p, In p paths ->
                 get p added = get (joinpath ROOT p) (files w)).
Proof.
  induction paths as [|path paths IH]; intros sources w Hnd Hfresh Hfiles.
  - exists []. cbn. rewrite app_nil_r. repeat split. intros p [].
  - inversion Hnd as [|? ? Hnotin Hnd']; subst.
    destruct (contains_get_some _ _ (Hfiles path (or_introl eq_refl)))
      as [content Hcontent].
    assert (Hnew : contains path sources = false)
      by (apply contains_false_keys, Hfresh; now left).
    destruct (IH (set path content sources) w Hnd') as (added & Hrun & Hkeys & Hget).
    + intros p Hp. rewrite (keys_set_new _ _ _ Hnew). unfold keys.
      rewrite map_app, in_app_iff. cbn. intros [Hin | [-> | []]].
      * apply (Hfresh p); [now right | exact Hin].
      * contradiction.
    + intros p Hp. apply Hfiles. now right.
    + exists ((path, content) :: added). split; [|split].
      * cbn [read_sources_loop]. unfold bind at 1, path_exists.
        rewrite (Hfiles path (or_introl eq_refl)). cbn [orb negb].
        unfold bind at 1, read_text. rewrite Hcontent, Hrun.
        rewrite (keys_set_new _ _ _ Hnew), <- app_assoc. reflexivity.
      * change (keys ((path, content) :: added)) with (path :: keys added).
        now rewrite Hkeys.
      * intros p [<- | Hp]; cbn [get].
        -- now rewrite String.eqb_refl, Hcontent.
        -- destruct (String.eqb p path) eqn:E; [|auto].
           apply String.eqb_eq in E. subst. contradiction.
Qed.

(** One round of the loop over a file that is there. *)
Lemma read_sources_loop_step path paths sources w content :
  get (joinpath ROOT path) (files w) = Some content ->
  read_sources_loop ROOT (path :: paths) sources w =
  read_sources_loop ROOT paths (set path content sources) w.
Proof.
  intros E. cbn [read_sources_loop]. unfold bind at 1, path_exists, contains.
  rewrite E. cbn [orb negb]. unfold bind at 1, read_text. now rewrite E.
Qed.

(** The loop looks at the listed files only. *)
Lemma read_sources_loop_frame paths :
  forall sources w1 w2,
    (forall p, In p paths ->
               exists content,
                 get (joinpath ROOT p) (files w1) = Some content /\
                 get (joinpath ROOT p) (files w2) = Some content) ->
    fst (read_sources_loop ROOT paths sources w1) =
    fst (read_sources_loop ROOT paths sources w2).
Proof.
  induction paths as [|path paths IH]; intros sources w1 w2 H; [reflexivity|].
  destruct (H path (or_introl eq_refl)) as (content & H1 & H2).
  rewrite (read_sources_loop_step _ _ _ _ _ H1),
    (read_sources_loop_step _ _ _ _ _ H2).
  apply IH. intros p Hp. apply H. now right.
Qed.

Lemma load_artifact_frame w1 w2 text :
  get (ARTIFACT ROOT) (files w1) = Some text ->
  get (ARTIFACT ROOT) (files w2) = Some text ->
  fst (load_artifact ROOT w1) = fst (load_artifact ROOT w2).
Proof.
  intros H1 H2. unfold load_artifact, bind, read_text, lift. rewrite H1, H2.
  destruct (json_loads text); reflexivity.
Qed.

Lemma load_artifact_read w metadata :
  fst (load_artifact ROOT w) = Ok metadata ->
  exists text, get (ARTIFACT ROOT) (files w) = Some text.
Proof.
  unfold load_artifact, bind, read_text.
  destruct (get (ARTIFACT ROOT) (files w)) as [text|]; [eauto|].
  destruct (is_dir _ w); [|destruct (under_file _ w)]; discriminate.
Qed.

Lemma parse_remappings_frame literal_eval w1 w2 text :
  get (FOUNDRY_TOML ROOT) (files w1) = Some text ->
  get (FOUNDRY_TOML ROOT) (files w2) = Some text ->
  fst (parse_remappings ROOT literal_eval w1) =
  fst (parse_remappings ROOT literal_eval w2).
Proof.
  intros H1 H2. unfold parse_remappings, bind, read_text, lift.
  now rewrite H1, H2.
Qed.

Lemma parse_remappings_read literal_eval w remaps :
  fst (parse_remappings ROOT literal_eval w) = Ok remaps ->
  exists text, get (FOUNDRY_TOML ROOT) (files w) = Some text.
Proof.
  unfold parse_remappings, bind, read_text.
  destruct (get (FOUNDRY_TOML ROOT) (files w)) as [text|]; [eauto|].
  destruct (is_dir _ w); [|destruct (under_file _ w)]; discriminate.
Qed.

(** *** The output path and the directory above it *)

Lemma startswith_longer s prefix :
  startswith s prefix = true -> String.length prefix <= String.length s.
Proof.
  revert s. induction prefix as [|a prefix IH]; intros s; cbn;
    [intros _; apply Nat.le_0_l|].
  destruct s as [|b s]; [discriminate|].
  intros H. apply andb_prop in H as [_ H]. cbn. apply le_n_S. now apply IH.
Qed.

Lemma startswith_prefix s p q :
  startswith s (p ++ q) = true -> startswith s p = true.
Proof.
  revert s. induction p as [|a p IH]; intros s; cbn; [reflexivity|].
  destruct s as [|b s]; [discriminate|].
  intros H. apply andb_prop in H as [Hc H]. now rewrite Hc, (IH _ H).
Qed.

Lemma startswith_extend s t p :
  startswith s p = true -> startswith (s ++ t) p = true.
Proof.
  revert s. induction p as [|a p IH]; intros s; cbn; [reflexivity|].
  destruct s as [|b s]; [discriminate|].
  intros H. apply andb_prop in H as [Hc H]. cbn. now rewrite Hc, (IH _ H).
Qed.

(** What stands for the directory [path] in front of the names below
    it. *)
Lemma dir_prefix_form path :
  exists e, (if endswith path "/" then path else path ++ "/") = path ++ e.
Proof.
  destruct (endswith path "/"); [exists EmptyString | exists "/"];
    [now rewrite ParserFacts.append_empty_r | reflexivity].
Qed.

Lemma below_intro path k :
  startswith k (path ++ "/") = true -> below path k = true.
Proof.
  intros H. unfold below. apply andb_true_intro. split.
  - destruct (endswith path "/"); [|exact H].
    now apply startswith_prefix in H.
  - apply negb_true_iff, String.eqb_neq. intros ->.
    apply startswith_longer in H. rewrite ParserFacts.length_append in H.
    cbn in H. lia.
Qed.

Lemma below_longer path k :
  below path k = true -> String.length path <= String.length k /\ k <> path.
Proof.
  unfold below. intros H. apply andb_prop in H as [H Hne].
  apply negb_true_iff, String.eqb_neq in Hne. split; [|exact Hne].
  destruct (dir_prefix_form path) as [e He]. rewrite He in H.
  apply startswith_longer in H. rewrite ParserFacts.length_append in H. lia.
Qed.

Lemma below_same path : below path path = false.
Proof. unfold below. rewrite String.eqb_refl. apply andb_false_r. Qed.

Lemma OUTPUT_form :
  OUTPUT ROOT = OUTPUT_DIR ROOT ++ "/" ++ "BurnMintTokenPool.standard.cleaned.json".
Proof. reflexivity. Qed.

Lemma OUTPUT_length : String.length (OUTPUT_DIR ROOT) < String.length (OUTPUT ROOT).
Proof. rewrite OUTPUT_form, ParserFacts.length_append. cbn. lia. Qed.

Lemma OUTPUT_below_DIR : below (OUTPUT_DIR ROOT) (OUTPUT ROOT) = true.
Proof.
  apply below_intro. rewrite OUTPUT_form, <- ParserFacts.append_assoc.
  apply startswith_append.
Qed.

Lemma DIR_not_below_OUTPUT : below (OUTPUT ROOT) (OUTPUT_DIR ROOT) = false.
Proof.
  destruct (below (OUTPUT ROOT) (OUTPUT_DIR ROOT)) eqn:E; [|reflexivity].
  apply below_longer in E as [E _]. pose proof OUTPUT_length. lia.
Qed.

Lemma below_DIR_OUTPUT k :
  below k (OUTPUT_DIR ROOT) = true -> below k (OUTPUT ROOT) = true.
Proof.
  intros H. pose proof (below_longer _ _ H) as [Hlen _].
  unfold below in *. apply andb_prop in H as [H _].
  apply andb_true_intro. split.
  - rewrite OUTPUT_form. now apply startswith_extend.
  - apply negb_true_iff, String.eqb_neq. intros Heq.
    pose proof OUTPUT_length. rewrite Heq in *. lia.
Qed.

Lemma existsb_keys_set {V} (f : string -> bool) k (v : V) d :
  existsb f (keys (set k v d)) = existsb f (keys d) || f k.
Proof.
  induction d as [|[k' v'] d IH]; cbn.
  - now rewrite orb_false_r.
  - destruct (String.eqb k k') eqn:E; cbn.
    + apply String.eqb_eq in E. subst k'.
      destruct (f k); cbn; [reflexivity | now rewrite orb_false_r].
    + unfold keys in IH. rewrite IH. now rewrite orb_assoc.
Qed.

(** Nothing is in the way of the output file when no regular file stands
    above it and no directory at it. *)
Lemma output_way_clear w :
  under_file (OUTPUT ROOT) w = false ->
  contains (OUTPUT_DIR ROOT) (files w) = false /\
  under_file (OUTPUT_DIR ROOT) w = false.
Proof.
  unfold under_file. intros H. split.
  - apply contains_false_keys. intros Hin.
    assert (Hex : existsb (fun k => below k (OUTPUT ROOT)) (keys (files w)) = true)
      by (apply existsb_exists; exists (OUTPUT_DIR ROOT);
          split; [exact Hin | apply OUTPUT_below_DIR]).
    congruence.
  - destruct (existsb (fun k => below k (OUTPUT_DIR ROOT)) (keys (files w)))
      eqn:E; [|reflexivity].
    apply existsb_exists in E as (k & Hin & Hk).
    assert (Hex : existsb (fun k => below k (OUTPUT ROOT)) (keys (files w)) = true)
      by (apply existsb_exists; exists k;
          split; [exact Hin | now apply below_DIR_OUTPUT]).
    congruence.
Qed.

(** The output file, once written, is in nobody's way. *)
Lemma output_way_kept text w :
  contains (OUTPUT_DIR ROOT) (files w) = false ->
  under_file (OUTPUT_DIR ROOT) w = false ->
  is_dir (OUTPUT ROOT) w = false ->
  under_file (OUTPUT ROOT) w = false ->
  forall out,
    let w1 := {| files := set (OUTPUT ROOT) text (files w); stdout := out |} in
    contains (OUTPUT_DIR ROOT) (files w1) = false /\
    under_file (OUTPUT_DIR ROOT) w1 = false /\
    is_dir (OUTPUT ROOT) w1 = false /\
    under_file (OUTPUT ROOT) w1 = false.
Proof.
  intros H1 H2 H3 H4 out w1. unfold w1, is_dir, under_file in *.
  cbn [files]. rewrite !existsb_keys_set, H2, H3, H4.
  rewrite below_same, DIR_not_below_OUTPUT. cbn [orb].
  repeat split. unfold contains in *.
  rewrite get_set_other; [exact H1|].
  intros Heq. pose proof OUTPUT_length. rewrite Heq in *. lia.
Qed.

Lemma OUTPUT_not_ARTIFACT : ARTIFACT ROOT <> OUTPUT ROOT.
Proof.
  unfold ARTIFACT, OUTPUT, OUTPUT_DIR, joinpath. cbn [startswith Ascii.eqb].
  cbn. rewrite !ParserFacts.append_assoc. intros H.
  apply append_inj_l in H. discriminate.
Qed.

Lemma OUTPUT_not_FOUNDRY_TOML : FOUNDRY_TOML ROOT <> OUTPUT ROOT.
Proof.
  unfold FOUNDRY_TOML, OUTPUT, OUTPUT_DIR, joinpath. cbn.
  rewrite !ParserFacts.append_assoc. intros H.
  apply append_inj_l in H. discriminate.
Qed.

(** The world after a successful run, and the values it was built from. *)
Lemma main_ok_inv literal_eval w w' :
  main ROOT literal_eval w = (Ok tt, w') ->
  exists metadata sources remaps original settings language,
    load_artifact ROOT w = (Ok metadata, w) /\
    read_sources ROOT metadata w = (Ok sources, w) /\
    parse_remappings ROOT literal_eval w = (Ok remaps, w) /\
    getitem metadata "settings" = Ok original /\
    sanitize_settings original = Ok settings /\
    getitem metadata "language" = Ok language /\
    w' = {| files :=
              set (OUTPUT ROOT)
                  (Json.dumps false (Some 2)
                     (standard_json language
                        (expand_alias_sources sources remaps) settings))
                  (files w);
            stdout :=
              (stdout w ++ [("Standard JSON written to " ++ OUTPUT ROOT)%string])%list |}.
Proof.
  unfold main. intros H.
  apply bind_ok_inv in H as (metadata & w1 & Hload & H).
  assert (w1 = w) by (eapply read_only_run;
                      [apply read_only_load_artifact | exact Hload]).
  subst w1.
  apply bind_ok_inv in H as (sources & w1 & Hread & H).
  assert (w1 = w) by (eapply read_only_run;
                      [apply read_only_read_sources | exact Hread]).
  subst w1.
  apply bind_ok_inv in H as (remaps & w1 & Hparse & H).
  assert (w1 = w) by (eapply read_only_run;
                      [apply read_only_parse_remappings | exact Hparse]).
  subst w1.
  apply bind_ok_inv in H as (original & w1 & Horig & H).
  unfold lift in Horig. injection Horig as Horig <-.
  apply bind_ok_inv in H as (settings & w1 & Hsan & H).
  unfold lift in Hsan. injection Hsan as Hsan <-.
  apply bind_ok_inv in H as (language & w1 & Hlang & H).
  unfold lift in Hlang. injection Hlang as Hlang <-.
  apply write_and_print_inv in H as (_ & _ & _ & _ & ->).
  exists metadata, sources, remaps, original, settings, language.
  auto 10.
Qed.

(** A successful run found nothing in the way of the output file. *)
Lemma main_ok_way literal_eval w w' :
  main ROOT literal_eval w = (Ok tt, w') ->
  contains (OUTPUT_DIR ROOT) (files w) = false /\
  under_file (OUTPUT_DIR ROOT) w = false /\
  is_dir (OUTPUT ROOT) w = false /\
  under_file (OUTPUT ROOT) w = false.
Proof.
  unfold main. intros H.
  apply bind_ok_inv in H as (metadata & w1 & Hload & H).
  apply (read_only_run _ _ _ _ (read_only_load_artifact ROOT)) in Hload as ->.
  apply bind_ok_inv in H as (sources & w1 & Hread & H).
  apply (read_only_run _ _ _ _ (read_only_read_sources ROOT metadata))
    in Hread as ->.
  apply bind_ok_inv in H as (remaps & w1 & Hparse & H).
  apply (read_only_run _ _ _ _ (read_only_parse_remappings ROOT literal_eval))
    in Hparse as ->.
  apply bind_ok_inv in H as (original & w1 & Horig & H).
  apply (read_only_run _ _ _ _ (read_only_lift _)) in Horig as ->.
  apply bind_ok_inv in H as (settings & w1 & Hsan & H).
  apply (read_only_run _ _ _ _ (read_only_lift _)) in Hsan as ->.
  apply bind_ok_inv in H as (language & w1 & Hlang & H).
  apply (read_only_run _ _ _ _ (read_only_lift _)) in Hlang as ->.
  apply write_and_print_inv in H as (H1 & H2 & H3 & H4 & _). auto.
Qed.

Lemma main_ok_intro literal_eval w metadata sources remaps original settings
    language :
  load_artifact ROOT w = (Ok metadata, w) ->
  read_sources ROOT metadata w = (Ok sources, w) ->
  parse_remappings ROOT literal_eval w = (Ok remaps, w) ->
  getitem metadata "settings" = Ok original ->
  sanitize_settings original = Ok settings ->
  getitem metadata "language" = Ok language ->
  contains (OUTPUT_DIR ROOT) (files w) = false ->
  under_file (OUTPUT_DIR ROOT) w = false ->
  is_dir (OUTPUT ROOT) w = false ->
  under_file (OUTPUT ROOT) w = false ->
  main ROOT literal_eval w =
  (Ok tt,
   {| files :=
        set (OUTPUT ROOT)
            (Json.dumps false (Some 2)
               (standard_json language
                  (expand_alias_sources sources remaps) settings))
            (files w);
      stdout :=
        (stdout w ++ [("Standard JSON written to " ++ OUTPUT ROOT)%string])%list |}).
Proof.
  intros Hload Hread Hparse Horig Hsan Hlang H1 H2 H3 H4.
  unfold main.
  rewrite (bind_ok _ _ _ _ _ Hload), (bind_ok _ _ _ _ _ Hread),
    (bind_ok _ _ _ _ _ Hparse).
  unfold bind at 1, lift. rewrite Horig.
  unfold bind at 1, lift. rewrite Hsan.
  unfold bind at 1, lift. rewrite Hlang.
  now apply write_and_print_ok.
Qed.

End RunFacts.

Lemma read_sources_loop_present ROOT paths sources w result path :
  read_sources_loop ROOT paths sources w = (Ok result, w) ->
  In path paths -> contains (joinpath ROOT path) (files w) = true.
Proof.
  intros Hrun Hin. unfold contains.
  destruct (get (joinpath ROOT path) (files w)) eqn:E; [reflexivity|].
  destruct (read_sources_loop_missing ROOT paths sources w)
    as (before & missing & after & _ & _ & _ & Herr); [eauto|].
  rewrite Hrun in Herr. discriminate.
Qed.

Lemma read_sources_frame ROOT metadata w1 w2 :
  (forall listed p,
     getitem metadata "sources" = Ok (JObject listed) -> In p (keys listed) ->
     exists content,
       get (joinpath ROOT p) (files w1) = Some content /\
       get (joinpath ROOT p) (files w2) = Some content) ->
  fst (read_sources ROOT metadata w1) = fst (read_sources ROOT metadata w2).
Proof.
  intros H. unfold read_sources, bind, lift.
  destruct (getitem metadata "sources") as [listed|] eqn:E; [|reflexivity].
  destruct listed as [ | | | | |d]; try reflexivity.
  cbn [json_keys]. cbv beta iota. apply read_sources_loop_frame. intros p Hp.
  now apply (H d).
Qed.

(** X9: when every path the metadata lists has its file under the root,
    the Source Collector returns one entry per listed path, in the order
    of the listing, each with the text of its file, and leaves the world
    as it is; the values of the listing are not looked at. *)
Theorem read_sources_reads_listed_files
    (ROOT : string) (metadata : json) (listed : dict json) (w : world) :
  getitem metadata "sources" = Ok (JObject listed) ->
  NoDup (keys listed) ->
  (forall path, In path (keys listed) ->
                contains (joinpath ROOT path) (files w) = true) ->
  exists sources,
    read_sources ROOT metadata w = (Ok sources, w) /\
    keys sources = keys listed /\
    (forall path, In path (keys listed) ->
                  get path sources = get (joinpath ROOT path) (files w)).
Proof.
  intros Hlisted Hnd Hfiles.
  destruct (read_sources_loop_ok ROOT (keys listed) [] w Hnd)
    as (added & Hrun & Hkeys & Hget); auto.
  exists added. split; [|auto].
  unfold read_sources. unfold bind at 1, lift. rewrite Hlisted.
  unfold bind at 1, lift, json_keys. exact Hrun.
Qed.

(** Two listed files, one of them under an absolute path. *)
Lemma read_sources_reads_listed_files_witness :
  let listed := [("src/Pool.sol", JObject [("license", JStr "MIT")]);
                 ("/deps/Token.sol", JNull)] in
  let metadata := JObject [("sources", JObject listed)] in
  let w := {| files := [("/deps/Token.sol", "token"); ("/p/src/Pool.sol", "pool")];
              stdout := ["earlier"] |} in
  exists sources,
    read_sources "/p" metadata w = (Ok sources, w) /\
    keys sources = ["src/Pool.sol"; "/deps/Token.sol"] /\
    (forall path, In path (keys listed) ->
                  get path sources = get (joinpath "/p" path) (files w)).
Proof.
  intros listed metadata w.
  apply (read_sources_reads_listed_files "/p" metadata listed w).
  - reflexivity.
  - repeat constructor; cbn; intuition discriminate.
  - intros path [<- | [<- | []]]; reflexivity.
Defined.



(** X11: running the script again over the world a successful run left
    (no listed source being the output file itself) succeeds again and
    writes the same text to the output file: the files are those the
    first run left, and one more line is printed. *)
Theorem main_rerun_writes_same_file
    (ROOT : string) (literal_eval : string -> result (list string))
    (w w' : world) (metadata : json) (listed : dict json) :
  main ROOT literal_eval w = (Ok tt, w') ->
  fst (load_artifact ROOT w) = Ok metadata ->
  getitem metadata "sources" = Ok (JObject listed) ->
  (forall path, In path (keys listed) -> joinpath ROOT path <> OUTPUT ROOT) ->
  main ROOT literal_eval w' =
  (Ok tt,
   {| files := files w';
      stdout :=
        (stdout w ++
         [("Standard JSON written to " ++ OUTPUT ROOT)%string;
          ("Standard JSON written to " ++ OUTPUT ROOT)%string])%list |}).
Proof.
  intros Hmain Hload Hlisted Hne.
  destruct (main_ok_inv ROOT literal_eval w w' Hmain)
    as (m & sources & remaps & original & settings & language &
        Hl & Hr & Hp & Ho & Hs & Hlang & ->).
  rewrite Hl in Hload. cbn [fst] in Hload. injection Hload as ->.
  match goal with
  | |- main _ _ ?world = _ => set (w1 := world)
  end.
  assert (Hframe : forall path, path <> OUTPUT ROOT ->
                                get path (files w1) = get path (files w))
    by (intros path Hpath; now apply get_set_other).
  assert (Hl1 : load_artifact ROOT w1 = (Ok metadata, w1)).
  { rewrite (read_only_eta _ w1 (read_only_load_artifact ROOT)).
    destruct (load_artifact_read ROOT w metadata) as [text Htext];
      [now rewrite Hl|].
    rewrite (load_artifact_frame ROOT w1 w text), Hl; [reflexivity| |exact Htext].
    rewrite Hframe; [exact Htext | apply OUTPUT_not_ARTIFACT]. }
  assert (Hr1 : read_sources ROOT metadata w1 = (Ok sources, w1)).
  { rewrite (read_only_eta _ w1 (read_only_read_sources ROOT metadata)).
    rewrite (read_sources_frame ROOT metadata w1 w), Hr; [reflexivity|].
    intros listed' p Hlisted' Hin.
    rewrite Hlisted in Hlisted'. injection Hlisted' as <-.
    assert (Hloop : read_sources_loop ROOT (keys listed) [] w = (Ok sources, w)).
    { unfold read_sources in Hr. unfold bind at 1, lift in Hr.
      rewrite Hlisted in Hr. exact Hr. }
    destruct (contains_get_some _ _
                (read_sources_loop_present _ _ _ _ _ p Hloop Hin))
      as [content Hcontent].
    exists content. split; [|exact Hcontent].
    rewrite Hframe; [exact Hcontent | now apply Hne]. }
  assert (Hp1 : parse_remappings ROOT literal_eval w1 = (Ok remaps, w1)).
  { rewrite (read_only_eta _ w1 (read_only_parse_remappings ROOT literal_eval)).
    destruct (parse_remappings_read ROOT literal_eval w remaps) as [text Htext];
      [now rewrite Hp|].
    rewrite (parse_remappings_frame ROOT literal_eval w1 w text), Hp;
      [reflexivity| |exact Htext].
    rewrite Hframe; [exact Htext | apply OUTPUT_not_FOUNDRY_TOML]. }
  destruct (main_ok_way ROOT literal_eval w _ Hmain) as (Hw1 & Hw2 & Hw3 & Hw4).
  destruct (output_way_kept ROOT
              (Json.dumps false (Some 2)
                 (standard_json language
                    (expand_alias_sources sources remaps) settings))
              w Hw1 Hw2 Hw3 Hw4
              (stdout w ++ [("Standard JSON written to " ++ OUTPUT ROOT)%string])%list)
    as (Hk1 & Hk2 & Hk3 & Hk4).
  rewrite (main_ok_intro ROOT literal_eval w1 metadata sources remaps original
             settings language Hl1 Hr1 Hp1 Ho Hs Hlang Hk1 Hk2 Hk3 Hk4).
  unfold w1. cbn [files stdout].
  now rewrite set_set_same, <- app_assoc.
Qed.

(** A first run and a second one over its result. *)
Lemma main_rerun_writes_same_file_witness :
  let listed := [("src/Pool.sol", JObject [])] in
  let metadata :=
    JObject [("language", JStr "Solidity"); ("sources", JObject listed);
             ("settings", JObject [("compilationTarget", JObject [])])] in
  let w :=
    {| files :=
         [(ARTIFACT "/p", Json.dumps true None (JObject [("metadata", metadata)]));
          (FOUNDRY_TOML "/p", "remappings = []");
          ("/p/src/Pool.sol", "contract Pool {}")];
       stdout := [] |} in
  let w' := snd (main "/p" py_literal_eval w) in
  files (snd (main "/p" py_literal_eval w')) = files w'.
Proof.
  intros listed metadata w w'.
  rewrite (main_rerun_writes_same_file "/p" py_literal_eval w w' metadata listed).
  - reflexivity.
  - reflexivity.
  - reflexivity.
  - reflexivity.
  - intros path [<- | []]. discriminate.
Defined.

Lemma sanitize_settings_inv original settings :
  sanitize_settings original = Ok settings ->
  exists d, wf d /\ settings = JObject (pop "compilationTarget" d).
Proof.
  unfold sanitize_settings.
  destruct (json_loads _) as [copy|] eqn:E; [|discriminate].
  apply wf_json_loads in E.
  destruct copy as [ | | | | |d]; try discriminate.
  intros [= <-]. exists d. split; [|reflexivity].
  now apply JsonRoundTrip.wf_json_members in E.
Qed.

(** X12: after a successful run the output file decodes to a document
    whose [sources] member has, for every path the metadata lists, the
    entry [{content: text}] with the text of the file of this path, and
    whose [settings] member is an object without [compilationTarget]. *)
Theorem main_output_holds_listed_sources
    (ROOT : string) (literal_eval : string -> result (list string))
    (w w' : world) (metadata : json) (listed : dict json) (path : string) :
  main ROOT literal_eval w = (Ok tt, w') ->
  fst (load_artifact ROOT w) = Ok metadata ->
  getitem metadata "sources" = Ok (JObject listed) ->
  In path (keys listed) ->
  exists text written document entries settings,
    get (joinpath ROOT path) (files w) = Some text /\
    get (OUTPUT ROOT) (files w') = Some written /\
    Json.loads written = Some document /\
    getitem document "sources" = Ok (JObject entries) /\
    get path entries = Some (JObject [("content", JStr text)]) /\
    getitem document "settings" = Ok (JObject settings) /\
    get "compilationTarget" settings = None.
Proof.
  intros Hmain Hload Hlisted Hin.
  destruct (main_ok_inv ROOT literal_eval w w' Hmain)
    as (m & sources & remaps & original & sanitized & language &
        Hl & Hr & Hp & Ho & Hs & Hlang & ->).
  assert (Hm : wf_json m) by (apply (wf_load_artifact ROOT w); now rewrite Hl).
  rewrite Hl in Hload. cbn [fst] in Hload. injection Hload as ->.
  assert (Hnd : NoDup (keys listed)).
  { apply (wf_getitem _ _ _ Hm) in Hlisted.
    now apply JsonRoundTrip.wf_json_members in Hlisted. }
  assert (Hloop : read_sources_loop ROOT (keys listed) [] w = (Ok sources, w)).
  { unfold read_sources in Hr. unfold bind at 1, lift in Hr.
    rewrite Hlisted in Hr. exact Hr. }
  destruct (read_sources_loop_ok ROOT (keys listed) [] w Hnd)
    as (added & Hrun & _ & Hget).
  { intros p _ []. }
  { intros p Hlist. eapply read_sources_loop_present; eauto. }
  rewrite Hloop in Hrun. injection Hrun as ->. cbn [app] in *.
  destruct (contains_get_some _ _
              (read_sources_loop_present _ _ _ _ _ path Hloop Hin))
    as [text Htext].
  assert (Hsrc : get path (expand_alias_sources added remaps) = Some text).
  { apply expand_rules_keep. now rewrite (Hget path Hin). }
  destruct (sanitize_settings_inv _ _ Hs) as (d & Hd & ->).
  set (standard := standard_json language (expand_alias_sources added remaps)
                     (JObject (pop "compilationTarget" d))).
  assert (Hwf : wf_json standard).
  { apply wf_standard_json.
    - eapply wf_getitem; eauto.
    - apply wf_expand_alias_sources, (wf_read_sources ROOT metadata w).
      now rewrite Hr.
    - eapply wf_sanitize_settings; eauto. }
  exists text, (Json.dumps false (Some 2) standard), standard,
    (map (fun item => (fst item, JObject [("content", JStr (snd item))]))
         (expand_alias_sources added remaps)),
    (pop "compilationTarget" d).
  split; [exact Htext|]. split; [apply get_set_same|].
  split; [now apply JsonRoundTrip.loads_dumps|].
  split; [reflexivity|]. split; [|split; [reflexivity|]].
  - now rewrite (get_map_values (fun c => JObject [("content", JStr c)])), Hsrc.
  - now apply get_pop_same.
Qed.

(** Scenario B: the listed file is in the decoded output, and the
    compilation target is not. *)
Lemma main_output_holds_listed_sources_witness :
  let listed := [("lib/chainlink/contracts/Token.sol", JObject [])] in
  let metadata :=
    JObject [("language", JStr "Solidity"); ("sources", JObject listed);
             ("settings", JObject [("optimizer", JObject [("enabled", JBool true)]);
                                   ("compilationTarget",
                                    JObject [("src/Pool.sol", JStr "Pool")])])] in
  let w :=
    {| files :=
         [(ARTIFACT "/p",
           Json.dumps true None
             (JObject [("metadata", JStr (Json.dumps true None metadata))]));
          (FOUNDRY_TOML "/p",
           "remappings = [" ++ quoted "@chainlink/=lib/chainlink/" ++ "]");
          ("/p/lib/chainlink/contracts/Token.sol", "CONTENT")];
       stdout := [] |} in
  exists text written document entries settings,
    get "/p/lib/chainlink/contracts/Token.sol" (files w) = Some text /\
    get (OUTPUT "/p") (files (snd (main "/p" py_literal_eval w))) = Some written /\
    Json.loads written = Some document /\
    getitem document "sources" = Ok (JObject entries) /\
    get "lib/chainlink/contracts/Token.sol" entries =
    Some (JObject [("content", JStr text)]) /\
    getitem document "settings" = Ok (JObject settings) /\
    get "compilationTarget" settings = None.
Proof.
  intros listed metadata w.
  apply (main_output_holds_listed_sources "/p" py_literal_eval w
           (snd (main "/p" py_literal_eval w)) metadata listed
           "lib/chainlink/contracts/Token.sol").
  - reflexivity.
  - reflexivity.
  - reflexivity.
  - now left.
Defined.

(** X13: on settings as [json.loads] builds them, the Settings Sanitizer
    returns exactly for an object; a list is refused with a [TypeError]
    (its [pop] takes no default) and a string, a number, a boolean or
    [null] with an [AttributeError] (they have no [pop]). *)
Theorem sanitize_settings_needs_object (settings : json) :
  wf_json settings ->
  sanitize_settings settings =
  match settings with
  | JObject d => Ok (JObject (pop "compilationTarget" d))
  | JList _ => Err TypeError
  | _ => Err AttributeError
  end.
Proof.
  intros Hwf. unfold sanitize_settings, json_loads.
  rewrite (JsonRoundTrip.loads_dumps _ _ _ Hwf). now destruct settings.
Qed.

Lemma sanitize_settings_needs_object_witness :
  sanitize_settings (JList [JObject [("compilationTarget", JNull)]]) =
  Err TypeError.
Proof.
  apply (sanitize_settings_needs_object
           (JList [JObject [("compilationTarget", JNull)]])).
  cbn. repeat split; repeat constructor. cbn. tauto.
Defined.

(** X14: sanitizing is idempotent: settings that came out of the Settings
    Sanitizer come out of it again unchanged. *)
Theorem sanitize_settings_idempotent (original settings : json) :
  sanitize_settings original = Ok settings ->
  sanitize_settings settings = Ok settings.
Proof.
  intros H. pose proof (wf_sanitize_settings _ _ H) as Hwf.
  destruct (sanitize_settings_inv _ _ H) as (d & Hd & ->).
  unfold sanitize_settings, json_loads.
  rewrite (JsonRoundTrip.loads_dumps _ _ _ Hwf).
  now rewrite (pop_absent "compilationTarget" (pop "compilationTarget" d)
                 (get_pop_same _ _ Hd)).
Qed.

Lemma sanitize_settings_idempotent_witness :
  sanitize_settings
    (JObject [("optimizer", JObject [("runs", JInt 200)])]) =
  Ok (JObject [("optimizer", JObject [("runs", JInt 200)])]).
Proof.
  apply (sanitize_settings_idempotent
           (JObject [("compilationTarget", JObject [("src/Pool.sol", JStr "Pool")]);
                     ("optimizer", JObject [("runs", JInt 200)])])).
  reflexivity.
Defined.

(** * tools/print_ctor.py *)

Module PrintCtorFacts.
Import PrintCtor.

Lemma lower_char_idem c : lower_char (lower_char c) = lower_char c.
Proof. destruct c as [[] [] [] [] [] [] [] []]; reflexivity. Qed.

Lemma lower_idem s : lower (lower s) = lower s.
Proof.
  induction s as [|c s IH]; cbn [lower]; [reflexivity|].
  now rewrite lower_char_idem, IH.
Qed.

Lemma length_lower s : String.length (lower s) = String.length s.
Proof. induction s as [|c s IH]; cbn [lower String.length]; congruence. Qed.

Lemma length_slice_from n s :
  String.length (slice_from n s) = String.length s - n.
Proof.
  revert s. induction n as [|n IH]; intros s; cbn [slice_from].
  - now rewrite Nat.sub_0_r.
  - destruct s as [|c s]; [reflexivity|]. cbn [String.length]. now rewrite IH.
Qed.

Lemma length_last_chars n s :
  String.length (last_chars n s) = Nat.min n (String.length s).
Proof. unfold last_chars. rewrite length_slice_from. lia. Qed.

(** The loop passes over the transactions that are not the target. *)
Lemma scan_passed before rest :
  forallb passed before = true -> scan (before ++ rest) = scan rest.
Proof.
  induction before as [|tx before IH]; [reflexivity|].
  cbn [forallb]. intros H. apply andb_prop in H as [Htx Hb].
  cbn [app scan]. unfold passed in Htx.
  destruct (address tx) as [a|]; [|discriminate].
  apply negb_true_iff in Htx. rewrite Htx. auto.
Qed.

Lemma scan_printed txs line :
  scan txs = Printed line ->
  exists tx, In tx txs /\ ctor_line tx = Some line.
Proof.
  induction txs as [|tx txs IH]; cbn [scan]; [discriminate|].
  destruct (address tx) as [a|]; [|discriminate].
  destruct (String.eqb a TARGET).
  - destruct (ctor_line tx) as [l|] eqn:E; [|discriminate].
    intros [= <-]. exists tx. split; [now left | exact E].
  - intros H. destruct (IH H) as (tx' & Hin & Hl).
    exists tx'. split; [now right | exact Hl].
Qed.

Lemma ctor_line_format tx line :
  ctor_line tx = Some line ->
  exists input_data,
    line = "0x" ++ lower (last_chars 896 input_data).
Proof.
  unfold ctor_line.
  destruct (getitem tx "transaction") as [t|]; [|discriminate].
  destruct (getitem t "input") as [[ | | |input_data| | ]|]; try discriminate.
  intros [= <-]. now exists input_data.
Qed.

End PrintCtorFacts.

(** X15: the script prints for the first transaction whose contract
    address, with its capitals made small, is the target: the
    transactions before it are passed over, those after it are not looked
    at, whatever they are; the line is [0x] followed by the last 896
    characters of the transaction's input, capitals made small; it is the
    only effect of the run. *)
Theorem print_ctor_prints_first_match
    (w : world) (text : string) (data : json)
    (before after : list json) (tx transaction : json)
    (contract_address input_data : string) :
  get PrintCtor.PATH (files w) = Some text ->
  Json.loads text = Some data ->
  getitem data "transactions" = Ok (JList (before ++ tx :: after)) ->
  forallb PrintCtor.passed before = true ->
  getitem tx "contractAddress" = Ok (JStr contract_address) ->
  PrintCtor.lower contract_address = PrintCtor.TARGET ->
  getitem tx "transaction" = Ok transaction ->
  getitem transaction "input" = Ok (JStr input_data) ->
  PrintCtor.print_ctor w =
  (PrintCtor.Printed
     ("0x" ++ PrintCtor.lower (PrintCtor.last_chars 896 input_data)),
   {| files := files w;
      stdout :=
        (stdout w ++
         [("0x" ++ PrintCtor.lower (PrintCtor.last_chars 896 input_data))%string])%list |}).
Proof.
  intros Hfile Hdata Htxs Hbefore Haddr Hlower Htx Hinput.
  unfold PrintCtor.print_ctor. rewrite Hfile, Hdata, Htxs.
  cbn [PrintCtor.items]. rewrite (PrintCtorFacts.scan_passed _ _ Hbefore).
  cbn [PrintCtor.scan].
  assert (Ha : PrintCtor.address tx = Some PrintCtor.TARGET).
  { unfold PrintCtor.address. destruct tx as [ | | | | |d]; try discriminate.
    cbn [getitem] in Haddr.
    destruct (get "contractAddress" d) as [v|]; [|discriminate].
    injection Haddr as ->. now rewrite Hlower. }
  rewrite Ha, String.eqb_refl. unfold PrintCtor.ctor_line.
  now rewrite Htx, Hinput.
Qed.

(** A broadcast file with a call, the deployment with a checksummed
    address, and a later entry that is not even a transaction. *)
Lemma print_ctor_prints_first_match_witness :
  let call := JObject [("contractAddress", JStr "0x00000000000000000000000000000000000000AA");
                       ("transaction", JObject [("input", JStr "0xdead")])] in
  let deployment :=
    JObject [("contractAddress", JStr "0xFE81dbC7eC3AE383a7535f5aFAE817621F2f0E34");
             ("transaction", JObject [("input", JStr "0x6080ABCDEF")])] in
  let data := JObject [("transactions", JList [call; deployment; JNull])] in
  let w := {| files := [(PrintCtor.PATH, Json.dumps true (Some 2) data)];
              stdout := [] |} in
  PrintCtor.print_ctor w =
  (PrintCtor.Printed "0x0x6080abcdef",
   {| files := files w; stdout := ["0x0x6080abcdef"] |}).
Proof.
  intros call deployment data w.
  apply (print_ctor_prints_first_match w (Json.dumps true (Some 2) data) data
           [call] [JNull] deployment
           (JObject [("input", JStr "0x6080ABCDEF")])
           "0xFE81dbC7eC3AE383a7535f5aFAE817621F2f0E34" "0x6080ABCDEF");
    reflexivity.
Defined.

(** X16: for a broadcast file that the decoder of the model reads (no
    number with a fraction or an exponent, no character above U+00FF), a
    line the script prints is [0x] followed by at most 896 characters
    without capitals; the line is added to the output and the files are
    left as they are.  Above U+00FF the bound does not hold of Python:
    there [lower] can make two characters of one. *)
Theorem print_ctor_line_format
    (w w' : world) (text : string) (data : json) (line : string) :
  get PrintCtor.PATH (files w) = Some text ->
  Json.loads text = Some data ->
  PrintCtor.print_ctor w = (PrintCtor.Printed line, w') ->
  exists args,
    line = "0x" ++ args /\
    String.length args <= 896 /\
    PrintCtor.lower args = args /\
    files w' = files w /\
    stdout w' = (stdout w ++ [line])%list.
Proof.
  intros Hfile Hdata. unfold PrintCtor.print_ctor. rewrite Hfile, Hdata.
  destruct (getitem data "transactions") as [transactions|]; [|discriminate].
  destruct (PrintCtor.items transactions) as [txs|]; [|discriminate].
  destruct (PrintCtor.scan txs) as [l| |] eqn:E; try discriminate.
  intros [= <- <-].
  destruct (PrintCtorFacts.scan_printed _ _ E) as (tx & _ & Hline).
  destruct (PrintCtorFacts.ctor_line_format _ _ Hline) as (input_data & ->).
  exists (PrintCtor.lower (PrintCtor.last_chars 896 input_data)).
  split; [reflexivity|]. split; [|split; [|split; reflexivity]].
  - rewrite PrintCtorFacts.length_lower, PrintCtorFacts.length_last_chars. lia.
  - apply PrintCtorFacts.lower_idem.
Qed.

(** An input of 900 characters: the first four are cut. *)
Lemma print_ctor_line_format_witness :
  let input_data := "CAFE" ++ PrintCtor.lower (Json.spaces 896) in
  let data :=
    JObject [("transactions",
              JList [JObject [("contractAddress", JStr PrintCtor.TARGET);
                              ("transaction",
                               JObject [("input", JStr input_data)])]])] in
  let w := {| files := [(PrintCtor.PATH, Json.dumps true None data)];
              stdout := [] |} in
  exists args,
    fst (PrintCtor.print_ctor w) = PrintCtor.Printed ("0x" ++ args) /\
    String.length args <= 896.
Proof.
  intros input_data data w.
  destruct (print_ctor_line_format w (snd (PrintCtor.print_ctor w))
              (Json.dumps true None data) data
              ("0x" ++ Json.spaces 896))
    as (args & Hline & Hlen & _).
  - reflexivity.
  - reflexivity.
  - reflexivity.
  - exists args. split; [now rewrite <- Hline | exact Hlen].
Defined.

(** X17: how the loop ends.  It prints a line exactly for a first
    transaction with the target address whose input can be read; it ends
    without printing exactly when every transaction has a readable
    address that is not the target; it raises at the first transaction
    that is not an object, or whose address is there and is not a string
    (a [null], say), or that has the target address and no readable
    input. *)
Theorem scan_outcome (txs : list json) :
  match PrintCtor.scan txs with
  | PrintCtor.Printed line =>
      exists before tx after,
        txs = (before ++ tx :: after)%list /\
        forallb PrintCtor.passed before = true /\
        PrintCtor.address tx = Some PrintCtor.TARGET /\
        PrintCtor.ctor_line tx = Some line
  | PrintCtor.Silent => forallb PrintCtor.passed txs = true
  | PrintCtor.Raised =>
      exists before tx after,
        txs = (before ++ tx :: after)%list /\
        forallb PrintCtor.passed before = true /\
        (PrintCtor.address tx = None \/
         PrintCtor.address tx = Some PrintCtor.TARGET /\
         PrintCtor.ctor_line tx = None)
  end.
Proof.
  induction txs as [|tx txs IH]; cbn [PrintCtor.scan]; [reflexivity|].
  destruct (PrintCtor.address tx) as [a|] eqn:Ha.
  - destruct (String.eqb a PrintCtor.TARGET) eqn:E.
    + apply String.eqb_eq in E. subst a.
      destruct (PrintCtor.ctor_line tx) as [line|] eqn:El;
        exists [], tx, txs; auto.
    + assert (Hp : PrintCtor.passed tx = true)
        by (unfold PrintCtor.passed; now rewrite Ha, E).
      destruct (PrintCtor.scan txs) as [line| |].
      * destruct IH as (before & tx' & after & -> & Hb & Hrest).
        exists (tx :: before), tx', after. cbn [forallb]. now rewrite Hp, Hb.
      * cbn [forallb]. now rewrite Hp, IH.
      * destruct IH as (before & tx' & after & -> & Hb & Hrest).
        exists (tx :: before), tx', after. cbn [forallb]. now rewrite Hp, Hb.
  - exists [], tx, txs. auto.
Qed.

(** * The run: when it succeeds, and what the loader leaves encoded *)



(** A regular file where the output directory has to be: the run reads
    everything and stops at [mkdir], the world left as it was. *)
Example main_stops_at_mkdir :
  let metadata :=
    JObject [("language", JStr "Solidity"); ("sources", JObject []);
             ("settings", JObject [])] in
  let w :=
    {| files :=
         [(ARTIFACT "/p", Json.dumps true None (JObject [("metadata", metadata)]));
          (FOUNDRY_TOML "/p", "[profile.default]");
          ("/p/tmp", "in the way")];
       stdout := [] |} in
  main "/p" py_literal_eval w =
  (Err (FileExistsError "[Errno 17] File exists: '/p/tmp'"), w).
Proof. reflexivity. Qed.

(** X19: the loader decodes an encoded metadata once only: when the
    [metadata] member is the encoding of a string, whatever this string
    holds, the loader returns the string, and the run stops with a
    [TypeError] when it asks the string for its [sources], the world left
    as it was. *)
Theorem load_artifact_decodes_once
    (ROOT : string) (literal_eval : string -> result (list string))
    (w : world) (text inner : string) (data : dict json)
    (ensure_ascii : bool) (indent : option nat) :
  get (ARTIFACT ROOT) (files w) = Some text ->
  Json.loads text = Some (JObject data) ->
  get "metadata" data =
  Some (JStr (Json.dumps ensure_ascii indent (JStr inner))) ->
  load_artifact ROOT w = (Ok (JStr inner), w) /\
  main ROOT literal_eval w = (Err TypeError, w).
Proof.
  intros Hfile Hdata Hmeta.
  assert (Hload : load_artifact ROOT w = (Ok (JStr inner), w)).
  { unfold load_artifact, bind, read_text, lift, json_loads, metadata_of, getitem.
    rewrite Hfile, Hdata, Hmeta. unfold json_loads.
    now rewrite (JsonRoundTrip.loads_dumps ensure_ascii indent (JStr inner) I). }
  split; [exact Hload|].
  unfold main. rewrite (bind_ok _ _ _ _ _ Hload). now apply bind_err.
Qed.

(** A metadata record that was encoded twice. *)
Lemma load_artifact_decodes_once_witness :
  let m := JObject [("language", JStr "Solidity"); ("sources", JObject []);
                    ("settings", JObject [])] in
  let inner := Json.dumps true None m in
  let data := [("metadata", JStr (Json.dumps true None (JStr inner)))] in
  let w := {| files := [(ARTIFACT "/p", Json.dumps true None (JObject data));
                        (FOUNDRY_TOML "/p", "remappings = []")];
              stdout := [] |} in
  load_artifact "/p" w = (Ok (JStr inner), w) /\
  main "/p" py_literal_eval w = (Err TypeError, w).
Proof.
  intros m inner data w.
  apply (load_artifact_decodes_once "/p" py_literal_eval w
           (Json.dumps true None (JObject data)) inner data true None);
    reflexivity.
Defined.
